(** * dat-archive: a shallow embedding of the reader and the writer

    The development follows [include/dat-archive.h] and
    [source/dat-archive.cpp].

    - integers of the C++ code are [Z] with their wrap-around written out;
    - file contents are [list byte]; multi-byte fields use the in-memory
      layout of a little-endian target, as the source writes raw object
      representations;
    - [std::ifstream]/[std::fstream] are records with an explicit position
      and explicit state bits;
    - [std::map] is an association list kept in key order;
    - zlib's deflate/inflate are an abstract interface ([zlib.Codec]);
      CRC-32 is implemented bit by bit;
    - an operation that can leave the normal path (an exception, a failed
      [assert], undefined behaviour, a loop that has not finished) returns
      a [run]. *)

From Stdlib Require Import Strings.String Strings.Ascii Strings.Byte.
From Stdlib Require Import ZArith List Bool Lia.
From Stdlib Require Import Sorting.Permutation Sorting.Sorted.
Import ListNotations.
Open Scope Z_scope.

Set Implicit Arguments.

(* ****************************************************************** *)
(** * Part I: the program *)

(* ================================================================== *)
(** ** Bytes and fixed-width integers *)

Definition bytes := list byte.

Definition Z_of_byte (b : byte) : Z := Z.of_N (Byte.to_N b).

Definition byte_of_Z (x : Z) : byte :=
  match Byte.of_N (Z.to_N (x mod 256)) with
  | Some b => b
  | None => x00
  end.

(** [wrap w x] is the value of [x] stored in an unsigned [w]-bit object. *)
Definition wrap (w : Z) (x : Z) : Z := x mod 2 ^ w.

Definition uint8 := wrap 8.
Definition uint16 := wrap 16.
Definition uint32 := wrap 32.
Definition uint64 := wrap 64.

(** A signed 64-bit reading of a 64-bit pattern ([std::streamoff]). *)
Definition int64 (x : Z) : Z :=
  let u := uint64 x in if u <? 2 ^ 63 then u else u - 2 ^ 64.

(** Object representation of an [n]-byte unsigned integer, low byte first. *)
Fixpoint le_encode (n : nat) (x : Z) : bytes :=
  match n with
  | O => []
  | S n' => byte_of_Z x :: le_encode n' (x / 256)
  end.

Fixpoint le_decode (l : bytes) : Z :=
  match l with
  | [] => 0
  | b :: l' => Z_of_byte b + 256 * le_decode l'
  end.

(** [overlay new old]: the bytes of an object after [new] has been copied
    over its first [length new] bytes. *)
Definition overlay (new old : bytes) : bytes :=
  new ++ skipn (List.length new) old.


(* ================================================================== *)
(** ** Outcomes of a call *)

Inductive exception := std_out_of_range | std_length_error.

Inductive run (A : Type) : Type :=
| Returns (a : A)          (* the call returns normally *)
| Throws (e : exception)   (* a C++ exception leaves the call *)
| Aborts                   (* a failed [assert] *)
| Undefined                (* an access outside a buffer *)
| Unfinished.              (* the loop is still running when the fuel ends *)

Arguments Returns {A} a.
Arguments Throws {A} e.
Arguments Aborts {A}.
Arguments Undefined {A}.
Arguments Unfinished {A}.

Definition bind {A B} (c : run A) (k : A -> run B) : run B :=
  match c with
  | Returns a => k a
  | Throws e => Throws e
  | Aborts => Aborts
  | Undefined => Undefined
  | Unfinished => Unfinished
  end.

Notation "x <- c ;; k" := (bind c (fun x => k))
  (at level 61, c at next level, right associativity).
Notation "' p <- c ;; k" := (bind c (fun x => let 'p := x in k))
  (at level 61, p pattern, c at next level, right associativity).

(* ================================================================== *)
(** ** zlib *)

Module zlib.

(** *** CRC-32 (the [crc32] of zlib) *)

Definition crc_poly : Z := 0xEDB88320.

Definition crc_shift (c : Z) : Z :=
  if Z.testbit c 0 then Z.lxor (Z.shiftr c 1) crc_poly else Z.shiftr c 1.

Definition crc_byte (c : Z) (b : byte) : Z :=
  let c0 := Z.lxor c (Z_of_byte b) in
  crc_shift (crc_shift (crc_shift (crc_shift
  (crc_shift (crc_shift (crc_shift (crc_shift c0))))))).

(** [crc32 crc buf] is [crc32(crc, buf, len)] with [buf] holding exactly
    the [len] bytes; [crc32(0L, Z_NULL, 0)] is [0]. *)
Definition crc32 (crc : Z) (buf : bytes) : Z :=
  Z.lxor (fold_left crc_byte buf (Z.lxor crc 0xFFFFFFFF)) 0xFFFFFFFF.

(** *** Return codes and flush modes of zlib.h *)

Inductive ret_code :=
| Z_OK | Z_STREAM_END | Z_NEED_DICT
| Z_ERRNO | Z_STREAM_ERROR | Z_DATA_ERROR | Z_MEM_ERROR | Z_BUF_ERROR
| Z_VERSION_ERROR.

Inductive flush_mode := Z_NO_FLUSH | Z_FINISH.

Definition ret_code_eqb (a b : ret_code) : bool :=
  match a, b with
  | Z_OK, Z_OK | Z_STREAM_END, Z_STREAM_END | Z_NEED_DICT, Z_NEED_DICT
  | Z_ERRNO, Z_ERRNO | Z_STREAM_ERROR, Z_STREAM_ERROR
  | Z_DATA_ERROR, Z_DATA_ERROR | Z_MEM_ERROR, Z_MEM_ERROR
  | Z_BUF_ERROR, Z_BUF_ERROR | Z_VERSION_ERROR, Z_VERSION_ERROR => true
  | _, _ => false
  end.

(** *** The compression engine

    Modelled from the spec: zlib's [deflate]/[inflate] are not part of the
    repository; the spec treats them as "a black-box byte-stream transform
    with a known chunk-oriented API".

    - [inflate st input avail_out] is one call of [inflate(&strm,
      Z_NO_FLUSH)] with [input] in [next_in[0..avail_in)] and [avail_out]
      bytes of room: it gives the return code, the next state and the bytes
      stored at [next_out].
    - [deflate_input st input flush] is what the calls of [deflate(&strm,
      flush)] made for one input buffer deliver in total; the caller
      receives it one output buffer at a time (see [output_buffers]). *)
Class Codec : Type := {
  deflate_state : Type;
  inflate_state : Type;
  deflateInit : ret_code * deflate_state;
  deflate_input : deflate_state -> bytes -> flush_mode ->
                  ret_code * deflate_state * bytes;
  inflateInit : ret_code * inflate_state;
  inflate : inflate_state -> bytes -> nat -> ret_code * inflate_state * bytes
}.

(** The codes on which [zlibExtractFile] gives up. *)
Definition is_inflate_error (rc : ret_code) : bool :=
  match rc with
  | Z_NEED_DICT | Z_DATA_ERROR | Z_MEM_ERROR => true
  | _ => false
  end.

Section Runs.
Context {codec : Codec}.

(** The compressed stream of a whole compression: [inputs] are given with
    [Z_NO_FLUSH], then [last] with [Z_FINISH]; the engine must not report
    [Z_STREAM_ERROR] on the way and must end with [Z_STREAM_END]. *)
Fixpoint deflate_run (st : deflate_state) (inputs : list bytes)
  (last : bytes) : option bytes :=
  match inputs with
  | [] =>
      let '(ret, _, out) := deflate_input st last Z_FINISH in
      if ret_code_eqb ret Z_STREAM_END then Some out else None
  | i :: rest =>
      let '(ret, st', out) := deflate_input st i Z_NO_FLUSH in
      if ret_code_eqb ret Z_STREAM_ERROR then None
      else option_map (app out) (deflate_run st' rest last)
  end.

(** The output of a whole decompression: one call of [inflate] for each
    of [chunks], the room shrinking by what has been produced; the last
    call, and only the last, must report [Z_STREAM_END], and no call an
    error. *)
Fixpoint inflate_run (st : inflate_state) (chunks : list bytes)
  (avail_out : nat) : option bytes :=
  match chunks with
  | [] => None
  | c :: rest =>
      let '(rc, st', out) := inflate st c avail_out in
      if (avail_out <? List.length out)%nat then None
      else
        match rest with
        | [] => if ret_code_eqb rc Z_STREAM_END then Some out else None
        | _ :: _ =>
            if ret_code_eqb rc Z_STREAM_END || is_inflate_error rc then None
            else option_map (app out)
                   (inflate_run st' rest (avail_out - List.length out))
        end
  end.

End Runs.

(** What is assumed of the engine: both initialisations succeed; a
    compression fed with non-empty buffers and finished gives a non-empty
    stream; and that stream, cut into non-empty buffers in any way,
    decompresses to the input when there is room for all of it. *)
Class CodecLaws (codec : Codec) : Prop := {
  deflateInit_ok : fst deflateInit = Z_OK;
  inflateInit_ok : fst inflateInit = Z_OK;
  deflate_total : forall inputs last,
    Forall (fun c => c <> []) inputs ->
    exists z, deflate_run (snd deflateInit) inputs last = Some z /\ z <> [];
  inflate_deflate : forall inputs last z chunks,
    Forall (fun c => c <> []) inputs ->
    deflate_run (snd deflateInit) inputs last = Some z ->
    concat chunks = z ->
    Forall (fun c => c <> []) chunks ->
    inflate_run (snd inflateInit) chunks
                (List.length (concat inputs ++ last))
    = Some (concat inputs ++ last)
}.

End zlib.

(* ================================================================== *)
(** ** Constants of dat-archive.h *)

Definition DATFILESIGNATURE : bytes := [xb1; x44; x41; x54].
Definition DATFILEVERSION : Z := 1.
Definition CHUNKSIZE : Z := 262144.
Global Opaque CHUNKSIZE.

(* ================================================================== *)
(** ** The file system and the streams *)

Definition path := string.
Bind Scope string_scope with path.

(** Regular files only: a path either names a file or nothing. *)
Definition filesystem := path -> option bytes.

Definition exists_ (fs : filesystem) (p : path) : bool :=
  match fs p with Some _ => true | None => false end.

Definition is_directory (fs : filesystem) (p : path) : bool := false.

Definition fs_store (fs : filesystem) (p : path) (d : bytes) : filesystem :=
  fun q => if String.eqb q p then Some d else fs q.

(** *** Input streams ([std::ifstream], and [std::fstream] opened for
    reading) *)

Record ifstream := mk_ifstream {
  contents : bytes;        (* the file behind the stream *)
  gpos : nat;              (* the get position *)
  is_open : bool;
  eofbit : bool;
  failbit : bool;
  badbit : bool;
  fault : option nat       (* offset at which the device fails, if any *)
}.

Definition closed_ifstream : ifstream :=
  mk_ifstream [] 0 false false false false None.

Definition ifs_setstate (s : ifstream) (e f b : bool) : ifstream :=
  mk_ifstream (contents s) (gpos s) (is_open s)
              (eofbit s || e) (failbit s || f) (badbit s || b) (fault s).

Definition ifs_clear (s : ifstream) : ifstream :=
  mk_ifstream (contents s) (gpos s) (is_open s) false false false (fault s).

Definition ifs_set_gpos (s : ifstream) (p : nat) : ifstream :=
  mk_ifstream (contents s) p (is_open s)
              (eofbit s) (failbit s) (badbit s) (fault s).

Definition good (s : ifstream) : bool :=
  negb (eofbit s || failbit s || badbit s).
Definition fail (s : ifstream) : bool := failbit s || badbit s.
Definition bad (s : ifstream) : bool := badbit s.
Definition eof (s : ifstream) : bool := eofbit s.

(** [open]: fails when the stream is already open or the file is missing;
    [at_end] is [std::ios::ate]. *)
Definition ifs_open (s : ifstream) (file : option bytes) (at_end : bool)
  : ifstream :=
  if is_open s then ifs_setstate s false true false
  else match file with
       | None => ifs_setstate s false true false
       | Some d =>
           mk_ifstream d (if at_end then List.length d else 0%nat) true
                       false false false None
       end.

Definition ifs_close (s : ifstream) : ifstream :=
  if is_open s
  then mk_ifstream [] 0 false (eofbit s) (failbit s) (badbit s) (fault s)
  else ifs_setstate s false true false.

(** The bytes from the get position to the end of the file. *)
Definition ifs_rest (s : ifstream) : bytes :=
  if is_open s then skipn (gpos s) (contents s) else [].

Definition ifs_faulty (s : ifstream) (k : nat) : bool :=
  match fault s with
  | Some f => (gpos s <=? f)%nat && (f <? gpos s + k)%nat
  | None => false
  end.

(** [read(buf, n)]: the stream after the call and the bytes stored in
    [buf] ([gcount()] is their number).  A stream that is not [good()]
    stores nothing and sets [failbit]; a short read sets [eofbit] and
    [failbit]; a device error sets [badbit]. *)
Definition ifs_read (s : ifstream) (n : Z) : ifstream * bytes :=
  if negb (good s) then (ifs_setstate s false true false, [])
  else
    let got := firstn (Z.to_nat n) (ifs_rest s) in
    if ifs_faulty s (List.length got)
    then (ifs_setstate s false false true, [])
    else
      let s1 := ifs_set_gpos s (gpos s + List.length got) in
      if Z.of_nat (List.length got) =? n then (s1, got)
      else (ifs_setstate s1 true true false, got).

(** [seekg(pos)]: clears [eofbit]; does nothing more on a failed stream;
    fails on a closed stream and on a negative position. *)
Definition ifs_seekg (s : ifstream) (pos : Z) : ifstream :=
  let s1 := mk_ifstream (contents s) (gpos s) (is_open s)
                        false (failbit s) (badbit s) (fault s) in
  if fail s1 then s1
  else if negb (is_open s1) || (pos <? 0)
       then ifs_setstate s1 false true false
       else ifs_set_gpos s1 (Z.to_nat pos).

(** [tellg()]: [-1] on a failed stream. *)
Definition ifs_tellg (s : ifstream) : Z :=
  if fail s then -1 else Z.of_nat (gpos s).

(** *** Output streams ([std::fstream] opened for writing)

    The device never fails on a write; the stream fails on a seek to a
    negative position, and a failed stream writes nothing. *)

Record fstream := mk_fstream {
  data : bytes;            (* the file behind the stream *)
  ppos : nat;              (* the put position *)
  ofailbit : bool
}.

(** The file after [bs] has been written at offset [pos]; a gap between
    the end of the file and [pos] reads as zero bytes, and writing nothing
    leaves the file as it is. *)
Definition write_at (d : bytes) (pos : nat) (bs : bytes) : bytes :=
  match bs with
  | [] => d
  | _ :: _ =>
      firstn pos d ++ repeat x00 (pos - List.length d) ++ bs
             ++ skipn (pos + List.length bs) d
  end.

Definition fs_write (s : fstream) (bs : bytes) : fstream :=
  if ofailbit s then s
  else mk_fstream (write_at (data s) (ppos s) bs)
                  (ppos s + List.length bs) false.

Definition fs_tellp (s : fstream) : Z :=
  if ofailbit s then -1 else Z.of_nat (ppos s).

Definition fs_seekp (s : fstream) (pos : Z) : fstream :=
  if ofailbit s then s
  else if pos <? 0 then mk_fstream (data s) (ppos s) true
       else mk_fstream (data s) (Z.to_nat pos) false.

(* ================================================================== *)
(** ** [std::map] as an association list in key order *)

Section StdMap.
Variables (K V : Type) (ltb : K -> K -> bool).

(** Two keys are equivalent when neither is ordered before the other. *)
Definition equivb (a b : K) : bool := negb (ltb a b) && negb (ltb b a).

Fixpoint map_find (k : K) (m : list (K * V)) : option V :=
  match m with
  | [] => None
  | (k', v) :: m' => if equivb k k' then Some v else map_find k m'
  end.

Definition map_count (k : K) (m : list (K * V)) : nat :=
  List.length (filter (fun kv => equivb k (fst kv)) m).

(** [emplace]: inserts in key order, and does nothing when an equivalent
    key is present. *)
Fixpoint map_emplace (k : K) (v : V) (m : list (K * V)) : list (K * V) :=
  match m with
  | [] => [(k, v)]
  | (k', v') :: m' =>
      if ltb k k' then (k, v) :: m
      else if ltb k' k then (k', v') :: map_emplace k v m'
           else m
  end.

Definition map_erase (k : K) (m : list (K * V)) : list (K * V) :=
  filter (fun kv => negb (equivb k (fst kv))) m.

End StdMap.

(* ================================================================== *)
(** ** Flags and TableEntry *)

(** [enum class CompressionMethod : uint8_t]: an object of the type holds
    an 8-bit code, and [loadTable] stores whatever byte the file has. *)
Definition CompressionMethod := byte.
Definition NONE : CompressionMethod := x00.
Definition ZLIB : CompressionMethod := x01.

Record Flags := mk_Flags { encrypted : bool }.

(** [Flags::Flags(uint8_t)] *)
Definition Flags_of_uint8 (flagByte : Z) : Flags :=
  mk_Flags (Z.testbit flagByte 0).

(** [Flags::operator uint8_t] *)
Definition uint8_of_Flags (f : Flags) : Z :=
  Z.land 1 (if encrypted f then 1 else 0).

Record TableEntry := mk_TableEntry {
  name : string;
  compressionMethod : CompressionMethod;
  fileFlags : Flags;
  crc32 : Z;               (* uint32_t *)
  originalSize : Z;        (* uint64_t *)
  dataStart : Z;           (* uint64_t *)
  dataEnd : Z              (* uint64_t *)
}.

(** [TableEntry() = default] *)
Definition TableEntry_default : TableEntry :=
  mk_TableEntry EmptyString NONE (mk_Flags false) 0 0 0 0.

(** [TableEntry(name, cMethod, flags)] *)
Definition TableEntry_new (n : string) (cMethod : CompressionMethod)
  (flags : Flags) : TableEntry :=
  mk_TableEntry n cMethod flags 0 0 0 0.

Definition set_name (e : TableEntry) (n : string) : TableEntry :=
  mk_TableEntry n (compressionMethod e) (fileFlags e) (crc32 e)
                (originalSize e) (dataStart e) (dataEnd e).
Definition set_compressionMethod (e : TableEntry) (m : CompressionMethod) :=
  mk_TableEntry (name e) m (fileFlags e) (crc32 e)
                (originalSize e) (dataStart e) (dataEnd e).
Definition set_fileFlags (e : TableEntry) (f : Flags) :=
  mk_TableEntry (name e) (compressionMethod e) f (crc32 e)
                (originalSize e) (dataStart e) (dataEnd e).
Definition set_crc32 (e : TableEntry) (c : Z) :=
  mk_TableEntry (name e) (compressionMethod e) (fileFlags e) c
                (originalSize e) (dataStart e) (dataEnd e).
Definition set_originalSize (e : TableEntry) (n : Z) :=
  mk_TableEntry (name e) (compressionMethod e) (fileFlags e) (crc32 e)
                n (dataStart e) (dataEnd e).
Definition set_dataStart (e : TableEntry) (n : Z) :=
  mk_TableEntry (name e) (compressionMethod e) (fileFlags e) (crc32 e)
                (originalSize e) n (dataEnd e).
Definition set_dataEnd (e : TableEntry) (n : Z) :=
  mk_TableEntry (name e) (compressionMethod e) (fileFlags e) (crc32 e)
                (originalSize e) (dataStart e) n.

Definition sizeInArchive (e : TableEntry) : Z :=
  uint64 (dataEnd e - dataStart e).

(* ================================================================== *)
(** ** DatArchiveReader *)

Record DatArchiveReader := mk_Reader {
  archivePath : path;
  archive : ifstream;
  archiveVersion : Z;      (* uint8_t *)
  tableOffset : Z;         (* uint64_t *)
  entries : list (string * TableEntry);   (* std::map, ordered by name *)
  openFlag : bool;
  badFlag : bool
}.

Definition set_archive (r : DatArchiveReader) (a : ifstream) :=
  mk_Reader (archivePath r) a (archiveVersion r) (tableOffset r)
            (entries r) (openFlag r) (badFlag r).
Definition set_badFlag (r : DatArchiveReader) (b : bool) :=
  mk_Reader (archivePath r) (archive r) (archiveVersion r) (tableOffset r)
            (entries r) (openFlag r) b.
Definition set_openFlag (r : DatArchiveReader) (b : bool) :=
  mk_Reader (archivePath r) (archive r) (archiveVersion r) (tableOffset r)
            (entries r) b (badFlag r).
Definition set_entries (r : DatArchiveReader)
  (es : list (string * TableEntry)) :=
  mk_Reader (archivePath r) (archive r) (archiveVersion r) (tableOffset r)
            es (openFlag r) (badFlag r).
Definition set_archiveVersion (r : DatArchiveReader) (v : Z) :=
  mk_Reader (archivePath r) (archive r) v (tableOffset r)
            (entries r) (openFlag r) (badFlag r).
Definition set_tableOffset (r : DatArchiveReader) (t : Z) :=
  mk_Reader (archivePath r) (archive r) (archiveVersion r) t
            (entries r) (openFlag r) (badFlag r).

(** [strncmp]: compares at most [n] characters and stops after a NUL. *)
Fixpoint strncmp (s1 s2 : bytes) (n : nat) : Z :=
  match n, s1, s2 with
  | S n', c1 :: t1, c2 :: t2 =>
      if negb (Byte.eqb c1 c2) then Z_of_byte c1 - Z_of_byte c2
      else if Byte.eqb c1 x00 then 0
           else strncmp t1 t2 n'
  | _, _, _ => 0
  end.

Definition validateArchive (signature : bytes) (version : Z) : bool :=
  (strncmp DATFILESIGNATURE signature 4 =? 0) && (DATFILEVERSION =? version).

(** Reading [width] bytes over the object representation of an unsigned
    integer that holds [old]. *)
Definition read_uint (s : ifstream) (width : nat) (old : Z) : ifstream * Z :=
  let '(s', got) := ifs_read s (Z.of_nat width) in
  (s', le_decode (overlay got (le_encode width old))).

(** The body of the [while] of [loadTable], once for each turn. *)
Fixpoint loadTable_loop (fuel : nat) (a : ifstream)
  (es : list (string * TableEntry)) : ifstream * list (string * TableEntry) :=
  match fuel with
  | O => (a, es)
  | S fuel' =>
      let '(a, got) := ifs_read a 2 in
      if fail a then (a, es)
      else
        let nameLength := le_decode got in
        let entry := TableEntry_default in
        (* Name *)
        let '(a, got) := ifs_read a nameLength in
        let entry :=
          set_name entry
            (string_of_list_byte
               (overlay got (repeat x00 (Z.to_nat nameLength)))) in
        (* Compression Method *)
        let '(a, got) := ifs_read a 1 in
        let entry :=
          set_compressionMethod entry
            (hd (compressionMethod entry) got) in
        (* Flags *)
        let '(a, got) := ifs_read a 1 in
        let entry :=
          set_fileFlags entry
            (match got with
             | b :: _ => mk_Flags (negb (Byte.eqb b x00))
             | [] => fileFlags entry
             end) in
        (* crc32 *)
        let '(a, v) := read_uint a 4 (crc32 entry) in
        let entry := set_crc32 entry v in
        (* Original Size *)
        let '(a, v) := read_uint a 8 (originalSize entry) in
        let entry := set_originalSize entry v in
        (* Data Start *)
        let '(a, v) := read_uint a 8 (dataStart entry) in
        let entry := set_dataStart entry v in
        (* Data End *)
        let '(a, v) := read_uint a 8 (dataEnd entry) in
        let entry := set_dataEnd entry v in
        loadTable_loop fuel' a (map_emplace String.ltb (name entry) entry es)
  end.

Definition loadTable (r : DatArchiveReader) : DatArchiveReader * bool :=
  let a := ifs_seekg (archive r) (int64 (tableOffset r)) in
  if fail a || (tableOffset r =? 0) then (set_archive r a, false)
  else
    let '(a, es) := loadTable_loop (S (List.length (contents a))) a (entries r) in
    let a := ifs_seekg (ifs_clear a) 0 in
    (set_entries (set_archive r a) es, true).

(** Storing [bs] at offset [off] of a buffer; nothing when it does not fit. *)
Definition buffer_store (buf : bytes) (off : nat) (bs : bytes)
  : option bytes :=
  if (off + List.length bs <=? List.length buf)%nat
  then Some (firstn off buf ++ bs ++ skipn (off + List.length bs) buf)
  else None.

Definition extractFile (r : DatArchiveReader) (entry : TableEntry)
  (buffer : bytes) (validateCrc : bool)
  : run (DatArchiveReader * bytes * Z) :=
  let a := ifs_seekg (archive r) (int64 (dataStart entry)) in
  let '(a, got) := ifs_read a (int64 (sizeInArchive entry)) in
  match buffer_store buffer 0 got with
  | None => Undefined
  | Some buffer =>
      let len := Z.to_nat (uint32 (sizeInArchive entry)) in
      if (List.length buffer <? len)%nat then Undefined
      else
        let calculatedCrc := uint32 (zlib.crc32 0 (firstn len buffer)) in
        let r := set_archive r a in
        if validateCrc && negb (calculatedCrc =? crc32 entry)
        then Returns (r, buffer, 0)
        else Returns (r, buffer, uint64 (uint64 (ifs_tellg a) - dataStart entry))
  end.

Section WithCodec.
Context {codec : zlib.Codec}.

(** The state of the [do ... while] of [zlibExtractFile]. *)
Record inflate_loop_state := mk_loop_state {
  ls_reader : DatArchiveReader;
  ls_in : bytes;               (* the initialised part of [in] *)
  ls_crc : Z;                  (* calculatedCrc *)
  ls_strm : zlib.inflate_state;
  ls_avail_out : nat;          (* strm.avail_out *)
  ls_next_out : nat;           (* strm.next_out - buffer *)
  ls_buffer : bytes
}.

(** The [return] statement through which [zlibExtractFile] is left. *)
Inductive return_site :=
| after_inflateInit                       (* rc != Z_OK *)
| after_read                              (* archive.bad() *)
| after_inflate (rc : zlib.ret_code)      (* the cases of the switch *)
| after_loop (calculatedCrc : Z).         (* rc == Z_STREAM_END *)

Fixpoint zlibExtractFile_loop (fuel : nat) (entry : TableEntry)
  (validateCrc : bool) (st : inflate_loop_state)
  : run (return_site * (DatArchiveReader * bytes * Z)) :=
  match fuel with
  | O => Unfinished
  | S fuel' =>
      let r := ls_reader st in
      let pos := uint64 (ifs_tellg (archive r)) in
      let availableBytes :=
        if uint64 (pos + CHUNKSIZE) <? dataEnd entry
        then CHUNKSIZE
        else uint64 (dataEnd entry - pos) in
      let '(a, got) := ifs_read (archive r) (int64 availableBytes) in
      if CHUNKSIZE <? Z.of_nat (List.length got) then Undefined
      else
        let in_ := overlay got (ls_in st) in
        let avail_in := Z.to_nat (uint32 availableBytes) in
        let r := set_archive r a in
        if bad a
        then Returns (after_read, (set_badFlag r true, ls_buffer st, 0))
        else if (List.length in_ <? avail_in)%nat then Undefined
        else
          let input := firstn avail_in in_ in
          let calculatedCrc := uint32 (zlib.crc32 (ls_crc st) input) in
          let '(rc, strm, produced) :=
            zlib.inflate (ls_strm st) input (ls_avail_out st) in
          if (ls_avail_out st <? List.length produced)%nat then Undefined
          else
            match buffer_store (ls_buffer st) (ls_next_out st) produced with
            | None => Undefined
            | Some buffer =>
                match rc with
                | zlib.Z_NEED_DICT | zlib.Z_DATA_ERROR | zlib.Z_MEM_ERROR =>
                    Returns (after_inflate rc,
                             (set_badFlag r false, buffer, 0))
                | zlib.Z_STREAM_END =>
                    if validateCrc && negb (calculatedCrc =? crc32 entry)
                    then Returns (after_loop calculatedCrc, (r, buffer, 0))
                    else Returns (after_loop calculatedCrc,
                                  (r, buffer, originalSize entry))
                | _ =>
                    zlibExtractFile_loop fuel' entry validateCrc
                      (mk_loop_state r in_ calculatedCrc strm
                         (ls_avail_out st - List.length produced)
                         (ls_next_out st + List.length produced)
                         buffer)
                end
            end
  end.

(** [zlibExtractFile] together with the [return] it is left through. *)
Definition zlibExtractFile_from (fuel : nat) (r : DatArchiveReader)
  (entry : TableEntry) (buffer : bytes) (validateCrc : bool)
  : run (return_site * (DatArchiveReader * bytes * Z)) :=
  let a := ifs_seekg (archive r) (int64 (dataStart entry)) in
  let r := set_archive r a in
  let '(rc, strm) := zlib.inflateInit in
  if negb (zlib.ret_code_eqb rc zlib.Z_OK)
  then Returns (after_inflateInit, (r, buffer, 0))
  else
    zlibExtractFile_loop fuel entry validateCrc
      (mk_loop_state r [] 0 strm
         (Z.to_nat (uint32 (originalSize entry))) 0 buffer).

Definition zlibExtractFile (fuel : nat) (r : DatArchiveReader)
  (entry : TableEntry) (buffer : bytes) (validateCrc : bool)
  : run (DatArchiveReader * bytes * Z) :=
  x <- zlibExtractFile_from fuel r entry buffer validateCrc ;;
  Returns (snd x).

Definition getFileFromEntry (fuel : nat) (r : DatArchiveReader)
  (entry : TableEntry) (buffer : bytes) (validateCrc : bool)
  : run (DatArchiveReader * bytes * Z) :=
  if Byte.eqb (compressionMethod entry) NONE
  then extractFile r entry buffer validateCrc
  else if Byte.eqb (compressionMethod entry) ZLIB
       then zlibExtractFile fuel r entry buffer validateCrc
       else Returns (r, buffer, 0).

End WithCodec.

Definition DatArchiveReader_initial (archiveFilePath : path)
  : DatArchiveReader :=
  mk_Reader archiveFilePath closed_ifstream 0 0 [] false false.

Definition openArchive (r : DatArchiveReader) (fs : filesystem)
  (archiveFilePath : path) : DatArchiveReader * bool :=
  let r := set_badFlag (set_openFlag r false) false in
  if negb (exists_ fs archiveFilePath) && negb (is_directory fs archiveFilePath)
  then (r, false)
  else
    let a := ifs_open (archive r) (fs archiveFilePath) false in
    let r := set_archive r a in
    if fail a then (r, false)
    else
      let r := set_openFlag r true in
      (* char signature[4]: indeterminate, taken as four NUL bytes *)
      let '(a, got) := ifs_read a 4 in
      let signature := overlay got (repeat x00 4) in
      let '(a, v) := read_uint a 1 (archiveVersion r) in
      let r := set_archiveVersion (set_archive r a) v in
      if negb (validateArchive signature (archiveVersion r))
      then (set_badFlag r true, false)
      else
        let '(a, t) := read_uint a 8 (tableOffset r) in
        loadTable (set_tableOffset (set_archive r a) t).

(** The constructor: a fresh reader on which [openArchive] has run. *)
Definition DatArchiveReader_new (fs : filesystem) (archiveFilePath : path)
  : DatArchiveReader :=
  fst (openArchive (DatArchiveReader_initial archiveFilePath) fs
         archiveFilePath).

Definition closeArchive (r : DatArchiveReader) : DatArchiveReader * bool :=
  if openFlag r then (r, false)
  else (set_openFlag (set_archive r (ifs_close (archive r))) false, true).

Definition size (r : DatArchiveReader) : nat := List.length (entries r).

Definition contains (r : DatArchiveReader) (n : string) : bool :=
  (0 <? map_count String.ltb n (entries r))%nat.

Definition listFiles (r : DatArchiveReader) : list string :=
  map fst (entries r).

Definition getTable (r : DatArchiveReader) : list TableEntry :=
  map snd (entries r).

Definition getTableOffset (r : DatArchiveReader) : Z := tableOffset r.
Definition isOpen (r : DatArchiveReader) : bool := openFlag r.
Definition isBad (r : DatArchiveReader) : bool := badFlag r.

(** [entries.at(name)] throws [std::out_of_range] for a missing key. *)
Definition getFileEntry (r : DatArchiveReader) (n : string)
  : run TableEntry :=
  if negb (openFlag r) || badFlag r then Returns TableEntry_default
  else match map_find String.ltb n (entries r) with
       | Some e => Returns e
       | None => Throws std_out_of_range
       end.

Section ReaderWithCodec.
Context {codec : zlib.Codec}.

Definition getFile (fuel : nat) (r : DatArchiveReader) (n : string)
  : run (DatArchiveReader * bytes) :=
  if negb (openFlag r) || badFlag r then Returns (r, [])
  else if negb (contains r n) then Returns (r, [])
  else
    entry <- getFileEntry r n ;;
    let dest := repeat x00 (Z.to_nat (originalSize entry)) in
    '(r, dest, written) <- getFileFromEntry fuel r entry dest true ;;
    if negb (written =? 0) then Returns (r, dest) else Returns (r, []).

Definition getFileRaw (fuel : nat) (r : DatArchiveReader) (n : string)
  (buffer : bytes) : run (DatArchiveReader * bytes * Z) :=
  if negb (openFlag r) || badFlag r then Returns (r, buffer, 0)
  else if negb (contains r n) then Returns (r, buffer, 0)
  else
    entry <- getFileEntry r n ;;
    getFileFromEntry fuel r entry buffer true.

End ReaderWithCodec.

(* ================================================================== *)
(** ** DatArchiveWriter *)

Record DatArchiveWriter := mk_Writer {
  fileEntries : list (path * TableEntry)   (* std::map, ordered by path *)
}.

Definition entry_bytes (entry : TableEntry) : bytes :=
  let nameSize := uint16 (Z.of_nat (String.length (name entry))) in
  le_encode 2 nameSize
  ++ firstn (Z.to_nat nameSize) (list_byte_of_string (name entry))
  ++ [compressionMethod entry]
  ++ [byte_of_Z (uint8_of_Flags (fileFlags entry))]
  ++ le_encode 4 (crc32 entry)
  ++ le_encode 8 (originalSize entry)
  ++ le_encode 8 (dataStart entry)
  ++ le_encode 8 (dataEnd entry).

Definition writeTableEntry (archiveFile : fstream) (entry : TableEntry)
  : fstream :=
  (* Name *)
  let nameSize := uint16 (Z.of_nat (String.length (name entry))) in
  let archiveFile := fs_write archiveFile (le_encode 2 nameSize) in
  let archiveFile :=
    fs_write archiveFile
      (firstn (Z.to_nat nameSize) (list_byte_of_string (name entry))) in
  (* Compression method *)
  let archiveFile := fs_write archiveFile [compressionMethod entry] in
  (* flags *)
  let flagBuffer := uint8_of_Flags (fileFlags entry) in
  let archiveFile := fs_write archiveFile [byte_of_Z flagBuffer] in
  (* crc32 *)
  let archiveFile := fs_write archiveFile (le_encode 4 (crc32 entry)) in
  (* Original Size *)
  let archiveFile := fs_write archiveFile (le_encode 8 (originalSize entry)) in
  (* dataStart *)
  let archiveFile := fs_write archiveFile (le_encode 8 (dataStart entry)) in
  (* dataEnd *)
  fs_write archiveFile (le_encode 8 (dataEnd entry)).

(** [writeTable(archiveFile, entries)] *)
Definition writeTable_entries (archiveFile : fstream)
  (es : list TableEntry) : fstream :=
  fold_left writeTableEntry es archiveFile.

(** [writeTable(archiveFile)] *)
Definition writeTable (w : DatArchiveWriter) (archiveFile : fstream)
  : fstream :=
  fold_left (fun f pe => writeTableEntry f (snd pe)) (fileEntries w)
            archiveFile.

Definition writeHeader (archiveFile : fstream) : fstream :=
  let archiveFile := fs_write archiveFile DATFILESIGNATURE in
  let archiveFile := fs_write archiveFile (le_encode 1 DATFILEVERSION) in
  (* Placeholder until we work out where the tableOffset will actually be *)
  fs_write archiveFile (repeat x00 8).

Definition writeTableLocation (archiveFile : fstream) : fstream :=
  let tableOffset := uint64 (fs_tellp archiveFile) in
  (* Write table offset *)
  let archiveFile := fs_seekp archiveFile 5 in
  let archiveFile := fs_write archiveFile (le_encode 8 tableOffset) in
  fs_seekp archiveFile (int64 tableOffset).

(** The [while (!file.eof())] of [writeFileToArchive]; [have] is
    [gcount()], at most [CHUNKSIZE], and the first [have] bytes of the
    buffer are the bytes just read. *)
Fixpoint writeFileToArchive_loop (fuel : nat) (file : ifstream)
  (archiveFile : fstream) (crc : Z) : run (ifstream * fstream * Z) :=
  if eof file then Returns (file, archiveFile, crc)
  else
    match fuel with
    | O => Unfinished
    | S fuel' =>
        (* Fill buffer *)
        let '(file, got) := ifs_read file (CHUNKSIZE) in
        (* Generate CRC *)
        let crc := uint32 (zlib.crc32 crc got) in
        (* Write to file *)
        let archiveFile := fs_write archiveFile got in
        writeFileToArchive_loop fuel' file archiveFile crc
    end.

Definition writeFileToArchive (file : ifstream) (archiveFile : fstream)
  (entry : TableEntry) : run (ifstream * fstream * TableEntry) :=
  (* CRC32 *)
  let entry := set_crc32 entry (zlib.crc32 0 []) in
  '(file, archiveFile, crc) <-
    writeFileToArchive_loop (S (List.length (contents file))) file
      archiveFile (crc32 entry) ;;
  Returns (file, archiveFile, set_crc32 entry crc).

(** The successive contents of [out] in the inner [do ... while] of
    [zlibCompressFileToArchive]: full buffers as long as
    [strm.avail_out == 0], then one that is not full. *)
Fixpoint output_buffers (fuel : nat) (pending : bytes) : list bytes :=
  match fuel with
  | O => []
  | S fuel' =>
      let out := firstn (Z.to_nat CHUNKSIZE) pending in
      if Z.of_nat (List.length out) =? CHUNKSIZE
      then out :: output_buffers fuel' (skipn (Z.to_nat CHUNKSIZE) pending)
      else [out]
  end.

Section WriterWithCodec.
Context {codec : zlib.Codec}.

(** The inner [do ... while]: [false] when the write of the entry is given
    up. *)
Fixpoint write_output (ret : zlib.ret_code) (outs : list bytes)
  (archiveFile : fstream) (crc : Z) : bool * fstream * Z :=
  match outs with
  | [] => (true, archiveFile, crc)
  | out :: outs' =>
      (* Handle if state gets clobbered *)
      if zlib.ret_code_eqb ret zlib.Z_STREAM_ERROR
      then (false, archiveFile, crc)
      else
        let have := Z.of_nat (List.length out) in
        let crc := uint32 (zlib.crc32 crc out) in
        let diff := uint32 (fs_tellp archiveFile) in
        let archiveFile := fs_write archiveFile out in
        let diff := uint32 (uint32 (fs_tellp archiveFile) - diff) in
        if negb (diff =? have) || ofailbit archiveFile
        then (false, archiveFile, crc)
        else write_output ret outs' archiveFile crc
  end.

Fixpoint zlibCompress_loop (fuel : nat) (strm : zlib.deflate_state)
  (file : ifstream) (archiveFile : fstream) (crc : Z)
  : run (ifstream * fstream * Z * zlib.ret_code) :=
  match fuel with
  | O => Unfinished
  | S fuel' =>
      let '(file, got) := ifs_read file (CHUNKSIZE) in
      (* If there was a failure reading the file, cleanup and exit early *)
      if bad file then Returns (file, archiveFile, crc, zlib.Z_ERRNO)
      else
        let flush := if eof file then zlib.Z_FINISH else zlib.Z_NO_FLUSH in
        let '(ret, strm, pending) := zlib.deflate_input strm got flush in
        let '(ok, archiveFile, crc) :=
          write_output ret
            (output_buffers (S (List.length pending)) pending)
            archiveFile crc in
        if negb ok then Returns (file, archiveFile, crc, ret)
        else
          (* assert(strm.avail_in == 0): the whole input has been taken *)
          match flush with
          | zlib.Z_NO_FLUSH =>
              zlibCompress_loop fuel' strm file archiveFile crc
          | zlib.Z_FINISH =>
              (* assert(ret == Z_STREAM_END) *)
              if zlib.ret_code_eqb ret zlib.Z_STREAM_END
              then Returns (file, archiveFile, crc, zlib.Z_OK)
              else Aborts
          end
  end.

(** [entry.crc32] is not reset here: the checksum continues from the value
    the entry holds. *)
Definition zlibCompressFileToArchive (file : ifstream)
  (archiveFile : fstream) (entry : TableEntry)
  : run (ifstream * fstream * TableEntry * zlib.ret_code) :=
  let '(ret, strm) := zlib.deflateInit in
  if negb (zlib.ret_code_eqb ret zlib.Z_OK)
  then Returns (file, archiveFile, entry, ret)
  else
    '(file, archiveFile, crc, ret) <-
      zlibCompress_loop (S (List.length (contents file))) strm file
        archiveFile (crc32 entry) ;;
    Returns (file, archiveFile, set_crc32 entry crc, ret).

(** One turn of the [for] of [writeFiles]; sources are read from [fs]. *)
Definition writeFiles_step (fs : filesystem) (p : path) (entry : TableEntry)
  (archiveFile : fstream) : run (TableEntry * fstream) :=
  (* Open file *)
  let theFile := ifs_open closed_ifstream (fs p) true in
  if fail theFile then Returns (entry, archiveFile)
  else
    let entry := set_dataStart entry (uint64 (fs_tellp archiveFile)) in
    let entry := set_originalSize entry (uint64 (ifs_tellg theFile)) in
    let theFile := ifs_seekg theFile 0 in
    '(archiveFile, entry) <-
      (if Byte.eqb (compressionMethod entry) NONE then
         '(_, archiveFile, entry) <-
           writeFileToArchive theFile archiveFile entry ;;
         Returns (archiveFile, entry)
       else if Byte.eqb (compressionMethod entry) ZLIB then
         '(_, archiveFile, entry, _) <-
           zlibCompressFileToArchive theFile archiveFile entry ;;
         Returns (archiveFile, entry)
       else Returns (archiveFile, entry)) ;;
    Returns (set_dataEnd entry (uint64 (fs_tellp archiveFile)), archiveFile).

Fixpoint writeFiles_loop (fs : filesystem) (l : list (path * TableEntry))
  (archiveFile : fstream) : run (list (path * TableEntry) * fstream) :=
  match l with
  | [] => Returns ([], archiveFile)
  | (p, entry) :: rest =>
      '(entry, archiveFile) <- writeFiles_step fs p entry archiveFile ;;
      '(rest, archiveFile) <- writeFiles_loop fs rest archiveFile ;;
      Returns ((p, entry) :: rest, archiveFile)
  end.

Definition writeFiles (w : DatArchiveWriter) (fs : filesystem)
  (archiveFile : fstream) : run (DatArchiveWriter * fstream) :=
  '(l, archiveFile) <- writeFiles_loop fs (fileEntries w) archiveFile ;;
  Returns (mk_Writer l, archiveFile).

End WriterWithCodec.

(** [std::sort] with the comparison [a.dataStart < b.dataStart]; the order
    of entries with equal [dataStart] is left open by [std::sort], and
    this insertion sort fixes one. *)
Fixpoint sort_insert (e : TableEntry) (l : list TableEntry)
  : list TableEntry :=
  match l with
  | [] => [e]
  | x :: l' =>
      if dataStart e <? dataStart x then e :: l else x :: sort_insert e l'
  end.

Definition sort_by_dataStart (l : list TableEntry) : list TableEntry :=
  fold_right sort_insert [] l.

Section Writer.
Context {codec : zlib.Codec}.

(** The order of [std::filesystem::path], which compares paths element
    by element. *)
Variable path_ltb : path -> path -> bool.

Definition queueFile (w : DatArchiveWriter) (fs : filesystem) (p : path)
  (entry : TableEntry) : DatArchiveWriter * bool :=
  if (0 <? map_count path_ltb p (fileEntries w))%nat then (w, false)
  else if negb (exists_ fs p) then (w, false)
       else (mk_Writer (map_emplace path_ltb p entry (fileEntries w)), true).

Definition removeFile (w : DatArchiveWriter) (p : path)
  : DatArchiveWriter * bool :=
  (mk_Writer (map_erase path_ltb p (fileEntries w)),
   (0 <? map_count path_ltb p (fileEntries w))%nat).

Definition clear (w : DatArchiveWriter) : DatArchiveWriter := mk_Writer [].

(** [create_directories] has no effect in a file system of plain files.
    The destination is created empty when the stream is opened, and gets
    its bytes when the stream is closed. *)
Definition writeArchive_stream (w : DatArchiveWriter) (fs : filesystem)
  (destination : path) : run (DatArchiveWriter * filesystem * bool) :=
  let fs := fs_store fs destination [] in
  let stream := mk_fstream [] 0 false in
  let stream := writeHeader stream in
  '(w, stream) <- writeFiles w fs stream ;;
  let stream := writeTableLocation stream in
  let stream := writeTable w stream in
  Returns (w, fs_store fs destination (data stream), true).

Definition writeArchive (w : DatArchiveWriter) (fs : filesystem)
  (destination : path) (overwrite : bool)
  : run (DatArchiveWriter * filesystem * bool) :=
  if exists_ fs destination then
    if overwrite
    then writeArchive_stream (fst (removeFile w destination)) fs destination
    else Returns (w, fs, false)
  else writeArchive_stream w fs destination.

Definition appendArchive (w : DatArchiveWriter) (fs : filesystem)
  (destinationArchive : path)
  : run (DatArchiveWriter * filesystem * bool) :=
  if negb (exists_ fs destinationArchive) then Returns (w, fs, false)
  else
    (* Read information from the archive *)
    let archive := DatArchiveReader_new fs destinationArchive in
    if isBad archive || negb (isOpen archive) then Returns (w, fs, false)
    else
      let tableOffset := getTableOffset archive in
      let entries := getTable archive in
      let archive := fst (closeArchive archive) in
      (* Sort the entries to maintain their order *)
      let entries := sort_by_dataStart entries in
      (* Filter queued files to skip any that are already in the archive *)
      let w :=
        mk_Writer
          (filter
             (fun pe =>
                (List.length
                   (filter (fun entry => String.eqb (name entry)
                                                    (name (snd pe)))
                           entries) =? 0)%nat)
             (fileEntries w)) in
      let stream :=
        mk_fstream (match fs destinationArchive with
                    | Some d => d
                    | None => []
                    end) 0 false in
      let stream := fs_seekp stream (int64 tableOffset) in
      '(w, stream) <- writeFiles w fs stream ;;
      let stream := writeTableLocation stream in
      (* Write old table then new table *)
      let stream := writeTable_entries stream entries in
      let stream := writeTable w stream in
      Returns (w, fs_store fs destinationArchive (data stream), true).

End Writer.

(* ================================================================== *)
(** ** examples/test/main.cpp *)

Section Example.
Context {codec : zlib.Codec}.
Variable path_ltb : path -> path -> bool.

(** [main], up to the vector [test] that it prints, with the file system
    it leaves; [fuel] bounds the loop of the extraction.  [Flags()] is
    the flag set with nothing set. *)
Definition main (fuel : nat) (fs : filesystem) : run (filesystem * bytes) :=
  let writer := mk_Writer [] in
  let writer :=
    fst (queueFile path_ltb writer fs "/home/jacob/Downloads/zpipe.c"
           (TableEntry_new "Test" ZLIB (mk_Flags false))) in
  let writer :=
    fst (queueFile path_ltb writer fs "/home/jacob/Downloads/document.pdf"
           (TableEntry_new "Test2" ZLIB (mk_Flags false))) in
  let writer :=
    fst (queueFile path_ltb writer fs
           "/home/jacob/Downloads/ssh-key-2023-06-06.key.pub"
           (TableEntry_new "Test3/testing" NONE (mk_Flags false))) in
  '(writer, fs, _) <- writeArchive path_ltb writer fs "./dest.dat" true ;;
  let writer := clear writer in
  let writer :=
    fst (queueFile path_ltb writer fs "/home/jacob/Downloads/module(1).json"
           (TableEntry_new "Testing" ZLIB (mk_Flags false))) in
  '(writer, fs, _) <- appendArchive writer fs "./dest.dat" ;;
  let reader := DatArchiveReader_new fs "./dest.dat" in
  '(reader, test) <- getFile fuel reader "Test" ;;
  Returns (fs, test).

End Example.

(* ================================================================== *)
(** ** Vocabulary of the specifications *)

(** An open stream with no state bit set and a sound device. *)
Definition mk_clean (c : bytes) (p : nat) : ifstream :=
  mk_ifstream c p true false false false None.

(** What a stream can still deliver: nothing once it is not [good]. *)
Definition lrest (s : ifstream) : bytes :=
  if good s then ifs_rest s else [].

(** Streams on which every read behaves as a read of [lrest]. *)
Definition sane (s : ifstream) : Prop :=
  fault s = None /\ is_open s = true /\ (good s = true \/ fail s = true).

(** The put position is at the end of [pre], and [post] follows it. *)
Definition at_pos (s : fstream) (pre post : bytes) : Prop :=
  data s = pre ++ post /\ ppos s = List.length pre /\ ofailbit s = false.


(** The index [loadTable] builds from the records [es], starting from
    [idx]. *)
Definition emplace_all (es : list TableEntry)
  (idx : list (string * TableEntry)) : list (string * TableEntry) :=
  fold_left (fun m e => map_emplace String.ltb (name e) e m) es idx.

(** The entry one turn of the loop of [loadTable] builds from the bytes
    [body] that follow a name length [L], whatever their number: a field
    that is cut short keeps the rest of its initial value. *)
Definition decode_entry (L : Z) (body : bytes) : TableEntry :=
  let n := Z.to_nat L in
  let b1 := skipn n body in
  let b2 := skipn 1 b1 in
  let b3 := skipn 1 b2 in
  let b4 := skipn 4 b3 in
  let b5 := skipn 8 b4 in
  let b6 := skipn 8 b5 in
  mk_TableEntry
    (string_of_list_byte (overlay (firstn n body) (repeat x00 n)))
    (hd NONE (firstn 1 b1))
    (match firstn 1 b2 with
     | b :: _ => mk_Flags (negb (Byte.eqb b x00))
     | [] => mk_Flags false
     end)
    (le_decode (overlay (firstn 4 b3) (le_encode 4 0)))
    (le_decode (overlay (firstn 8 b4) (le_encode 8 0)))
    (le_decode (overlay (firstn 8 b5) (le_encode 8 0)))
    (le_decode (overlay (firstn 8 b6) (le_encode 8 0))).

(** The loop of [loadTable] as a function of the bytes from the table
    offset to the end of the file. *)
Fixpoint parse_table (fuel : nat) (l : bytes)
  (idx : list (string * TableEntry)) : list (string * TableEntry) :=
  match fuel with
  | O => idx
  | S fuel' =>
      if (List.length l <? 2)%nat then idx
      else
        let L := le_decode (firstn 2 l) in
        let body := skipn 2 l in
        let e := decode_entry L body in
        parse_table fuel'
          (skipn 8 (skipn 8 (skipn 8 (skipn 4 (skipn 1 (skipn 1
             (skipn (Z.to_nat L) body)))))))
          (map_emplace String.ltb (name e) e idx)
  end.

(** The values the fields of an entry can hold, and a name whose length
    fits the two-byte length of a table record. *)
Definition wf_entry (e : TableEntry) : Prop :=
  Z.of_nat (String.length (name e)) < 2 ^ 16
  /\ 0 <= crc32 e < 2 ^ 32
  /\ 0 <= originalSize e < 2 ^ 64
  /\ 0 <= dataStart e < 2 ^ 64
  /\ 0 <= dataEnd e < 2 ^ 64.

(** The table that [writeTable] writes for [es]. *)
Definition table_bytes (es : list TableEntry) : bytes :=
  concat (map entry_bytes es).

(** The header of an archive whose table is at offset [T]: what
    [writeHeader] and [writeTableLocation] leave in the first 13 bytes. *)
Definition header_bytes (T : Z) : bytes :=
  DATFILESIGNATURE ++ le_encode 1 DATFILEVERSION ++ le_encode 8 T.

(** A reader that has loaded the index [idx] of the archive [d], whose
    table is at offset [T]. *)
Definition loaded_reader (q : path) (d : bytes) (T : Z)
  (idx : list (string * TableEntry)) : DatArchiveReader :=
  mk_Reader q (mk_clean d 0) DATFILEVERSION T idx true false.

(* ------------------------------------------------------------------ *)
(** *** What [writeFiles] writes *)

(** The buffers [zlibCompressFileToArchive] gives to the engine for a
    file: full ones as long as the end of the file is not met, and the
    one, not full and possibly empty, whose read meets it. *)
Fixpoint input_buffers (fuel : nat) (content : bytes) : list bytes * bytes :=
  match fuel with
  | O => ([], content)
  | S fuel' =>
      let got := firstn (Z.to_nat CHUNKSIZE) content in
      if Z.of_nat (List.length got) =? CHUNKSIZE
      then
        let '(full, last) :=
          input_buffers fuel' (skipn (Z.to_nat CHUNKSIZE) content) in
        (got :: full, last)
      else ([], got)
  end.

Section Stored.
Context {codec : zlib.Codec}.

(** The compressed stream of a file, read buffer by buffer. *)
Definition compressed (content : bytes) : option bytes :=
  let '(full, last) := input_buffers (S (List.length content)) content in
  zlib.deflate_run (snd zlib.deflateInit) full last.

(** The payload of a queued entry: nothing when its source is missing. *)
Definition stored (fs : filesystem) (pe : path * TableEntry) : bytes :=
  match fs (fst pe) with
  | None => []
  | Some content =>
      if Byte.eqb (compressionMethod (snd pe)) NONE then content
      else if Byte.eqb (compressionMethod (snd pe)) ZLIB then
             match compressed content with
             | Some z => z
             | None => []
             end
           else []
  end.

(** The entry of a queued file once its payload has been written at
    offset [pos]. *)
Definition written_entry (pos : Z) (fs : filesystem)
  (pe : path * TableEntry) : TableEntry :=
  let e := snd pe in
  match fs (fst pe) with
  | None => e
  | Some content =>
      let e := set_dataStart e (uint64 pos) in
      let e := set_originalSize e (uint64 (Z.of_nat (List.length content))) in
      let e :=
        if Byte.eqb (compressionMethod e) NONE
        then set_crc32 e (zlib.crc32 0 content)
        else if Byte.eqb (compressionMethod e) ZLIB
             then set_crc32 e (zlib.crc32 (crc32 e) (stored fs pe))
             else e in
      set_dataEnd e (uint64 (pos + Z.of_nat (List.length (stored fs pe))))
  end.

Fixpoint written_entries (pos : Z) (fs : filesystem)
  (l : list (path * TableEntry)) : list (path * TableEntry) :=
  match l with
  | [] => []
  | pe :: rest =>
      (fst pe, written_entry pos fs pe)
      :: written_entries (pos + Z.of_nat (List.length (stored fs pe))) fs rest
  end.

Definition payloads (fs : filesystem) (l : list (path * TableEntry))
  : bytes :=
  concat (map (stored fs) l).

End Stored.

(* ------------------------------------------------------------------ *)
(** *** A small engine for the examples

    Every byte [b] of the input becomes [01 b], and [00] ends the stream;
    a tag other than [00] and [01] is a data error. *)

Inductive toy_state := ExpectTag | ExpectByte | Done.

Fixpoint toy_inflate (st : toy_state) (input : bytes) (room : nat)
  : zlib.ret_code * toy_state * bytes :=
  match input with
  | [] => (zlib.Z_OK, st, [])
  | b :: rest =>
      match st with
      | Done => (zlib.Z_STREAM_END, Done, [])
      | ExpectTag =>
          if Byte.eqb b x00 then (zlib.Z_STREAM_END, Done, [])
          else if Byte.eqb b x01 then toy_inflate ExpectByte rest room
               else (zlib.Z_DATA_ERROR, st, [])
      | ExpectByte =>
          match room with
          | O => (zlib.Z_BUF_ERROR, st, [])
          | S room' =>
              let '(rc, st', out) := toy_inflate ExpectTag rest room' in
              (rc, st', b :: out)
          end
      end
  end.

Definition toy_deflate (st : unit) (input : bytes) (flush : zlib.flush_mode)
  : zlib.ret_code * unit * bytes :=
  let body := flat_map (fun b => [x01; b]) input in
  match flush with
  | zlib.Z_NO_FLUSH => (zlib.Z_OK, tt, body)
  | zlib.Z_FINISH => (zlib.Z_STREAM_END, tt, body ++ [x00])
  end.

Definition toy_codec : zlib.Codec := {|
  zlib.deflate_state := unit;
  zlib.inflate_state := toy_state;
  zlib.deflateInit := (zlib.Z_OK, tt);
  zlib.deflate_input := toy_deflate;
  zlib.inflateInit := (zlib.Z_OK, ExpectTag);
  zlib.inflate := toy_inflate
|}.

(** An archive without entries, and a file that stops after the header
    [writeHeader] writes. *)
Definition empty_archive : bytes := header_bytes 13.
Definition header_only : bytes := header_bytes 0.

Definition sample_fs : filesystem :=
  fun p => if String.eqb p "empty.dat" then Some empty_archive
           else if String.eqb p "header.dat" then Some header_only
           else None.

(** A call that no exception leaves. *)
Definition never_throws {A} (c : run A) : Prop := forall e, c <> Throws e.

(** A reader over one corrupt byte, with its bad flag already set, and an
    entry that covers that byte. *)
Definition corrupt_reader : DatArchiveReader :=
  mk_Reader "corrupt.dat" (mk_clean [x05] 0) DATFILEVERSION 0 [] true true.

Definition corrupt_entry : TableEntry :=
  mk_TableEntry "Test" ZLIB (mk_Flags false) 0 0 0 1.

(** An archive whose table is the first four bytes of a record: a name
    length of 4 and the two characters [ab]. *)
Definition truncated_archive : bytes :=
  header_bytes 13 ++ [x04; x00; x61; x62].

(** A file system in which the destination of the archive exists and is
    queued as a source, next to another source. *)
Definition overwrite_fs : filesystem :=
  fun p => if String.eqb p "out.dat" then Some [x01; x02]
           else if String.eqb p "a.txt" then Some [x68; x69]
           else None.

Definition overwrite_writer : DatArchiveWriter :=
  mk_Writer [("a.txt"%string, TableEntry_new "Test" NONE (mk_Flags false));
             ("out.dat"%string, TableEntry_new "Old" NONE (mk_Flags false))].

(** The buffers [zlibExtractFile] reads from the payload [z] of an entry:
    full ones as long as more than a buffer is left before [dataEnd], and
    then the rest. *)
Fixpoint region_buffers (fuel : nat) (z : bytes) : list bytes :=
  match fuel with
  | O => []
  | S fuel' =>
      if CHUNKSIZE <? Z.of_nat (List.length z)
      then firstn (Z.to_nat CHUNKSIZE) z
           :: region_buffers fuel' (skipn (Z.to_nat CHUNKSIZE) z)
      else [z]
  end.

(** The bytes of [d] from offset [lo] up to offset [hi]. *)
Definition window (d : bytes) (lo hi : nat) : bytes :=
  firstn (hi - lo) (skipn lo d).

(** The stream the small engine still expects in state [st] when [c] is
    what remains to be produced. *)
Definition toy_escape (c : bytes) : bytes :=
  flat_map (fun b => [x01; b]) c.

Definition toy_pending (st : toy_state) (c : bytes) : bytes :=
  match st with
  | ExpectTag => toy_escape c ++ [x00]
  | ExpectByte =>
      match c with
      | b :: c' => b :: toy_escape c' ++ [x00]
      | [] => []
      end
  | Done => []
  end.

(** The reader [r] with its stream at offset [p] of the file it has
    open: the state [r] is in after an extraction that ended there. *)
Definition reader_at (r : DatArchiveReader) (p : nat) : DatArchiveReader :=
  set_archive r (mk_clean (contents (archive r)) p).

(** The names a queue gives to its files in the archive. *)
Definition queued_names (l : list (path * TableEntry)) : list string :=
  map (fun pe => name (snd pe)) l.

(** Three sources, one of them empty, and a queue over them. *)
Definition roundtrip_fs : filesystem :=
  fun p => if String.eqb p "a.txt" then Some [x68; x69]
           else if String.eqb p "b.bin" then Some [x00; x01; x02]
           else if String.eqb p "e" then Some []
           else None.

Definition roundtrip_queue : list (path * TableEntry) :=
  [("a.txt"%string, TableEntry_new "Test" NONE (mk_Flags false));
   ("b.bin"%string, TableEntry_new "Test2" ZLIB (mk_Flags false));
   ("e"%string, TableEntry_new "Test3/empty" NONE (mk_Flags true))].

(** What a call gives, the state of the reader left aside. *)
Definition run_map {A B} (f : A -> B) (c : run A) : run B :=
  x <- c ;; Returns (f x).

Definition extracted (x : DatArchiveReader * bytes * Z) : bytes * Z :=
  (snd (fst x), snd x).

(** The queued files [appendArchive] keeps: those whose name no entry of
    [old] has. *)
Definition kept_queue (old : list TableEntry)
  (l : list (path * TableEntry)) : list (path * TableEntry) :=
  filter
    (fun pe =>
       (List.length
          (filter (fun entry => String.eqb (name entry) (name (snd pe)))
                  old) =? 0)%nat)
    l.

(** The entries of [l] named [n]. *)
Definition named (n : string) (l : list TableEntry) : list TableEntry :=
  filter (fun e => String.eqb (name e) n) l.

(** A queued file as a caller makes it: a source other than the archive
    being written, a fresh entry with method NONE or ZLIB and a name
    whose length fits two bytes, and a source of less than [2 ^ 32]
    bytes. *)
Definition fresh_source (fs : filesystem) (destination : path)
  (pe : path * TableEntry) : Prop :=
  fst pe <> destination
  /\ (exists n m f,
        snd pe = TableEntry_new n m f /\ (m = NONE \/ m = ZLIB)
        /\ Z.of_nat (String.length n) < 2 ^ 16)
  /\ (exists content,
        fs (fst pe) = Some content
        /\ Z.of_nat (List.length content) < 2 ^ 32).

(** An archive as the writer leaves it: a header with the offset [T] of
    the table, the payloads [body], and the table of [es], whose names
    differ and whose payloads lie in [body]. *)
Definition well_formed_archive (D : bytes) (T : Z) (body : bytes)
  (es : list TableEntry) : Prop :=
  D = header_bytes T ++ body ++ table_bytes es
  /\ T = 13 + Z.of_nat (List.length body)
  /\ Forall wf_entry es
  /\ NoDup (map name es)
  /\ Forall (fun e => 13 <= dataStart e <= dataEnd e /\ dataEnd e <= T) es.

(** An archive of one uncompressed file of two bytes, and file systems
    in which it is the file [out.dat]. *)
Definition old_entry : TableEntry :=
  mk_TableEntry "Test" NONE (mk_Flags false) (zlib.crc32 0 [x68; x69])
                2 13 15.

Definition old_archive : bytes :=
  header_bytes 15 ++ [x68; x69] ++ table_bytes [old_entry].

Definition append_fs : filesystem :=
  fun p => if String.eqb p "out.dat" then Some old_archive
           else if String.eqb p "b.bin" then Some [x00; x01; x02]
           else if String.eqb p "c.txt" then Some [x63]
           else None.

Definition append_queue : list (path * TableEntry) :=
  [("b.bin"%string, TableEntry_new "Test2" ZLIB (mk_Flags false))].

(** A queue whose first file has the name of the file in the archive. *)
Definition colliding_queue : list (path * TableEntry) :=
  [("b.bin"%string, TableEntry_new "Test" ZLIB (mk_Flags false));
   ("c.txt"%string, TableEntry_new "Other" NONE (mk_Flags false))].

(** A file system whose file [foreign.zip] starts with another
    signature. *)
Definition foreign_fs : filesystem :=
  fun p => if String.eqb p "foreign.zip"
           then Some [x50; x4b; x03; x04; x14; x00]
           else None.

(** Two entries whose fields are not those of any file, only values the
    fields can hold. *)
Definition table_sample : list TableEntry :=
  [mk_TableEntry "b" x07 (mk_Flags true) 4294967295 0 18446744073709551615 3;
   mk_TableEntry "a/c" ZLIB (mk_Flags false) 1 2 3 4].

(** The four files of the example program and their names in the
    archive. *)
Definition example_files : list (path * TableEntry) :=
  [("/home/jacob/Downloads/zpipe.c"%string,
    TableEntry_new "Test" ZLIB (mk_Flags false));
   ("/home/jacob/Downloads/document.pdf"%string,
    TableEntry_new "Test2" ZLIB (mk_Flags false));
   ("/home/jacob/Downloads/ssh-key-2023-06-06.key.pub"%string,
    TableEntry_new "Test3/testing" NONE (mk_Flags false));
   ("/home/jacob/Downloads/module(1).json"%string,
    TableEntry_new "Testing" ZLIB (mk_Flags false))].

(** A file system that holds the four files, each of a few bytes. *)
Definition example_fs : filesystem :=
  fun p =>
    if String.eqb p "/home/jacob/Downloads/zpipe.c" then Some [x2f; x2a]
    else if String.eqb p "/home/jacob/Downloads/document.pdf"
    then Some [x25; x50; x44; x46]
    else if String.eqb p "/home/jacob/Downloads/ssh-key-2023-06-06.key.pub"
    then Some []
    else if String.eqb p "/home/jacob/Downloads/module(1).json"
    then Some [x7b; x7d]
    else None.

(** The name [writeTableEntry] writes for a name [n]: its first bytes,
    as many as the length of [n] taken as a [uint16_t] says. *)
Definition clipped_name (n : string) : string :=
  string_of_list_byte
    (firstn (Z.to_nat (uint16 (Z.of_nat (String.length n))))
            (list_byte_of_string n)).

Definition clip_name (e : TableEntry) : TableEntry :=
  set_name e (clipped_name (name e)).

(** An entry whose name has [2 ^ 16 + 1] bytes. *)
Definition long_named : TableEntry :=
  TableEntry_new (string_of_list_byte (x61 :: repeat x62 (Z.to_nat 65536))) NONE
                 (mk_Flags false).

(** The index of a reader is in order when its names ascend strictly
    and each entry is held under its own name. *)
Definition index_ok (r : DatArchiveReader) : Prop :=
  StronglySorted (fun a b => String.ltb a b = true) (listFiles r)
  /\ Forall (fun kv => name (snd kv) = fst kv) (entries r).

(** A second archive, whose one file is also named [Test], beside the
    first. *)
Definition other_entry : TableEntry :=
  mk_TableEntry "Test" NONE (mk_Flags false) (zlib.crc32 0 [x63]) 1 13 14.

Definition other_archive : bytes :=
  header_bytes 14 ++ [x63] ++ table_bytes [other_entry].

Definition two_archives_fs : filesystem :=
  fun p => if String.eqb p "out.dat" then Some old_archive
           else if String.eqb p "other.dat" then Some other_archive
           else None.

(** A queue whose second source is no longer there. *)
Definition vanished_queue : list (path * TableEntry) :=
  [("a.txt"%string, TableEntry_new "Test" NONE (mk_Flags false));
   ("gone.txt"%string, TableEntry_new "Gone" NONE (mk_Flags false))].

(* ****************************************************************** *)
(** * Part II: its properties *)

Unset Implicit Arguments.

(* ------------------------------------------------------------------ *)
(** Tactics *)

(** Case analysis on what a [match] or an [if] of [H] looks at. *)
Ltac break_match_hyp H :=
  match type of H with
  | context [match ?x with _ => _ end] => destruct x eqn:?
  | context [if ?x then _ else _] => destruct x eqn:?
  end.

Lemma bind_Returns {A B} (c : run A) (k : A -> run B) (b : B) :
  bind c k = Returns b -> exists a, c = Returns a /\ k a = Returns b.
Proof.
  destruct c as [a| | | |]; cbn [bind]; intros H; try discriminate H.
  exists a. auto.
Qed.

(** Splitting a [bind] of [H] that returns. *)
Ltac bind_inv H :=
  let a := fresh "a" in
  let Ha := fresh "Ha" in
  apply bind_Returns in H; destruct H as (a & Ha & H).

(* ------------------------------------------------------------------ *)
(** Basic facts *)

Lemma Z_of_byte_range b : 0 <= Z_of_byte b < 256.
Proof.
  unfold Z_of_byte. pose proof (Byte.to_N_bounded b). lia.
Qed.

Lemma byte_of_Z_of_byte b : byte_of_Z (Z_of_byte b) = b.
Proof.
  unfold byte_of_Z. pose proof (Z_of_byte_range b).
  rewrite Z.mod_small by lia. unfold Z_of_byte.
  rewrite N2Z.id, Byte.of_to_N. reflexivity.
Qed.

Lemma Z_of_byte_of_Z x : Z_of_byte (byte_of_Z x) = x mod 256.
Proof.
  unfold byte_of_Z.
  assert (H : 0 <= x mod 256 < 256) by (apply Z.mod_pos_bound; lia).
  destruct (Byte.of_N (Z.to_N (x mod 256))) as [b|] eqn:E.
  - apply Byte.to_of_N in E. unfold Z_of_byte. rewrite E. lia.
  - apply Byte.of_N_None_iff in E. lia.
Qed.

Lemma length_le_encode n x : List.length (le_encode n x) = n.
Proof. revert x; induction n; simpl; intros; auto. Qed.

Lemma le_decode_range l :
  0 <= le_decode l < 2 ^ (8 * Z.of_nat (List.length l)).
Proof.
  induction l as [|b l IH]; cbn [List.length le_decode].
  - simpl. lia.
  - pose proof (Z_of_byte_range b).
    replace (8 * Z.of_nat (S (List.length l)))
      with (8 + 8 * Z.of_nat (List.length l)) by lia.
    rewrite Z.pow_add_r by lia. change (2 ^ 8) with 256.
    remember (2 ^ (8 * Z.of_nat (List.length l))) as P. lia.
Qed.

Lemma le_decode_encode n x :
  le_decode (le_encode n x) = x mod 2 ^ (8 * Z.of_nat n).
Proof.
  revert x; induction n as [|n IH]; intros x.
  - simpl. rewrite Z.mod_1_r. reflexivity.
  - cbn [le_encode le_decode]. rewrite IH, Z_of_byte_of_Z.
    replace (8 * Z.of_nat (S n)) with (8 + 8 * Z.of_nat n) by lia.
    rewrite Z.pow_add_r by lia. change (2 ^ 8) with 256.
    assert (Hp : 0 < 2 ^ (8 * Z.of_nat n)) by (apply Z.pow_pos_nonneg; lia).
    rewrite (Z.rem_mul_r x 256 (2 ^ (8 * Z.of_nat n))) by lia.
    reflexivity.
Qed.

Lemma le_encode_decode l : le_encode (List.length l) (le_decode l) = l.
Proof.
  induction l as [|b l IH]; cbn [List.length le_decode le_encode]; auto.
  pose proof (Z_of_byte_range b).
  f_equal.
  - rewrite <- (byte_of_Z_of_byte b) at 2.
    unfold byte_of_Z.
    replace ((Z_of_byte b + 256 * le_decode l) mod 256)
      with (Z_of_byte b mod 256); auto.
    rewrite (Z.mul_comm 256), Z.mod_add by lia. reflexivity.
  - replace ((Z_of_byte b + 256 * le_decode l) / 256) with (le_decode l); auto.
    rewrite (Z.mul_comm 256), Z.div_add by lia.
    rewrite Z.div_small by lia. lia.
Qed.

Lemma length_overlay new old :
  (List.length new <= List.length old)%nat ->
  List.length (overlay new old) = List.length old.
Proof.
  intros H. unfold overlay. rewrite length_app, length_skipn. lia.
Qed.

Lemma overlay_full new old :
  List.length new = List.length old -> overlay new old = new.
Proof.
  intros H. unfold overlay. rewrite skipn_all2 by lia. apply app_nil_r.
Qed.

Lemma overlay_nil old : overlay [] old = old.
Proof. reflexivity. Qed.

(* ------------------------------------------------------------------ *)
(** CRC-32 is a running checksum over 32-bit values *)

Lemma lxor_involutive x m : Z.lxor (Z.lxor x m) m = x.
Proof. rewrite Z.lxor_assoc, Z.lxor_nilpotent, Z.lxor_0_r. reflexivity. Qed.

Lemma crc32_app c a b : zlib.crc32 (zlib.crc32 c a) b = zlib.crc32 c (a ++ b).
Proof.
  unfold zlib.crc32. rewrite fold_left_app, lxor_involutive. reflexivity.
Qed.

Lemma crc32_nil c : zlib.crc32 c [] = c.
Proof. unfold zlib.crc32. simpl. apply lxor_involutive. Qed.

Lemma lxor_bound n a b :
  0 < n -> 0 <= a < 2 ^ n -> 0 <= b < 2 ^ n -> 0 <= Z.lxor a b < 2 ^ n.
Proof.
  intros Hn Ha Hb.
  assert (H0 : 0 <= Z.lxor a b) by (apply Z.lxor_nonneg; lia).
  split; auto.
  destruct (Z.eq_dec (Z.lxor a b) 0) as [E|E].
  - rewrite E. apply Z.pow_pos_nonneg; lia.
  - apply Z.log2_lt_pow2; [lia|].
    pose proof (Z.log2_lxor a b (proj1 Ha) (proj1 Hb)) as HL.
    assert (La : Z.log2 a < n).
    { destruct (Z.eq_dec a 0) as [->|]; [simpl; lia|].
      apply Z.log2_lt_pow2; lia. }
    assert (Lb : Z.log2 b < n).
    { destruct (Z.eq_dec b 0) as [->|]; [simpl; lia|].
      apply Z.log2_lt_pow2; lia. }
    lia.
Qed.

Lemma crc_shift_bound c : 0 <= c < 2 ^ 32 -> 0 <= zlib.crc_shift c < 2 ^ 32.
Proof.
  intros H. unfold zlib.crc_shift.
  assert (Hs : 0 <= Z.shiftr c 1 < 2 ^ 32).
  { rewrite Z.shiftr_div_pow2 by lia. change (2 ^ 1) with 2.
    split; [apply Z.div_pos; lia|].
    apply Z.le_lt_trans with c; [|lia].
    apply Z.div_le_upper_bound; lia. }
  destruct (Z.testbit c 0); auto.
  apply lxor_bound; auto; [lia|]. unfold zlib.crc_poly. lia.
Qed.

Lemma crc_byte_bound c b : 0 <= c < 2 ^ 32 -> 0 <= zlib.crc_byte c b < 2 ^ 32.
Proof.
  intros H. unfold zlib.crc_byte. cbv zeta.
  do 8 apply crc_shift_bound.
  apply lxor_bound; auto; [lia|].
  pose proof (Z_of_byte_range b). lia.
Qed.

Lemma crc32_bound c buf : 0 <= c < 2 ^ 32 -> 0 <= zlib.crc32 c buf < 2 ^ 32.
Proof.
  intros H. unfold zlib.crc32.
  assert (G : forall l x, 0 <= x < 2 ^ 32 ->
                          0 <= fold_left zlib.crc_byte l x < 2 ^ 32).
  { induction l as [|y l IH]; intros x Hx; cbn [fold_left]; auto.
    apply IH, crc_byte_bound, Hx. }
  apply lxor_bound; [lia| |lia].
  apply G. apply lxor_bound; lia.
Qed.

Lemma uint32_crc32 c buf : 0 <= c < 2 ^ 32 -> uint32 (zlib.crc32 c buf) = zlib.crc32 c buf.
Proof.
  intros H. unfold uint32, wrap. apply Z.mod_small, crc32_bound, H.
Qed.

(** The check value of the CRC-32 standard: the ASCII digits 1 to 9. *)
Example crc32_check_value :
  zlib.crc32 0 [x31; x32; x33; x34; x35; x36; x37; x38; x39] = 0xCBF43926.
Proof. vm_compute. reflexivity. Qed.

Lemma ret_code_eqb_eq a b : zlib.ret_code_eqb a b = true <-> a = b.
Proof. destruct a, b; cbn; split; intros H; try reflexivity; discriminate H. Qed.


Lemma uint32_crc_step c bs :
  0 <= c < 2 ^ 32 ->
  uint32 (zlib.crc32 c bs) = zlib.crc32 c bs
  /\ 0 <= zlib.crc32 c bs < 2 ^ 32.
Proof.
  intros H. split; [apply uint32_crc32; exact H|apply crc32_bound; exact H].
Qed.


(* ================================================================== *)
(** ** Streams *)

Lemma sane_clean c p : sane (mk_clean c p).
Proof. unfold sane, good; simpl; auto. Qed.

Lemma lrest_clean c p : lrest (mk_clean c p) = skipn p c.
Proof. reflexivity. Qed.

Lemma ifs_read_frame s n :
  contents (fst (ifs_read s n)) = contents s
  /\ is_open (fst (ifs_read s n)) = is_open s
  /\ fault (fst (ifs_read s n)) = fault s.
Proof.
  unfold ifs_read.
  destruct (negb (good s)); simpl; auto.
  destruct (ifs_faulty s _); simpl; auto.
  destruct (_ =? n); simpl; auto.
Qed.

(** The one fact about [read] the table parser and the extraction need. *)
Lemma ifs_read_sane s n :
  sane s -> 0 <= n ->
  snd (ifs_read s n) = firstn (Z.to_nat n) (lrest s)
  /\ lrest (fst (ifs_read s n)) = skipn (Z.to_nat n) (lrest s)
  /\ sane (fst (ifs_read s n))
  /\ fail (fst (ifs_read s n))
     = fail s || (Z.of_nat (List.length (lrest s)) <? n)
  /\ bad (fst (ifs_read s n)) = bad s.
Proof.
  destruct s as [c p o e f b ft]. unfold sane. cbn [fault is_open].
  intros (-> & -> & Hg) Hn.
  unfold ifs_read, lrest, ifs_rest, ifs_faulty, good, fail, bad in *.
  cbn [fault is_open eofbit failbit badbit gpos contents] in *.
  destruct e, f, b; cbn in Hg; try (destruct Hg; discriminate);
    cbn [negb orb fst snd];
    try (rewrite firstn_nil, skipn_nil; cbn; repeat split; auto; fail).
  set (rest := skipn p c).
  set (got := firstn (Z.to_nat n) rest).
  assert (Hlen : List.length got = Nat.min (Z.to_nat n) (List.length rest))
    by (unfold got; apply length_firstn).
  destruct (Z.of_nat (List.length got) =? n) eqn:E.
  - apply Z.eqb_eq in E. cbn.
    repeat split; auto.
    + unfold rest. rewrite skipn_skipn. f_equal. lia.
    + symmetry. apply Z.ltb_ge. lia.
  - apply Z.eqb_neq in E. cbn.
    repeat split; auto.
    + symmetry. apply skipn_all2. lia.
    + symmetry. apply Z.ltb_lt. lia.
Qed.

Lemma ifs_read_clean c p bs post :
  skipn p c = bs ++ post ->
  ifs_read (mk_clean c p) (Z.of_nat (List.length bs))
  = (mk_clean c (p + List.length bs), bs).
Proof.
  intros H. unfold ifs_read, mk_clean, good, ifs_rest, ifs_faulty.
  cbn [eofbit failbit badbit is_open gpos contents fault orb negb].
  rewrite Nat2Z.id, H, firstn_app, firstn_all, Nat.sub_diag. cbn [firstn].
  rewrite app_nil_r, Z.eqb_refl. reflexivity.
Qed.

Lemma skipn_app_length {A} (l1 l2 : list A) :
  skipn (List.length l1) (l1 ++ l2) = l2.
Proof. rewrite skipn_app, Nat.sub_diag, skipn_all. reflexivity. Qed.

Lemma firstn_app_length {A} (l1 l2 : list A) :
  firstn (List.length l1) (l1 ++ l2) = l1.
Proof.
  rewrite firstn_app, Nat.sub_diag, firstn_all. cbn. apply app_nil_r.
Qed.

Lemma skipn_step {A} (c : list A) p bs post :
  skipn p c = bs ++ post -> skipn (p + List.length bs) c = post.
Proof.
  intros H. rewrite Nat.add_comm, <- skipn_skipn, H.
  apply skipn_app_length.
Qed.

Lemma ifs_seekg_clean c p pos :
  0 <= pos -> ifs_seekg (mk_clean c p) pos = mk_clean c (Z.to_nat pos).
Proof.
  intros H. unfold ifs_seekg, mk_clean, fail, ifs_set_gpos. cbn.
  destruct (pos <? 0) eqn:E; [apply Z.ltb_lt in E; lia|]. reflexivity.
Qed.

Lemma ifs_tellg_clean c p : ifs_tellg (mk_clean c p) = Z.of_nat p.
Proof. reflexivity. Qed.

(** After [clear()] and [seekg(0)] an open stream reads from the start. *)
Lemma ifs_rewind s :
  is_open s = true -> fault s = None ->
  ifs_seekg (ifs_clear s) 0 = mk_clean (contents s) 0.
Proof.
  destruct s as [c p o e f b ft]. cbn. intros -> ->. reflexivity.
Qed.

(* ------------------------------------------------------------------ *)
(** *** Output streams *)

Lemma write_at_split pre post bs :
  write_at (pre ++ post) (List.length pre) bs
  = pre ++ bs ++ skipn (List.length bs) post.
Proof.
  unfold write_at. destruct bs as [|b bs]; [reflexivity|].
  rewrite firstn_app_length.
  replace (List.length pre - List.length (pre ++ post))%nat with 0%nat
    by (rewrite length_app; lia).
  cbn [repeat app]. f_equal. f_equal.
  rewrite skipn_app.
  rewrite skipn_all2 by lia. cbn [app].
  do 2 f_equal. lia.
Qed.

Lemma fs_write_at_pos s pre post bs :
  at_pos s pre post ->
  at_pos (fs_write s bs) (pre ++ bs) (skipn (List.length bs) post).
Proof.
  intros (Hd & Hp & Hf). unfold fs_write. rewrite Hf.
  unfold at_pos. cbn. rewrite Hd, Hp, write_at_split, length_app.
  rewrite <- app_assoc. auto.
Qed.

Lemma fs_tellp_at_pos s pre post :
  at_pos s pre post -> fs_tellp s = Z.of_nat (List.length pre).
Proof. intros (_ & Hp & Hf). unfold fs_tellp. rewrite Hf, Hp. auto. Qed.

Lemma fs_write_nil s : fs_write s [] = s.
Proof.
  unfold fs_write. destruct s as [d p f]; cbn. destruct f; auto.
  rewrite Nat.add_0_r. reflexivity.
Qed.


(* ------------------------------------------------------------------ *)
(** *** Reads of a clean stream, and the buffer size *)

Lemma CHUNKSIZE_val : CHUNKSIZE = 262144.
Proof. reflexivity. Qed.

Lemma CHUNKSIZE_pos : 0 < CHUNKSIZE.
Proof. rewrite CHUNKSIZE_val. lia. Qed.

Lemma CHUNKSIZE_small : CHUNKSIZE < 2 ^ 32.
Proof. rewrite CHUNKSIZE_val. lia. Qed.

Lemma ifs_read_clean_full c p n :
  0 <= n -> (Z.to_nat n <= List.length (skipn p c))%nat ->
  ifs_read (mk_clean c p) n
  = (mk_clean c (p + Z.to_nat n), firstn (Z.to_nat n) (skipn p c)).
Proof.
  intros Hn Hl. unfold ifs_read, mk_clean, good, ifs_rest, ifs_faulty.
  cbn [eofbit failbit badbit is_open gpos contents fault orb negb].
  rewrite length_firstn, Nat.min_l by exact Hl.
  replace (Z.of_nat (Z.to_nat n) =? n) with true
    by (symmetry; apply Z.eqb_eq; lia).
  reflexivity.
Qed.

Lemma ifs_read_clean_short c p n :
  (List.length (skipn p c) < Z.to_nat n)%nat ->
  ifs_read (mk_clean c p) n
  = (mk_ifstream c (p + List.length (skipn p c)) true true true false None,
     skipn p c).
Proof.
  intros Hl. unfold ifs_read, mk_clean, good, ifs_rest, ifs_faulty.
  cbn [eofbit failbit badbit is_open gpos contents fault orb negb].
  rewrite firstn_all2 by lia.
  replace (Z.of_nat (List.length (skipn p c)) =? n) with false
    by (symmetry; apply Z.eqb_neq; lia).
  reflexivity.
Qed.

(** Opening a source at its end, as [writeFiles] does, and going back to
    its start. *)
Lemma open_source_ate content :
  ifs_open closed_ifstream (Some content) true
  = mk_clean content (List.length content).
Proof. reflexivity. Qed.

Lemma uint32_diff a b :
  uint32 (uint32 (a + b) - uint32 a) = uint32 b.
Proof.
  unfold uint32, wrap. rewrite <- Zminus_mod. f_equal. lia.
Qed.

(* ================================================================== *)
(** ** [std::map] *)

Section StdMapFacts.
Variables (K V : Type) (ltb : K -> K -> bool).

Lemma equivb_sym a b : equivb ltb a b = equivb ltb b a.
Proof. unfold equivb. apply andb_comm. Qed.

Lemma map_count_find k (m : list (K * V)) :
  (0 <? map_count ltb k m)%nat = false <-> map_find ltb k m = None.
Proof.
  unfold map_count.
  induction m as [|[k' v] m IH]; cbn; [tauto|].
  destruct (equivb ltb k k'); cbn; [|exact IH].
  split; discriminate.
Qed.

Lemma map_count_find_true k (m : list (K * V)) :
  (0 <? map_count ltb k m)%nat = true <-> map_find ltb k m <> None.
Proof.
  pose proof (map_count_find k m) as H.
  destruct (0 <? map_count ltb k m)%nat; split; intros H0; auto.
  - intros E. apply H in E. discriminate.
  - discriminate.
  - exfalso. apply H0. apply H. reflexivity.
Qed.

Lemma map_find_emplace_other k k' v (m : list (K * V)) :
  equivb ltb k k' = false ->
  map_find ltb k (map_emplace ltb k' v m) = map_find ltb k m.
Proof.
  intros Hne. induction m as [|[k2 v2] m IH]; cbn.
  - rewrite Hne. reflexivity.
  - destruct (ltb k' k2) eqn:E1; cbn.
    + rewrite Hne. reflexivity.
    + destruct (ltb k2 k') eqn:E2; cbn; [|reflexivity].
      rewrite IH. reflexivity.
Qed.

Lemma map_find_emplace_new k v (m : list (K * V)) :
  equivb ltb k k = true ->
  map_find ltb k m = None ->
  map_find ltb k (map_emplace ltb k v m) = Some v.
Proof.
  intros Hr. induction m as [|[k2 v2] m IH]; cbn; intros Hn.
  - rewrite Hr. reflexivity.
  - destruct (equivb ltb k k2) eqn:E; [discriminate|].
    destruct (ltb k k2) eqn:E1; cbn.
    + rewrite Hr. reflexivity.
    + destruct (ltb k2 k) eqn:E2; cbn.
      * rewrite E. auto.
      * unfold equivb in E. rewrite E1, E2 in E. discriminate.
Qed.

Lemma map_emplace_perm k v (m : list (K * V)) :
  map_find ltb k m = None ->
  Permutation (map_emplace ltb k v m) ((k, v) :: m).
Proof.
  induction m as [|[k2 v2] m IH]; cbn; intros Hn; auto.
  destruct (equivb ltb k k2) eqn:E; [discriminate|].
  destruct (ltb k k2) eqn:E1; auto.
  destruct (ltb k2 k) eqn:E2.
  - rewrite perm_swap. constructor. auto.
  - unfold equivb in E. rewrite E1, E2 in E. discriminate.
Qed.

Lemma map_erase_absent k (m : list (K * V)) :
  map_find ltb k m = None -> map_erase ltb k m = m.
Proof.
  unfold map_erase. induction m as [|[k2 v2] m IH]; cbn; intros Hn; auto.
  destruct (equivb ltb k k2); [discriminate|]. cbn. f_equal. auto.
Qed.

Lemma map_find_erase k (m : list (K * V)) :
  map_find ltb k (map_erase ltb k m) = None.
Proof.
  unfold map_erase. induction m as [|[k2 v2] m IH]; cbn; auto.
  destruct (equivb ltb k k2) eqn:E; cbn; auto. rewrite E. auto.
Qed.

End StdMapFacts.

(** On [std::string] the equivalence of the order is equality. *)
Lemma string_compare_refl s : String.compare s s = Eq.
Proof.
  pose proof (String.compare_antisym s s) as H.
  destruct (String.compare s s); auto; discriminate.
Qed.

Lemma string_equivb_eq a b : equivb String.ltb a b = true <-> a = b.
Proof.
  unfold equivb, String.ltb. split.
  - intros H. apply String.compare_eq_iff.
    rewrite (String.compare_antisym b a) in H.
    destruct (String.compare a b); cbn in H; auto; discriminate.
  - intros ->. rewrite string_compare_refl. reflexivity.
Qed.

Lemma string_equivb_refl a : equivb String.ltb a a = true.
Proof. apply string_equivb_eq. reflexivity. Qed.

Lemma string_equivb_neq a b : a <> b -> equivb String.ltb a b = false.
Proof.
  intros H. destruct (equivb String.ltb a b) eqn:E; auto.
  apply string_equivb_eq in E. contradiction.
Qed.

Lemma contains_find r n :
  contains r n = true <-> map_find String.ltb n (entries r) <> None.
Proof. unfold contains. apply map_count_find_true. Qed.

Lemma contains_false_find r n :
  contains r n = false <-> map_find String.ltb n (entries r) = None.
Proof. unfold contains. apply map_count_find. Qed.

(** Every pair of the index carries the name of its entry as key when it
    was built by [emplace_all]. *)
Lemma find_emplace_all_other k es idx :
  ~ In k (map name es) ->
  map_find String.ltb k (emplace_all es idx) = map_find String.ltb k idx.
Proof.
  revert idx. induction es as [|e es IH]; cbn; intros idx Hn; auto.
  rewrite IH by tauto.
  apply map_find_emplace_other. apply string_equivb_neq.
  intros ->. tauto.
Qed.

Lemma find_emplace_all e es idx :
  NoDup (map name es) ->
  (forall x, In x es -> map_find String.ltb (name x) idx = None) ->
  In e es ->
  map_find String.ltb (name e) (emplace_all es idx) = Some e.
Proof.
  revert idx. induction es as [|x es IH]; cbn; intros idx Hnd Hidx Hin;
    [tauto|].
  inversion Hnd as [|? ? Hx Hnd']; subst.
  destruct Hin as [->|Hin].
  - rewrite find_emplace_all_other by assumption.
    apply map_find_emplace_new; auto using string_equivb_refl.
  - apply IH; auto.
    intros y Hy. rewrite map_find_emplace_other; auto.
    apply string_equivb_neq. intros E. apply Hx. rewrite <- E.
    apply in_map. assumption.
Qed.

Lemma emplace_all_perm es idx :
  NoDup (map name es) ->
  (forall x, In x es -> map_find String.ltb (name x) idx = None) ->
  Permutation (emplace_all es idx) (map (fun e => (name e, e)) es ++ idx).
Proof.
  revert idx. induction es as [|x es IH]; cbn; intros idx Hnd Hidx; auto.
  inversion Hnd as [|? ? Hx Hnd']; subst.
  rewrite IH; auto.
  - rewrite map_emplace_perm by auto.
    symmetry. apply Permutation_middle.
  - intros y Hy. rewrite map_find_emplace_other; auto.
    apply string_equivb_neq. intros E. apply Hx. rewrite <- E.
    apply in_map. assumption.
Qed.

Lemma emplace_all_app es1 es2 idx :
  emplace_all (es1 ++ es2) idx = emplace_all es2 (emplace_all es1 idx).
Proof. unfold emplace_all. apply fold_left_app. Qed.

(* ================================================================== *)
(** ** The table: what [loadTable] reads *)

Lemma loadTable_loop_frame fuel a es :
  contents (fst (loadTable_loop fuel a es)) = contents a
  /\ is_open (fst (loadTable_loop fuel a es)) = is_open a
  /\ fault (fst (loadTable_loop fuel a es)) = fault a.
Proof.
  revert a es. induction fuel as [|fuel IH]; intros a es; cbn [loadTable_loop].
  - cbn. auto.
  - unfold read_uint.
    repeat match goal with
    | |- context [ifs_read ?s ?n] =>
        let F := fresh "F" in
        pose proof (ifs_read_frame s n) as F;
        destruct (ifs_read s n) as [? ?]; cbn [fst snd] in F;
        destruct F as (? & ? & ?)
    | |- context [if fail ?s then _ else _] => destruct (fail s)
    end; cbn [fst snd].
    + repeat split; congruence.
    + match goal with
      | |- context [loadTable_loop fuel ?s ?e] =>
          destruct (IH s e) as (I1 & I2 & I3)
      end.
      repeat split; congruence.
Qed.

Ltac read_step Hs :=
  match goal with
  | |- context [ifs_read ?s ?n] =>
      let R := fresh "R" in
      let R' := fresh "R" in
      let a := fresh "a" in
      let got := fresh "got" in
      assert (R : 0 <= n) by
        (first [lia | apply le_decode_range]);
      pose proof (@ifs_read_sane s n Hs R) as R';
      destruct (ifs_read s n) as [a got]; cbn [fst snd] in R';
      clear Hs R;
      destruct R' as (-> & ? & Hs & ? & ?)
  end.

Lemma loadTable_loop_parse fuel a es :
  sane a ->
  snd (loadTable_loop fuel a es) = parse_table fuel (lrest a) es.
Proof.
  revert a es. induction fuel as [|fuel IH]; intros a es Hs;
    cbn [loadTable_loop parse_table]; [reflexivity|].
  assert (Hfl : fail a = true -> lrest a = []).
  { intros Hf. unfold lrest. destruct Hs as (_ & _ & [G|G]).
    - unfold good, fail in *. destruct (eofbit a), (failbit a), (badbit a);
        cbn in *; discriminate.
    - unfold good, fail in *. destruct (eofbit a), (failbit a), (badbit a);
        cbn in *; auto; discriminate. }
  read_step Hs.
  match goal with H : fail a0 = _ |- _ => rewrite H end.
  destruct (fail a) eqn:Hfa; cbn [orb].
  - rewrite (Hfl eq_refl). cbn. reflexivity.
  - destruct (Z.of_nat (List.length (lrest a)) <? 2) eqn:E.
    + apply Z.ltb_lt in E.
      replace (List.length (lrest a) <? 2)%nat with true
        by (symmetry; apply Nat.ltb_lt; lia).
      reflexivity.
    + apply Z.ltb_ge in E.
      replace (List.length (lrest a) <? 2)%nat with false
        by (symmetry; apply Nat.ltb_ge; lia).
      change (Z.to_nat 2) with 2%nat in *.
      read_step Hs.
      read_step Hs.
      read_step Hs.
      unfold read_uint.
      read_step Hs.
      read_step Hs.
      read_step Hs.
      read_step Hs.
      cbn [fst snd].
      rewrite IH by assumption.
      repeat match goal with H : lrest _ = _ |- _ => rewrite H; clear H end.
      reflexivity.
Qed.

Lemma firstn_app_exact {A} k (a b : list A) :
  List.length a = k -> firstn k (a ++ b) = a.
Proof. intros <-. apply firstn_app_length. Qed.

Lemma skipn_app_exact {A} k (a b : list A) :
  List.length a = k -> skipn k (a ++ b) = b.
Proof. intros <-. apply skipn_app_length. Qed.

Lemma length_list_byte_of_string s :
  List.length (list_byte_of_string s) = String.length s.
Proof.
  unfold list_byte_of_string. rewrite length_map.
  induction s; cbn; auto.
Qed.

Lemma uint_small w x : 0 <= x < 2 ^ w -> wrap w x = x.
Proof. intros H. unfold wrap. apply Z.mod_small. assumption. Qed.

Lemma uint64_small x : 0 <= x < 2 ^ 64 -> uint64 x = x.
Proof. apply uint_small. Qed.

Lemma uint32_small x : 0 <= x < 2 ^ 32 -> uint32 x = x.
Proof. apply uint_small. Qed.

Lemma le_decode_overlay_full n x :
  le_decode (overlay (le_encode n x) (le_encode n 0))
  = x mod 2 ^ (8 * Z.of_nat n).
Proof.
  rewrite overlay_full by (rewrite !length_le_encode; reflexivity).
  apply le_decode_encode.
Qed.

Lemma flags_byte_roundtrip f :
  mk_Flags (negb (Byte.eqb (byte_of_Z (uint8_of_Flags f)) x00)) = f.
Proof. destruct f as [[|]]; reflexivity. Qed.

Lemma entry_bytes_wf e :
  wf_entry e ->
  entry_bytes e
  = le_encode 2 (Z.of_nat (String.length (name e)))
    ++ list_byte_of_string (name e)
    ++ [compressionMethod e]
    ++ [byte_of_Z (uint8_of_Flags (fileFlags e))]
    ++ le_encode 4 (crc32 e)
    ++ le_encode 8 (originalSize e)
    ++ le_encode 8 (dataStart e)
    ++ le_encode 8 (dataEnd e).
Proof.
  intros (Hn & _). unfold entry_bytes.
  rewrite (uint_small 16) by lia.
  rewrite Nat2Z.id.
  rewrite firstn_all2 by (rewrite length_list_byte_of_string; lia).
  reflexivity.
Qed.

Lemma length_entry_bytes e :
  wf_entry e ->
  List.length (entry_bytes e) = (String.length (name e) + 32)%nat.
Proof.
  intros H. rewrite entry_bytes_wf by assumption.
  repeat rewrite length_app. repeat rewrite length_le_encode.
  rewrite length_list_byte_of_string. cbn. lia.
Qed.

Lemma decode_entry_full e more :
  wf_entry e ->
  decode_entry (Z.of_nat (String.length (name e)))
    (list_byte_of_string (name e)
     ++ [compressionMethod e]
     ++ [byte_of_Z (uint8_of_Flags (fileFlags e))]
     ++ le_encode 4 (crc32 e)
     ++ le_encode 8 (originalSize e)
     ++ le_encode 8 (dataStart e)
     ++ le_encode 8 (dataEnd e) ++ more) = e.
Proof.
  intros (Hn & Hc & Ho & Hs & He).
  unfold decode_entry. rewrite Nat2Z.id. cbv zeta.
  rewrite (skipn_app_exact _ _ _ (length_list_byte_of_string (name e))).
  rewrite (firstn_app_exact _ _ _ (length_list_byte_of_string (name e))).
  rewrite overlay_full
    by (rewrite repeat_length, length_list_byte_of_string; reflexivity).
  rewrite string_of_list_byte_of_string.
  rewrite (firstn_app_exact 1 [compressionMethod e] _ eq_refl).
  rewrite (skipn_app_exact 1 [compressionMethod e] _ eq_refl).
  rewrite (firstn_app_exact 1 [_] _ eq_refl).
  rewrite (skipn_app_exact 1 [_] _ eq_refl).
  cbn [hd].
  rewrite flags_byte_roundtrip.
  repeat (rewrite firstn_app_exact by apply length_le_encode).
  repeat (rewrite skipn_app_exact by apply length_le_encode;
          rewrite firstn_app_exact by apply length_le_encode).
  rewrite !le_decode_overlay_full.
  change (8 * Z.of_nat 4) with 32. change (8 * Z.of_nat 8) with 64.
  rewrite !Z.mod_small by assumption.
  destruct e; reflexivity.
Qed.

Lemma parse_table_entry fuel e more idx :
  wf_entry e ->
  parse_table (S fuel) (entry_bytes e ++ more) idx
  = parse_table fuel more (map_emplace String.ltb (name e) e idx).
Proof.
  intros H. pose proof H as (Hn & _).
  rewrite entry_bytes_wf by assumption.
  cbn [parse_table].
  replace (List.length _ <? 2)%nat with false.
  2:{ symmetry. apply Nat.ltb_ge. rewrite <- app_assoc, length_app, length_le_encode. lia. }
  rewrite <- app_assoc.
  rewrite (firstn_app_exact _ _ _ (length_le_encode 2 _)).
  rewrite (skipn_app_exact _ _ _ (length_le_encode 2 _)).
  rewrite le_decode_encode. change (8 * Z.of_nat 2) with 16.
  rewrite Z.mod_small by lia.
  repeat rewrite <- app_assoc.
  rewrite decode_entry_full by assumption.
  rewrite Nat2Z.id.
  rewrite (skipn_app_exact _ _ _ (length_list_byte_of_string (name e))).
  rewrite (skipn_app_exact 1 [compressionMethod e] _ eq_refl).
  rewrite (skipn_app_exact 1 [_] _ eq_refl).
  repeat (rewrite skipn_app_exact by apply length_le_encode).
  reflexivity.
Qed.

Lemma parse_table_entries fuel es more idx :
  Forall wf_entry es ->
  parse_table (List.length es + fuel) (table_bytes es ++ more) idx
  = parse_table fuel more (emplace_all es idx).
Proof.
  revert idx. induction es as [|e es IH]; intros idx Hwf; cbn [List.length].
  - reflexivity.
  - inversion Hwf; subst. unfold table_bytes. cbn [map concat].
    rewrite <- app_assoc. cbn [Nat.add].
    rewrite parse_table_entry by assumption.
    fold (table_bytes es). rewrite IH by assumption. reflexivity.
Qed.

Lemma parse_table_short fuel l idx :
  (List.length l < 2)%nat -> parse_table fuel l idx = idx.
Proof.
  intros H. destruct fuel; cbn [parse_table]; auto.
  replace (List.length l <? 2)%nat with true
    by (symmetry; apply Nat.ltb_lt; lia).
  reflexivity.
Qed.

Lemma length_table_bytes es :
  Forall wf_entry es ->
  (32 * List.length es <= List.length (table_bytes es))%nat.
Proof.
  induction 1 as [|e es He Hes IH]; [cbn; lia|].
  unfold table_bytes in *. cbn [map concat List.length].
  rewrite length_app.
  rewrite length_entry_bytes by assumption. lia.
Qed.

(** The whole of a well-formed table is read, with the fuel [loadTable]
    provides. *)
Lemma parse_table_exact fuel es idx :
  Forall wf_entry es ->
  (List.length es < fuel)%nat ->
  parse_table fuel (table_bytes es) idx = emplace_all es idx.
Proof.
  intros Hwf Hf.
  replace fuel with (List.length es + (fuel - List.length es))%nat by lia.
  rewrite <- (app_nil_r (table_bytes es)).
  rewrite parse_table_entries by assumption.
  apply parse_table_short. cbn. lia.
Qed.

(* ================================================================== *)
(** ** Opening an archive *)

Lemma length_header_bytes T : List.length (header_bytes T) = 13%nat.
Proof.
  unfold header_bytes. rewrite !length_app, !length_le_encode. reflexivity.
Qed.

Lemma int64_small x : 0 <= x < 2 ^ 63 -> int64 x = x.
Proof.
  intros H. unfold int64, uint64, wrap. rewrite Z.mod_small by lia.
  destruct (x <? 2 ^ 63) eqn:E; auto. apply Z.ltb_ge in E. lia.
Qed.

Lemma loadTable_clean q d p v T idx o b :
  0 < T < 2 ^ 63 ->
  loadTable (mk_Reader q (mk_clean d p) v T idx o b)
  = (mk_Reader q (mk_clean d 0) v T
       (parse_table (S (List.length d)) (skipn (Z.to_nat T) d) idx)
       o b, true).
Proof.
  intros HT. unfold loadTable. cbn [archive tableOffset entries].
  rewrite int64_small by lia.
  rewrite ifs_seekg_clean by lia.
  replace (T =? 0) with false by (symmetry; apply Z.eqb_neq; lia).
  cbn [fail mk_clean failbit badbit orb contents].
  pose proof (loadTable_loop_frame (S (List.length d))
                (mk_clean d (Z.to_nat T)) idx) as (F1 & F2 & F3).
  pose proof (loadTable_loop_parse (S (List.length d))
                (mk_clean d (Z.to_nat T)) idx (sane_clean _ _)) as P.
  destruct (loadTable_loop (S (List.length d)) (mk_clean d (Z.to_nat T)) idx)
    as [a es].
  cbn [fst snd] in *. subst es.
  rewrite ifs_rewind by assumption. rewrite F1. reflexivity.
Qed.

(** Opening a file that starts with a valid header. *)
Lemma openArchive_header fs p q d T rest :
  fs p = Some d ->
  d = header_bytes T ++ rest ->
  0 < T < 2 ^ 63 ->
  openArchive (DatArchiveReader_initial q) fs p
  = (loaded_reader q d T
       (parse_table (S (List.length d)) (skipn (Z.to_nat T) d) []), true).
Proof.
  intros Hfs Hd HT. unfold openArchive, exists_. rewrite Hfs.
  cbn [negb andb]. unfold DatArchiveReader_initial.
  cbn [set_openFlag set_badFlag set_archive archive archivePath
       archiveVersion tableOffset entries openFlag badFlag].
  unfold ifs_open. cbn [closed_ifstream is_open].
  change (mk_ifstream d 0 true false false false None) with (mk_clean d 0).
  cbn [fail mk_clean failbit badbit orb].
  assert (S0 : skipn 0 d = DATFILESIGNATURE
                 ++ le_encode 1 DATFILEVERSION ++ le_encode 8 T ++ rest).
  { cbn [skipn]. rewrite Hd. unfold header_bytes.
    repeat rewrite <- app_assoc. reflexivity. }
  change 4 with (Z.of_nat (List.length DATFILESIGNATURE)).
  rewrite (ifs_read_clean _ _ _ _ S0).
  apply skipn_step in S0.
  unfold read_uint.
  change (Z.of_nat 1) with (Z.of_nat (List.length (le_encode 1 DATFILEVERSION))).
  rewrite (ifs_read_clean _ _ _ _ S0).
  apply skipn_step in S0.
  cbn [set_openFlag set_badFlag set_archive set_archiveVersion archive
       archivePath archiveVersion tableOffset entries openFlag badFlag].
  replace (le_decode (overlay (le_encode 1 DATFILEVERSION) (le_encode 1 0)))
    with DATFILEVERSION by reflexivity.
  replace (validateArchive _ _) with true by reflexivity.
  cbn [negb].
  replace (Z.of_nat 8) with (Z.of_nat (List.length (le_encode 8 T)))
    by (rewrite length_le_encode; reflexivity).
  rewrite (ifs_read_clean _ _ _ _ S0).
  rewrite overlay_full by (rewrite !length_le_encode; reflexivity).
  rewrite le_decode_encode. change (8 * Z.of_nat 8) with 64.
  rewrite Z.mod_small by lia.
  unfold set_tableOffset, set_archive, set_archiveVersion, set_openFlag,
    set_badFlag.
  cbn [archive archivePath archiveVersion tableOffset entries openFlag
       badFlag].
  rewrite loadTable_clean by assumption.
  reflexivity.
Qed.

(* ================================================================== *)
(** ** Extraction *)

Lemma buffer_store_fits buf off bs :
  (off + List.length bs <= List.length buf)%nat ->
  buffer_store buf off bs
  = Some (firstn off buf ++ bs ++ skipn (off + List.length bs) buf).
Proof.
  intros H. unfold buffer_store.
  replace (off + List.length bs <=? List.length buf)%nat with true
    by (symmetry; apply Nat.leb_le; exact H).
  reflexivity.
Qed.

Lemma window_read d lo hi p n :
  (lo <= p)%nat -> (p + n <= hi)%nat -> (hi <= List.length d)%nat ->
  firstn n (skipn p d) = firstn n (skipn (p - lo) (window d lo hi))
  /\ (n <= List.length (skipn p d))%nat.
Proof.
  intros H1 H2 H3. unfold window. split.
  - rewrite skipn_firstn_comm, firstn_firstn, skipn_skipn.
    replace (p - lo + lo)%nat with p by lia.
    rewrite Nat.min_l by lia. reflexivity.
  - rewrite length_skipn. lia.
Qed.

(** An uncompressed entry whose payload lies in the file. *)
Lemma extractFile_region r d p0 entry buffer v pre payload post :
  archive r = mk_clean d p0 ->
  d = pre ++ payload ++ post ->
  dataStart entry = Z.of_nat (List.length pre) ->
  dataEnd entry = Z.of_nat (List.length pre + List.length payload) ->
  dataEnd entry < 2 ^ 63 ->
  Z.of_nat (List.length payload) < 2 ^ 32 ->
  (List.length payload <= List.length buffer)%nat ->
  extractFile r entry buffer v
  = Returns
      (set_archive r (mk_clean d (List.length pre + List.length payload)),
       payload ++ skipn (List.length payload) buffer,
       if v && negb (zlib.crc32 0 payload =? crc32 entry) then 0
       else Z.of_nat (List.length payload)).
Proof.
  intros Ha Hd Hs He Hb Hp Hbuf. unfold extractFile, sizeInArchive.
  rewrite Ha, Hs, He.
  replace (Z.of_nat (List.length pre + List.length payload)
           - Z.of_nat (List.length pre))
    with (Z.of_nat (List.length payload)) by lia.
  rewrite (uint_small 64) by lia.
  rewrite !int64_small by lia.
  rewrite ifs_seekg_clean by lia. rewrite Nat2Z.id.
  assert (Hsk : skipn (List.length pre) d = payload ++ post)
    by (rewrite Hd; apply skipn_app_length).
  rewrite (ifs_read_clean _ _ _ _ Hsk).
  rewrite buffer_store_fits by (cbn; lia).
  cbn [firstn app Nat.add].
  rewrite (uint_small 32) by lia. rewrite Nat2Z.id.
  replace (List.length (payload ++ skipn (List.length payload) buffer)
           <? List.length payload)%nat with false.
  2:{ symmetry. apply Nat.ltb_ge. rewrite length_app. lia. }
  rewrite firstn_app_length.
  rewrite (uint32_crc32 0 payload) by lia.
  rewrite ifs_tellg_clean.
  replace (uint64 (Z.of_nat (List.length pre + List.length payload))
           - Z.of_nat (List.length pre))
    with (Z.of_nat (List.length payload))
    by (rewrite (uint_small 64) by lia; lia).
  rewrite (uint_small 64) by lia.
  destruct (v && negb (zlib.crc32 0 payload =? crc32 entry)); reflexivity.
Qed.

Lemma region_buffers_nonempty fuel z :
  (0 < fuel)%nat -> region_buffers fuel z <> [].
Proof.
  intros H. destruct fuel; [lia|]. cbn [region_buffers].
  destruct (CHUNKSIZE <? Z.of_nat (List.length z)); discriminate.
Qed.

Lemma store_twice (buffer : bytes) no (o out : bytes) :
  (no <= List.length buffer)%nat ->
  let buffer' := firstn no buffer ++ o ++ skipn (no + List.length o) buffer in
  firstn (no + List.length o) buffer' ++ out
  ++ skipn (no + List.length o + List.length out) buffer'
  = firstn no buffer ++ (o ++ out)
    ++ skipn (no + List.length (o ++ out)) buffer.
Proof.
  intros Hno. cbv zeta.
  assert (Hl : List.length (firstn no buffer ++ o) = (no + List.length o)%nat)
    by (rewrite length_app, length_firstn; lia).
  rewrite (app_assoc (firstn no buffer) o).
  rewrite <- Hl at 1. rewrite firstn_app_length.
  replace (no + List.length o + List.length out)%nat
    with (List.length out + List.length (firstn no buffer ++ o))%nat by lia.
  rewrite <- skipn_skipn, skipn_app_length, skipn_skipn.
  rewrite length_app. repeat rewrite <- app_assoc.
  do 4 f_equal. lia.
Qed.

Lemma set_archive_twice r a b :
  set_archive (set_archive r a) b = set_archive r b.
Proof. reflexivity. Qed.

Section ExtractRun.
Context {codec : zlib.Codec}.

(** The loop of [zlibExtractFile] over a payload that lies in the file:
    it follows the run of the engine over the buffers of the payload. *)
Lemma zlibExtractFile_loop_run d entry v E :
  dataEnd entry = Z.of_nat E ->
  dataEnd entry < 2 ^ 63 ->
  (E <= List.length d)%nat ->
  forall fuel p r inb crc strm ao no buffer out,
    (p <= E)%nat ->
    (E - p < fuel)%nat ->
    0 <= crc < 2 ^ 32 ->
    (no + ao <= List.length buffer)%nat ->
    zlib.inflate_run strm (region_buffers fuel (window d p E)) ao = Some out ->
    zlibExtractFile_loop fuel entry v
      (mk_loop_state (set_archive r (mk_clean d p)) inb crc strm ao no buffer)
    = Returns
        (after_loop (zlib.crc32 crc (window d p E)),
         (set_archive r (mk_clean d E),
          firstn no buffer ++ out ++ skipn (no + List.length out) buffer,
          if v && negb (zlib.crc32 crc (window d p E) =? crc32 entry)
          then 0 else originalSize entry)).
Proof.
  intros HE Hb Hd.
  pose proof CHUNKSIZE_pos as Cp. pose proof CHUNKSIZE_small as Cs.
  induction fuel as [|fuel IH];
    intros p r inb crc strm ao no buffer out Hp Hf Hc Hbuf Hrun; [lia|].
  cbn [zlibExtractFile_loop ls_reader ls_in ls_crc ls_strm ls_avail_out
       ls_next_out ls_buffer].
  cbn [archive set_archive]. rewrite ifs_tellg_clean.
  rewrite (uint64_small (Z.of_nat p)) by lia.
  rewrite (uint64_small (Z.of_nat p + CHUNKSIZE)) by lia.
  rewrite HE.
  cbn [region_buffers] in Hrun.
  assert (Hwl : List.length (window d p E) = (E - p)%nat).
  { unfold window. rewrite length_firstn, length_skipn. lia. }
  rewrite Hwl in Hrun.
  destruct (Z.of_nat p + CHUNKSIZE <? Z.of_nat E) eqn:Ecmp.
  - (* a full buffer, and more to come *)
    apply Z.ltb_lt in Ecmp.
    replace (CHUNKSIZE <? Z.of_nat (E - p)) with true in Hrun
      by (symmetry; apply Z.ltb_lt; lia).
    rewrite int64_small by lia.
    destruct (window_read d p E p (Z.to_nat CHUNKSIZE)) as [Hw Hl];
      try lia.
    rewrite ifs_read_clean_full by lia.
    rewrite Nat.sub_diag in Hw. cbn [skipn] in Hw.
    set (got := firstn (Z.to_nat CHUNKSIZE) (skipn p d)) in *.
    assert (Hgl : List.length got = Z.to_nat CHUNKSIZE)
      by (unfold got; rewrite length_firstn; lia).
    replace (CHUNKSIZE <? Z.of_nat (List.length got)) with false
      by (symmetry; apply Z.ltb_ge; lia).
    cbn [bad mk_clean badbit].
    rewrite uint32_small by lia.
    unfold overlay. rewrite length_app.
    replace (List.length got + List.length (skipn (List.length got) inb)
             <? Z.to_nat CHUNKSIZE)%nat with false
      by (symmetry; apply Nat.ltb_ge; lia).
    rewrite (firstn_app_exact _ _ _ Hgl).
    rewrite set_archive_twice.
    rewrite <- Hw in Hrun.
    assert (Hsk : skipn (Z.to_nat CHUNKSIZE) (window d p E)
                  = window d (p + Z.to_nat CHUNKSIZE) E).
    { unfold window. rewrite skipn_firstn_comm, skipn_skipn.
      f_equal; [lia|]. f_equal; lia. }
    rewrite Hsk in Hrun.
    cbn [zlib.inflate_run] in Hrun.
    destruct (zlib.inflate strm got ao) as [[rc strm'] o].
    destruct (ao <? List.length o)%nat eqn:Eo; [discriminate Hrun|].
    apply Nat.ltb_ge in Eo.
    destruct (region_buffers fuel (window d (p + Z.to_nat CHUNKSIZE) E))
      as [|c1 cs] eqn:Erb.
    { exfalso. revert Erb. apply region_buffers_nonempty. lia. }
    destruct (zlib.ret_code_eqb rc zlib.Z_STREAM_END
              || zlib.is_inflate_error rc) eqn:Erc; [discriminate Hrun|].
    destruct (zlib.inflate_run strm' (c1 :: cs) (ao - List.length o))
      as [out'|] eqn:Erun'; [|discriminate Hrun].
    cbn [option_map] in Hrun. inversion Hrun; subst out; clear Hrun.
    rewrite buffer_store_fits by lia.
    destruct (uint32_crc_step crc got Hc) as [-> Hc'].
    rewrite <- Erb in Erun'.
    assert (Hcont :
      zlibExtractFile_loop fuel entry v
        (mk_loop_state (set_archive r (mk_clean d (p + Z.to_nat CHUNKSIZE)))
           (got ++ skipn (List.length got) inb) (zlib.crc32 crc got) strm'
           (ao - List.length o) (no + List.length o)
           (firstn no buffer ++ o ++ skipn (no + List.length o) buffer))
      = Returns
          (after_loop (zlib.crc32 crc (window d p E)),
           (set_archive r (mk_clean d E),
            firstn no buffer ++ (o ++ out')
            ++ skipn (no + List.length (o ++ out')) buffer,
            if v && negb (zlib.crc32 crc (window d p E) =? crc32 entry)
            then 0 else originalSize entry))).
    { rewrite (IH (p + Z.to_nat CHUNKSIZE)%nat r _ _ strm' _ _ _ out');
        try lia; try assumption.
      - assert (Hz : window d p E
                     = got ++ window d (p + Z.to_nat CHUNKSIZE) E).
        { rewrite <- Hsk, Hw. symmetry. apply firstn_skipn. }
        rewrite crc32_app, <- Hz.
        rewrite (store_twice buffer no o out') by lia.
        reflexivity.
      - rewrite !length_app, length_firstn, length_skipn. lia. }
    destruct rc; cbn in Erc; try discriminate Erc; exact Hcont.
  - (* the last buffer *)
    apply Z.ltb_ge in Ecmp.
    replace (CHUNKSIZE <? Z.of_nat (E - p)) with false in Hrun
      by (symmetry; apply Z.ltb_ge; lia).
    replace (Z.of_nat E - Z.of_nat p) with (Z.of_nat (E - p)) by lia.
    rewrite uint64_small by lia.
    rewrite int64_small by lia.
    destruct (window_read d p E p (E - p)) as [Hw Hl]; try lia.
    rewrite ifs_read_clean_full by lia.
    rewrite Nat2Z.id.
    rewrite Nat.sub_diag in Hw. cbn [skipn] in Hw.
    assert (Hwin : firstn (E - p) (skipn p d) = window d p E)
      by reflexivity.
    rewrite Hwin.
    replace (CHUNKSIZE <? Z.of_nat (List.length (window d p E))) with false
      by (symmetry; apply Z.ltb_ge; lia).
    cbn [bad mk_clean badbit].
    rewrite uint32_small by lia. rewrite Nat2Z.id.
    unfold overlay. rewrite length_app, Hwl.
    replace (E - p + List.length (skipn (E - p) inb) <? E - p)%nat
      with false by (symmetry; apply Nat.ltb_ge; lia).
    rewrite (firstn_app_exact _ _ _ Hwl).
    rewrite set_archive_twice.
    cbn [zlib.inflate_run] in Hrun.
    destruct (zlib.inflate strm (window d p E) ao) as [[rc strm'] o].
    destruct (ao <? List.length o)%nat eqn:Eo; [discriminate Hrun|].
    apply Nat.ltb_ge in Eo.
    destruct (zlib.ret_code_eqb rc zlib.Z_STREAM_END) eqn:Erc;
      [|discriminate Hrun].
    inversion Hrun; subst out; clear Hrun.
    apply ret_code_eqb_eq in Erc. subst rc.
    rewrite buffer_store_fits by lia.
    destruct (uint32_crc_step crc (window d p E) Hc) as [-> Hc'].
    replace (p + (E - p))%nat with E by lia.
    destruct (v && negb (zlib.crc32 crc (window d p E) =? crc32 entry));
      reflexivity.
Qed.

End ExtractRun.

(* ================================================================== *)
(** ** The writer: what [writeFiles] keeps *)

Section WriterFrame.
Context {codec : zlib.Codec}.

Lemma writeFileToArchive_keeps file archiveFile entry file' archiveFile'
  entry' :
  writeFileToArchive file archiveFile entry
  = Returns (file', archiveFile', entry') ->
  exists crc, entry' = set_crc32 entry crc.
Proof.
  unfold writeFileToArchive. intros H. bind_inv H.
  destruct a as [[f a] c]. inversion H; subst.
  exists c. destruct entry; reflexivity.
Qed.

Lemma zlibCompressFileToArchive_keeps file archiveFile entry file'
  archiveFile' entry' ret :
  zlibCompressFileToArchive file archiveFile entry
  = Returns (file', archiveFile', entry', ret) ->
  entry' = entry \/ exists crc, entry' = set_crc32 entry crc.
Proof.
  unfold zlibCompressFileToArchive. intros H.
  destruct zlib.deflateInit as [r0 strm].
  destruct (negb (zlib.ret_code_eqb r0 zlib.Z_OK)).
  - inversion H; subst. auto.
  - bind_inv H. destruct a as [[[f a] c] r1]. inversion H; subst.
    right. exists c. reflexivity.
Qed.

(** One turn of [writeFiles] changes the checksum, the size and the two
    offsets of the entry, and nothing else of it. *)
Lemma writeFiles_step_keeps fs p entry archiveFile entry' archiveFile' :
  writeFiles_step fs p entry archiveFile = Returns (entry', archiveFile') ->
  name entry' = name entry
  /\ compressionMethod entry' = compressionMethod entry
  /\ fileFlags entry' = fileFlags entry.
Proof.
  unfold writeFiles_step. intros H.
  destruct (fail (ifs_open closed_ifstream (fs p) true));
    [inversion H; subst; auto|].
  bind_inv H. destruct a as [af e1]. inversion H; subst; clear H.
  cbn [name compressionMethod fileFlags set_dataEnd].
  destruct (Byte.eqb _ NONE).
  - bind_inv Ha. destruct a as [[f a] e2]. inversion Ha; subst.
    apply writeFileToArchive_keeps in Ha0. destruct Ha0 as [c ->].
    cbn. auto.
  - destruct (Byte.eqb _ ZLIB).
    + bind_inv Ha. destruct a as [[[f a] e2] r]. inversion Ha; subst.
      apply zlibCompressFileToArchive_keeps in Ha0.
      destruct Ha0 as [->|[c ->]]; cbn; auto.
    + inversion Ha; subst. cbn. auto.
Qed.

Lemma writeFiles_loop_keeps fs l archiveFile l' archiveFile' :
  writeFiles_loop fs l archiveFile = Returns (l', archiveFile') ->
  map fst l' = map fst l
  /\ map (fun pe => name (snd pe)) l' = map (fun pe => name (snd pe)) l.
Proof.
  revert archiveFile l' archiveFile'.
  induction l as [|[p e] l IH]; intros af l' af' H; cbn [writeFiles_loop] in H.
  - inversion H; subst. auto.
  - destruct (writeFiles_step fs p e af) as [[e1 af1]| | | |] eqn:E1;
      cbn [bind] in H; try discriminate H.
    destruct (writeFiles_loop fs l af1) as [[l2 af2]| | | |] eqn:E2;
      cbn [bind] in H; try discriminate H.
    inversion H; subst; clear H.
    apply writeFiles_step_keeps in E1. destruct E1 as (N & _ & _).
    apply IH in E2. destruct E2 as (P1 & P2).
    cbn [map fst snd]. rewrite P1, P2, N. auto.
Qed.

End WriterFrame.

(* ================================================================== *)
(** ** The writer: what [writeFiles] writes *)

Lemma at_pos_write s pre post bs :
  at_pos s pre post ->
  at_pos (fs_write s bs) (pre ++ bs) (skipn (List.length bs) post)
  /\ fs_tellp (fs_write s bs) = Z.of_nat (List.length pre + List.length bs).
Proof.
  intros H. pose proof (fs_write_at_pos s pre post bs H) as H1.
  split; [exact H1|].
  rewrite (fs_tellp_at_pos _ _ _ H1), length_app. reflexivity.
Qed.

(** The loop of [writeFileToArchive] copies what is left of the source
    and carries the checksum over it. *)
Lemma writeFileToArchive_loop_spec c :
  forall fuel p af pre post crc,
    (p <= List.length c)%nat ->
    (List.length c - p < fuel)%nat ->
    at_pos af pre post ->
    0 <= crc < 2 ^ 32 ->
    exists file' af',
      writeFileToArchive_loop fuel (mk_clean c p) af crc
      = Returns (file', af', zlib.crc32 crc (skipn p c))
      /\ at_pos af' (pre ++ skipn p c)
           (skipn (List.length (skipn p c)) post).
Proof.
  induction fuel as [|fuel IH]; intros p af pre post crc Hp Hf Hat Hc;
    [lia|].
  cbn [writeFileToArchive_loop]. cbn [eof mk_clean eofbit].
  pose proof CHUNKSIZE_pos as Cp.
  destruct (le_lt_dec (Z.to_nat CHUNKSIZE) (List.length (skipn p c)))
    as [Hfull|Hshort].
  - rewrite ifs_read_clean_full by lia.
    set (got := firstn (Z.to_nat CHUNKSIZE) (skipn p c)).
    assert (Hgot : List.length got = Z.to_nat CHUNKSIZE)
      by (unfold got; rewrite length_firstn; lia).
    destruct (uint32_crc_step crc got Hc) as [-> Hc'].
    destruct (at_pos_write af pre post got Hat) as [Hat' _].
    rewrite length_skipn in Hfull.
    destruct (IH (p + Z.to_nat CHUNKSIZE)%nat (fs_write af got)
                 (pre ++ got) (skipn (List.length got) post)
                 (zlib.crc32 crc got))
      as (file' & af' & E & Hat''); try assumption; try lia.
    exists file', af'. rewrite E.
    assert (Hsplit : skipn p c
                     = got ++ skipn (p + Z.to_nat CHUNKSIZE) c).
    { unfold got. rewrite Nat.add_comm, <- skipn_skipn.
      symmetry. apply firstn_skipn. }
    rewrite crc32_app, <- Hsplit.
    split; [reflexivity|].
    rewrite <- app_assoc, <- Hsplit in Hat''.
    rewrite skipn_skipn in Hat''.
    replace (List.length (skipn (p + Z.to_nat CHUNKSIZE) c)
             + List.length got)%nat
      with (List.length (skipn p c)) in Hat''
      by (rewrite Hsplit at 1; rewrite length_app; lia).
    exact Hat''.
  - rewrite ifs_read_clean_short by lia.
    destruct (uint32_crc_step crc (skipn p c) Hc) as [-> Hc'].
    destruct (at_pos_write af pre post (skipn p c) Hat) as [Hat' _].
    destruct fuel as [|fuel']; cbn [writeFileToArchive_loop eof eofbit];
      eexists; eexists; split; try reflexivity; exact Hat'.
Qed.

Lemma output_buffers_spec :
  forall fuel pending,
    (List.length pending < fuel)%nat ->
    concat (output_buffers fuel pending) = pending
    /\ Forall (fun o => Z.of_nat (List.length o) <= CHUNKSIZE)
              (output_buffers fuel pending).
Proof.
  pose proof CHUNKSIZE_pos as Cp.
  induction fuel as [|fuel IH]; intros pending Hf; [lia|].
  cbn [output_buffers].
  destruct (Z.of_nat (List.length (firstn (Z.to_nat CHUNKSIZE) pending))
            =? CHUNKSIZE) eqn:E.
  - apply Z.eqb_eq in E.
    assert (Hl : (Z.to_nat CHUNKSIZE <= List.length pending)%nat).
    { rewrite length_firstn in E. lia. }
    destruct (IH (skipn (Z.to_nat CHUNKSIZE) pending)) as [I1 I2].
    { rewrite length_skipn. lia. }
    cbn [concat]. rewrite I1, firstn_skipn. split; [reflexivity|].
    constructor; [lia|exact I2].
  - apply Z.eqb_neq in E. rewrite length_firstn in E.
    rewrite firstn_all2 by lia. cbn [concat]. rewrite app_nil_r.
    split; [reflexivity|]. constructor; [lia|constructor].
Qed.

Section WriterSpec.
Context {codec : zlib.Codec}.

Lemma write_output_spec ret :
  ret <> zlib.Z_STREAM_ERROR ->
  forall outs af pre post crc,
    Forall (fun o => Z.of_nat (List.length o) <= CHUNKSIZE) outs ->
    at_pos af pre post ->
    0 <= crc < 2 ^ 32 ->
    exists af',
      write_output ret outs af crc
      = (true, af', zlib.crc32 crc (concat outs))
      /\ at_pos af' (pre ++ concat outs)
           (skipn (List.length (concat outs)) post).
Proof.
  intros Hret.
  assert (Hr : zlib.ret_code_eqb ret zlib.Z_STREAM_ERROR = false).
  { destruct (zlib.ret_code_eqb ret zlib.Z_STREAM_ERROR) eqn:E; auto.
    apply ret_code_eqb_eq in E. contradiction. }
  pose proof CHUNKSIZE_small as Cs.
  induction outs as [|out outs IH]; intros af pre post crc Hall Hat Hc;
    cbn [write_output concat].
  - exists af. rewrite crc32_nil, app_nil_r. cbn [List.length skipn].
    auto.
  - inversion Hall as [|? ? Ho Hall']; subst.
    rewrite Hr.
    destruct (uint32_crc_step crc out Hc) as [-> Hc'].
    destruct (at_pos_write af pre post out Hat) as [Hat' Ht].
    rewrite Ht, (fs_tellp_at_pos _ _ _ Hat).
    rewrite Nat2Z.inj_add, uint32_diff.
    rewrite (uint_small 32) by lia.
    rewrite Z.eqb_refl. cbn [negb orb].
    destruct Hat' as (Hd & Hp & Hfb). rewrite Hfb.
    destruct (IH (fs_write af out) (pre ++ out)
                 (skipn (List.length out) post) (zlib.crc32 crc out))
      as (af' & E & Hat''); auto.
    { repeat split; assumption. }
    exists af'. rewrite E, crc32_app. split; [reflexivity|].
    rewrite <- app_assoc in Hat''. rewrite skipn_skipn in Hat''.
    rewrite length_app.
    replace (List.length out + List.length (concat outs))%nat
      with (List.length (concat outs) + List.length out)%nat by lia.
    exact Hat''.
Qed.

Lemma zlibCompress_loop_spec c :
  forall fuel p strm af pre post crc z,
    (p <= List.length c)%nat ->
    (List.length c - p < fuel)%nat ->
    at_pos af pre post ->
    0 <= crc < 2 ^ 32 ->
    zlib.deflate_run strm (fst (input_buffers fuel (skipn p c)))
                     (snd (input_buffers fuel (skipn p c))) = Some z ->
    exists file' af',
      zlibCompress_loop fuel strm (mk_clean c p) af crc
      = Returns (file', af', zlib.crc32 crc z, zlib.Z_OK)
      /\ at_pos af' (pre ++ z) (skipn (List.length z) post).
Proof.
  pose proof CHUNKSIZE_pos as Cp.
  induction fuel as [|fuel IH]; intros p strm af pre post crc z Hp Hf Hat Hc Hz;
    [lia|].
  cbn [zlibCompress_loop]. cbn [input_buffers] in Hz.
  destruct (le_lt_dec (Z.to_nat CHUNKSIZE) (List.length (skipn p c)))
    as [Hfull|Hshort].
  - rewrite ifs_read_clean_full by lia.
    cbn [bad eof mk_clean badbit eofbit].
    set (got := firstn (Z.to_nat CHUNKSIZE) (skipn p c)) in *.
    assert (Hgot : List.length got = Z.to_nat CHUNKSIZE)
      by (unfold got; rewrite length_firstn; lia).
    replace (Z.of_nat (List.length got) =? CHUNKSIZE) with true in Hz
      by (symmetry; apply Z.eqb_eq; lia).
    rewrite skipn_skipn in Hz.
    replace (Z.to_nat CHUNKSIZE + p)%nat with (p + Z.to_nat CHUNKSIZE)%nat
      in Hz by lia.
    destruct (input_buffers fuel (skipn (p + Z.to_nat CHUNKSIZE) c))
      as [full last] eqn:Eb.
    cbn [fst snd zlib.deflate_run] in Hz.
    destruct (zlib.deflate_input strm got zlib.Z_NO_FLUSH)
      as [[ret strm'] pending].
    destruct (zlib.ret_code_eqb ret zlib.Z_STREAM_ERROR) eqn:Er;
      [discriminate Hz|].
    destruct (zlib.deflate_run strm' full last) as [z'|] eqn:Ez;
      [|discriminate Hz].
    cbn [option_map] in Hz. inversion Hz; subst z; clear Hz.
    assert (Hret : ret <> zlib.Z_STREAM_ERROR).
    { intros ->. cbn in Er. discriminate Er. }
    destruct (output_buffers_spec (S (List.length pending)) pending)
      as [Oc Of]; [lia|].
    destruct (write_output_spec ret Hret _ af pre post crc Of Hat Hc)
      as (af1 & E1 & Hat1).
    rewrite E1, Oc in *. cbn [negb].
    rewrite length_skipn in Hfull.
    destruct (IH (p + Z.to_nat CHUNKSIZE)%nat strm' af1 (pre ++ pending)
                 (skipn (List.length pending) post)
                 (zlib.crc32 crc pending) z')
      as (file' & af' & E & Hat'); try assumption; try lia.
    { apply crc32_bound; exact Hc. }
    { rewrite Eb. exact Ez. }
    exists file', af'. rewrite E, crc32_app. split; [reflexivity|].
    rewrite <- app_assoc in Hat'. rewrite skipn_skipn in Hat'.
    rewrite length_app.
    replace (List.length pending + List.length z')%nat
      with (List.length z' + List.length pending)%nat by lia.
    exact Hat'.
  - rewrite ifs_read_clean_short by lia.
    cbn [bad eof badbit eofbit].
    replace (Z.of_nat (List.length (firstn (Z.to_nat CHUNKSIZE) (skipn p c)))
             =? CHUNKSIZE) with false in Hz.
    2:{ symmetry. apply Z.eqb_neq. rewrite length_firstn. lia. }
    rewrite firstn_all2 in Hz by lia.
    cbn [fst snd zlib.deflate_run] in Hz.
    destruct (zlib.deflate_input strm (skipn p c) zlib.Z_FINISH)
      as [[ret strm'] pending].
    destruct (zlib.ret_code_eqb ret zlib.Z_STREAM_END) eqn:Er;
      [|discriminate Hz].
    inversion Hz; subst z; clear Hz.
    apply ret_code_eqb_eq in Er. subst ret.
    destruct (output_buffers_spec (S (List.length pending)) pending)
      as [Oc Of]; [lia|].
    destruct (write_output_spec zlib.Z_STREAM_END
                ltac:(intros E; discriminate E) _ af pre post crc Of Hat Hc)
      as (af1 & E1 & Hat1).
    rewrite E1, Oc in *. cbn [negb zlib.ret_code_eqb].
    eexists; eexists; split; [reflexivity|exact Hat1].
Qed.

End WriterSpec.

Lemma input_buffers_full :
  forall fuel content,
    Forall (fun b => b <> []) (fst (input_buffers fuel content)).
Proof.
  pose proof CHUNKSIZE_pos as Cp.
  induction fuel as [|fuel IH]; intros content; cbn [input_buffers fst].
  - constructor.
  - destruct (Z.of_nat (List.length (firstn (Z.to_nat CHUNKSIZE) content))
              =? CHUNKSIZE) eqn:E.
    + specialize (IH (skipn (Z.to_nat CHUNKSIZE) content)).
      destruct (input_buffers fuel (skipn (Z.to_nat CHUNKSIZE) content))
        as [full last].
      cbn [fst] in *. constructor; [|exact IH].
      apply Z.eqb_eq in E. intros E0. rewrite E0 in E. cbn in E. lia.
    + constructor.
Qed.

Lemma input_buffers_concat :
  forall fuel content,
    (List.length content < fuel)%nat ->
    concat (fst (input_buffers fuel content))
    ++ snd (input_buffers fuel content) = content.
Proof.
  pose proof CHUNKSIZE_pos as Cp.
  induction fuel as [|fuel IH]; intros content Hf; [lia|].
  cbn [input_buffers].
  destruct (Z.of_nat (List.length (firstn (Z.to_nat CHUNKSIZE) content))
            =? CHUNKSIZE) eqn:E.
  - apply Z.eqb_eq in E. rewrite length_firstn in E.
    specialize (IH (skipn (Z.to_nat CHUNKSIZE) content)).
    destruct (input_buffers fuel (skipn (Z.to_nat CHUNKSIZE) content))
      as [full last].
    cbn [fst snd concat] in *. rewrite <- app_assoc, IH.
    + apply firstn_skipn.
    + rewrite length_skipn. lia.
  - apply Z.eqb_neq in E. rewrite length_firstn in E.
    cbn [fst snd concat app]. apply firstn_all2. lia.
Qed.

Section WriterSpecLaws.
Context {codec : zlib.Codec} {laws : zlib.CodecLaws codec}.

Lemma compressed_some content :
  exists z, compressed content = Some z /\ z <> [].
Proof.
  unfold compressed.
  pose proof (input_buffers_full (S (List.length content)) content) as Hf.
  destruct (input_buffers (S (List.length content)) content) as [full last].
  cbn [fst] in Hf. apply zlib.deflate_total. exact Hf.
Qed.

Lemma writeFiles_step_spec fs p e af pre post :
  at_pos af pre post ->
  0 <= crc32 e < 2 ^ 32 ->
  exists af',
    writeFiles_step fs p e af
    = Returns (written_entry (Z.of_nat (List.length pre)) fs (p, e), af')
    /\ at_pos af' (pre ++ stored fs (p, e))
         (skipn (List.length (stored fs (p, e))) post).
Proof.
  intros Hat Hc. unfold writeFiles_step, written_entry, stored.
  cbn [fst snd].
  destruct (fs p) as [content|] eqn:Efs.
  2:{ cbn. exists af. split; [reflexivity|].
      rewrite app_nil_r. exact Hat. }
  rewrite open_source_ate.
  cbn [fail mk_clean failbit badbit orb].
  rewrite ifs_tellg_clean, ifs_seekg_clean by lia.
  rewrite (fs_tellp_at_pos _ _ _ Hat).
  change (Z.to_nat 0) with 0%nat.
  cbn [compressionMethod set_originalSize set_dataStart].
  destruct (Byte.eqb (compressionMethod e) NONE) eqn:En.
  - unfold writeFileToArchive.
    cbn [crc32 set_crc32 contents mk_clean]. rewrite crc32_nil.
    destruct (writeFileToArchive_loop_spec content
                (S (List.length content)) 0 af pre post 0)
      as (file' & af' & E & Hat'); try lia; try assumption.
    cbn [skipn] in E, Hat'.
    rewrite E. cbn [bind].
    exists af'. rewrite (fs_tellp_at_pos _ _ _ Hat'), length_app.
    split; [|exact Hat'].
    rewrite Nat2Z.inj_add. destruct e; reflexivity.
  - destruct (Byte.eqb (compressionMethod e) ZLIB) eqn:Ez.
    + unfold zlibCompressFileToArchive.
      pose proof zlib.deflateInit_ok as Hi.
      destruct (compressed_some content) as (z & Hz & _).
      rewrite Hz. unfold compressed in Hz.
      destruct zlib.deflateInit as [ret strm]. cbn [fst snd] in *. subst ret.
      cbn [zlib.ret_code_eqb negb].
      cbn [crc32 contents mk_clean set_originalSize set_dataStart].
      destruct (zlibCompress_loop_spec content (S (List.length content)) 0
                  strm af pre post (crc32 e) z)
        as (file' & af' & E & Hat'); try lia; try assumption.
      { cbn [skipn].
        destruct (input_buffers (S (List.length content)) content).
        exact Hz. }
      rewrite E. cbn [bind].
      exists af'. rewrite (fs_tellp_at_pos _ _ _ Hat'), length_app.
      split; [|exact Hat'].
      rewrite Nat2Z.inj_add. destruct e; reflexivity.
    + cbn [bind]. exists af. rewrite (fs_tellp_at_pos _ _ _ Hat).
      rewrite app_nil_r. cbn [List.length skipn].
      rewrite Z.add_0_r. split; [reflexivity|exact Hat].
Qed.

Lemma writeFiles_loop_spec fs :
  forall l af pre post,
    at_pos af pre post ->
    Forall (fun pe => 0 <= crc32 (snd pe) < 2 ^ 32) l ->
    exists af',
      writeFiles_loop fs l af
      = Returns (written_entries (Z.of_nat (List.length pre)) fs l, af')
      /\ at_pos af' (pre ++ payloads fs l)
           (skipn (List.length (payloads fs l)) post).
Proof.
  induction l as [|[p e] l IH]; intros af pre post Hat Hall;
    cbn [writeFiles_loop written_entries].
  - exists af. unfold payloads. cbn. rewrite app_nil_r. auto.
  - inversion Hall as [|? ? Hc Hall']; subst. cbn [snd] in Hc.
    destruct (writeFiles_step_spec fs p e af pre post Hat Hc)
      as (af1 & E1 & Hat1).
    rewrite E1. cbn [bind].
    destruct (IH af1 _ _ Hat1 Hall') as (af2 & E2 & Hat2).
    rewrite length_app, Nat2Z.inj_add in E2.
    cbn [fst]. rewrite E2. cbn [bind].
    exists af2. split; [reflexivity|].
    unfold payloads in *. cbn [map concat].
    rewrite <- app_assoc in Hat2. rewrite skipn_skipn in Hat2.
    rewrite length_app.
    replace (List.length (stored fs (p, e))
             + List.length (concat (map (stored fs) l)))%nat
      with (List.length (concat (map (stored fs) l))
            + List.length (stored fs (p, e)))%nat by lia.
    exact Hat2.
Qed.

End WriterSpecLaws.

(* ------------------------------------------------------------------ *)
(** *** Header and table *)

Lemma at_pos_write_acc s pre post acc bs :
  at_pos s (pre ++ acc) (skipn (List.length acc) post) ->
  at_pos (fs_write s bs) (pre ++ acc ++ bs)
         (skipn (List.length (acc ++ bs)) post).
Proof.
  intros H. apply (fs_write_at_pos _ _ _ bs) in H.
  rewrite <- app_assoc in H. rewrite skipn_skipn in H.
  rewrite length_app.
  replace (List.length acc + List.length bs)%nat
    with (List.length bs + List.length acc)%nat by lia.
  exact H.
Qed.

Lemma writeTableEntry_at_pos s pre post e :
  at_pos s pre post ->
  at_pos (writeTableEntry s e) (pre ++ entry_bytes e)
         (skipn (List.length (entry_bytes e)) post).
Proof.
  intros H. unfold writeTableEntry, entry_bytes. cbv zeta.
  assert (H0 : at_pos s (pre ++ []) (skipn (List.length (@nil byte)) post))
    by (rewrite app_nil_r; exact H).
  apply (at_pos_write_acc _ _ _ _
           (le_encode 2 (uint16 (Z.of_nat (String.length (name e)))))) in H0.
  apply (at_pos_write_acc _ _ _ _
           (firstn (Z.to_nat (uint16 (Z.of_nat (String.length (name e)))))
                   (list_byte_of_string (name e)))) in H0.
  apply (at_pos_write_acc _ _ _ _ [compressionMethod e]) in H0.
  apply (at_pos_write_acc _ _ _ _
           [byte_of_Z (uint8_of_Flags (fileFlags e))]) in H0.
  apply (at_pos_write_acc _ _ _ _ (le_encode 4 (crc32 e))) in H0.
  apply (at_pos_write_acc _ _ _ _ (le_encode 8 (originalSize e))) in H0.
  apply (at_pos_write_acc _ _ _ _ (le_encode 8 (dataStart e))) in H0.
  apply (at_pos_write_acc _ _ _ _ (le_encode 8 (dataEnd e))) in H0.
  cbn [app] in H0. repeat rewrite <- app_assoc in H0.
  exact H0.
Qed.

Lemma writeTable_entries_at_pos es :
  forall s pre post,
    at_pos s pre post ->
    at_pos (writeTable_entries s es) (pre ++ table_bytes es)
           (skipn (List.length (table_bytes es)) post).
Proof.
  unfold writeTable_entries, table_bytes.
  induction es as [|e es IH]; intros s pre post H; cbn [fold_left map concat].
  - rewrite app_nil_r. exact H.
  - apply (writeTableEntry_at_pos _ _ _ e) in H.
    apply IH in H. rewrite <- app_assoc in H. rewrite skipn_skipn in H.
    rewrite length_app.
    replace (List.length (entry_bytes e)
             + List.length (concat (map entry_bytes es)))%nat
      with (List.length (concat (map entry_bytes es))
            + List.length (entry_bytes e))%nat by lia.
    exact H.
Qed.

Lemma writeTable_as_entries w s :
  writeTable w s = writeTable_entries s (map snd (fileEntries w)).
Proof.
  unfold writeTable, writeTable_entries.
  generalize (fileEntries w) as l. intros l. revert s.
  induction l as [|pe l IH]; intros s; cbn [fold_left map]; auto.
Qed.

Lemma writeHeader_at_pos :
  at_pos (writeHeader (mk_fstream [] 0 false)) (header_bytes 0) [].
Proof. unfold at_pos. cbn. auto. Qed.

(** [writeTableLocation] puts the put position into bytes 5 to 12 and
    comes back to it. *)
Lemma writeTableLocation_at_pos s T0 body post :
  at_pos s (header_bytes T0 ++ body) post ->
  13 + Z.of_nat (List.length body) < 2 ^ 63 ->
  at_pos (writeTableLocation s)
         (header_bytes (13 + Z.of_nat (List.length body)) ++ body) post.
Proof.
  intros (Hd & Hp & Hf) HT.
  assert (Hlen : List.length (header_bytes T0 ++ body)
                 = (13 + List.length body)%nat)
    by (rewrite length_app, length_header_bytes; reflexivity).
  unfold writeTableLocation, fs_tellp. rewrite Hf, Hp, Hlen.
  replace (Z.of_nat (13 + List.length body))
    with (13 + Z.of_nat (List.length body)) by lia.
  rewrite (uint_small 64) by lia. rewrite int64_small by lia.
  unfold fs_seekp at 2. rewrite Hf. cbn [Z.ltb Z.compare].
  unfold fs_write. cbn [ofailbit data ppos].
  unfold fs_seekp. cbn [ofailbit data ppos].
  replace (13 + Z.of_nat (List.length body) <? 0) with false
    by (symmetry; apply Z.ltb_ge; lia).
  unfold at_pos. cbn [data ppos ofailbit].
  split; [|split; [|reflexivity]].
  - rewrite Hd. unfold header_bytes.
    set (sv := DATFILESIGNATURE ++ le_encode 1 DATFILEVERSION).
    replace ((DATFILESIGNATURE ++ le_encode 1 DATFILEVERSION
              ++ le_encode 8 T0) ++ body)
      with (sv ++ (le_encode 8 T0 ++ body)).
    2:{ unfold sv. repeat rewrite <- app_assoc. reflexivity. }
    rewrite <- app_assoc.
    change (Z.to_nat 5) with (List.length sv).
    rewrite write_at_split.
    rewrite <- app_assoc.
    rewrite (skipn_app_exact _ _ _ (length_le_encode 8 _))
      by (rewrite !length_le_encode; reflexivity).
    replace ((DATFILESIGNATURE ++ le_encode 1 DATFILEVERSION
              ++ le_encode 8 (13 + Z.of_nat (List.length body))) ++ body)
      with (sv ++ le_encode 8 (13 + Z.of_nat (List.length body)) ++ body).
    2:{ unfold sv. repeat rewrite <- app_assoc. reflexivity. }
    rewrite <- app_assoc. reflexivity.
  - rewrite length_app, length_header_bytes. lia.
Qed.

(* ================================================================== *)
(** ** The small engine keeps the promises of an engine *)

Lemma toy_deflate_run inputs last :
  zlib.deflate_run (codec := toy_codec) tt inputs last
  = Some (toy_escape (concat inputs ++ last) ++ [x00]).
Proof.
  induction inputs as [|i inputs IH]; cbn [zlib.deflate_run concat app].
  - reflexivity.
  - cbn [zlib.deflate_input toy_codec toy_deflate zlib.ret_code_eqb].
    rewrite IH. cbn [option_map]. unfold toy_escape.
    rewrite <- (app_assoc i), (flat_map_app _ i), <- app_assoc. reflexivity.
Qed.

Lemma toy_inflate_prefix :
  forall chunk st c room more,
    toy_pending st c = chunk ++ more ->
    (List.length c <= room)%nat ->
    (more = [] -> chunk <> [] ->
     toy_inflate st chunk room = (zlib.Z_STREAM_END, Done, c))
    /\ (more <> [] ->
        exists st' o c',
          toy_inflate st chunk room = (zlib.Z_OK, st', o)
          /\ c = o ++ c'
          /\ toy_pending st' c' = more).
Proof.
  induction chunk as [|x chunk IH]; intros st c room more Hp Hr.
  - split; [intros _ H; contradiction|].
    intros _. exists st, [], c. cbn. auto.
  - destruct st.
    + (* a tag is expected *)
      destruct c as [|b c].
      * cbn in Hp. injection Hp as Hx Hrest.
        destruct chunk; [|discriminate Hrest]. cbn in Hrest. subst more x.
        split; [intros _ _; reflexivity|intros H; contradiction].
      * cbn in Hp. injection Hp as Hx Hrest.
        subst x. cbn [toy_inflate]. change (Byte.eqb x01 x00) with false.
        change (Byte.eqb x01 x01) with true. cbn match.
        destruct (IH ExpectByte (b :: c) room more) as [I1 I2];
          [exact Hrest|exact Hr|].
        split.
        -- intros Hm _. apply I1; [exact Hm|].
           intros ->. subst more. discriminate Hrest.
        -- exact I2.
    + (* a byte is expected *)
      destruct c as [|b c]; [discriminate Hp|].
      cbn in Hp. injection Hp as Hx Hrest.
      destruct room as [|room]; [cbn in Hr; lia|]. subst x.
      cbn [toy_inflate].
      destruct (IH ExpectTag c room more) as [I1 I2];
        [exact Hrest|cbn in Hr; lia|].
      split.
      * intros Hm _. rewrite I1; [reflexivity|exact Hm|].
        intros ->. subst more. unfold toy_escape in Hrest.
        destruct (flat_map _ c); discriminate Hrest.
      * intros Hm. destruct (I2 Hm) as (st' & o & c' & E & Hc & Hp').
        exists st', (b :: o), c'. rewrite E. subst c. auto.
    + discriminate Hp.
Qed.

Lemma toy_inflate_run :
  forall chunks st c room,
    Forall (fun ch => ch <> []) chunks ->
    chunks <> [] ->
    concat chunks = toy_pending st c ->
    (List.length c <= room)%nat ->
    zlib.inflate_run (codec := toy_codec) st chunks room = Some c.
Proof.
  induction chunks as [|ch chunks IH]; intros st c room Hne Hnn Hc Hr;
    [contradiction|].
  inversion Hne as [|? ? Hch Hne']; subst.
  cbn [concat] in Hc. symmetry in Hc.
  destruct (toy_inflate_prefix ch st c room (concat chunks) Hc Hr)
    as [P1 P2].
  cbn [zlib.inflate_run zlib.inflate toy_codec].
  destruct chunks as [|c1 cs].
  - rewrite P1 by (auto; reflexivity).
    replace (room <? List.length c)%nat with false
      by (symmetry; apply Nat.ltb_ge; exact Hr).
    reflexivity.
  - destruct P2 as (st' & o & c' & E & Hco & Hp').
    { inversion Hne' as [|? ? Hc1 _]; subst. cbn [concat].
      destruct c1; [contradiction|discriminate]. }
    rewrite E. subst c. rewrite length_app in Hr.
    replace (room <? List.length o)%nat with false
      by (symmetry; apply Nat.ltb_ge; lia).
    cbn [zlib.ret_code_eqb zlib.is_inflate_error orb].
    rewrite (IH st' c' (room - List.length o)%nat);
      [reflexivity|exact Hne'|discriminate|symmetry; exact Hp'|lia].
Qed.

Lemma toy_codec_laws : zlib.CodecLaws toy_codec.
Proof.
  constructor.
  - reflexivity.
  - reflexivity.
  - intros inputs last _. cbn [zlib.deflateInit toy_codec snd].
    rewrite toy_deflate_run. eexists. split; [reflexivity|].
    intros E. destruct (toy_escape (concat inputs ++ last)); discriminate E.
  - intros inputs last z chunks _ Hz Hc Hne.
    cbn [zlib.deflateInit zlib.inflateInit toy_codec snd] in *.
    rewrite toy_deflate_run in Hz. injection Hz as Hz.
    rewrite <- Hz in Hc. clear Hz.
    apply toy_inflate_run; auto.
    intros ->. cbn in Hc.
    destruct (toy_escape (concat inputs ++ last)); discriminate Hc.
Qed.

(* ================================================================== *)
(** ** Reading back what was written *)

Lemma region_buffers_concat :
  forall fuel z, (List.length z < fuel)%nat ->
    concat (region_buffers fuel z) = z.
Proof.
  pose proof CHUNKSIZE_pos as Cp.
  induction fuel as [|fuel IH]; intros z Hf; [lia|].
  cbn [region_buffers].
  destruct (CHUNKSIZE <? Z.of_nat (List.length z)) eqn:E.
  - apply Z.ltb_lt in E. cbn [concat]. rewrite IH.
    + apply firstn_skipn.
    + rewrite length_skipn. lia.
  - cbn [concat]. apply app_nil_r.
Qed.

Lemma region_buffers_all_nonempty :
  forall fuel z, z <> [] ->
    Forall (fun c => c <> []) (region_buffers fuel z).
Proof.
  pose proof CHUNKSIZE_pos as Cp.
  induction fuel as [|fuel IH]; intros z Hz; cbn [region_buffers].
  - constructor.
  - destruct (CHUNKSIZE <? Z.of_nat (List.length z)) eqn:E.
    + apply Z.ltb_lt in E. constructor.
      * intros E0. apply (f_equal (@List.length byte)) in E0.
        rewrite length_firstn in E0. cbn in E0. lia.
      * apply IH. intros E0. apply (f_equal (@List.length byte)) in E0.
        rewrite length_skipn in E0. cbn in E0. lia.
    + constructor; [exact Hz|constructor].
Qed.

Lemma window_middle (pre z post : bytes) :
  window (pre ++ z ++ post) (List.length pre)
         (List.length pre + List.length z) = z.
Proof.
  unfold window. rewrite skipn_app_length.
  replace (List.length pre + List.length z - List.length pre)%nat
    with (List.length z) by lia.
  apply firstn_app_length.
Qed.

Section ReadBack.
Context {codec : zlib.Codec} {laws : zlib.CodecLaws codec}.

(** The engine gives back a file from its compressed stream, read buffer
    by buffer as [zlibExtractFile] does. *)
Lemma inflate_compressed content z fuel :
  compressed content = Some z ->
  (List.length z < fuel)%nat ->
  zlib.inflate_run (snd zlib.inflateInit) (region_buffers fuel z)
                   (List.length content)
  = Some content.
Proof.
  intros Hz Hf.
  destruct (compressed_some content) as (z' & Hz' & Hne).
  rewrite Hz in Hz'. injection Hz' as <-.
  unfold compressed in Hz.
  pose proof (input_buffers_full (S (List.length content)) content) as Hfull.
  pose proof (input_buffers_concat (S (List.length content)) content
                (Nat.lt_succ_diag_r _)) as Hcat.
  destruct (input_buffers (S (List.length content)) content) as [full last].
  cbn [fst snd] in *.
  pose proof (@zlib.inflate_deflate codec laws full last z (region_buffers fuel z)
                Hfull Hz (region_buffers_concat fuel z Hf)
                (region_buffers_all_nonempty fuel z Hne)) as H.
  rewrite Hcat in H. exact H.
Qed.

(** [getFile] on an entry whose payload lies in the file and is what
    [writeFiles] stores for [content]. *)
Lemma getFile_of_stored q D p0 ver T idx n e content pre z post fuel :
  map_find String.ltb n idx = Some e ->
  D = pre ++ z ++ post ->
  dataStart e = Z.of_nat (List.length pre) ->
  dataEnd e = Z.of_nat (List.length pre + List.length z) ->
  dataEnd e < 2 ^ 63 ->
  originalSize e = Z.of_nat (List.length content) ->
  Z.of_nat (List.length content) < 2 ^ 32 ->
  (compressionMethod e = NONE /\ z = content
   /\ crc32 e = zlib.crc32 0 content)
  \/ (compressionMethod e = ZLIB /\ compressed content = Some z
      /\ crc32 e = zlib.crc32 0 z) ->
  (List.length z < fuel)%nat ->
  getFile fuel (mk_Reader q (mk_clean D p0) ver T idx true false) n
  = Returns (mk_Reader q (mk_clean D (List.length pre + List.length z))
                       ver T idx true false,
             content).
Proof.
  intros Hfind HD Hs He Hb Ho Hc Hm Hf.
  unfold getFile. cbn [openFlag badFlag negb orb].
  assert (Hcon : contains (mk_Reader q (mk_clean D p0) ver T idx true false)
                          n = true).
  { apply contains_find. cbn [entries]. rewrite Hfind. discriminate. }
  rewrite Hcon. cbn [negb].
  unfold getFileEntry. cbn [openFlag badFlag negb orb entries].
  rewrite Hfind. cbn [bind]. rewrite Ho, Nat2Z.id.
  unfold getFileFromEntry.
  destruct Hm as [(Hm & Hz & Hcrc)|(Hm & Hz & Hcrc)]; rewrite Hm.
  - (* stored as it is *)
    change (Byte.eqb NONE NONE) with true. cbn match. subst z.
    rewrite (extractFile_region _ D p0 e _ true pre content post);
      try assumption; try reflexivity.
    2:{ rewrite repeat_length. lia. }
    cbn [bind set_archive].
    rewrite Hcrc, Z.eqb_refl. cbn [negb andb].
    rewrite skipn_all2 by (rewrite repeat_length; lia).
    rewrite app_nil_r.
    destruct content as [|b content]; reflexivity.
  - (* compressed *)
    change (Byte.eqb ZLIB NONE) with false.
    change (Byte.eqb ZLIB ZLIB) with true. cbn match.
    unfold zlibExtractFile, zlibExtractFile_from.
    cbn [archive]. rewrite Hs.
    rewrite int64_small by lia. rewrite ifs_seekg_clean by lia.
    rewrite Nat2Z.id.
    pose proof zlib.inflateInit_ok as Hi.
    pose proof (inflate_compressed content z fuel Hz Hf) as Hrun.
    destruct zlib.inflateInit as [rc strm]. cbn [fst snd] in Hi, Hrun.
    subst rc. cbn [zlib.ret_code_eqb negb].
    rewrite Ho, (uint_small 32), Nat2Z.id by lia.
    set (r0 := mk_Reader q (mk_clean D p0) ver T idx true false).
    change (set_archive r0 (mk_clean D (List.length pre)))
      with (set_archive r0 (mk_clean D (List.length pre))).
    rewrite (zlibExtractFile_loop_run D e true
               (List.length pre + List.length z) He Hb
               ltac:(subst D; rewrite !length_app; lia)
               fuel (List.length pre) r0 [] 0 strm (List.length content) 0
               (repeat x00 (List.length content)) content);
      try lia.
    2:{ rewrite repeat_length. lia. }
    2:{ subst D. rewrite window_middle. exact Hrun. }
    cbn [bind snd]. subst D. rewrite window_middle.
    rewrite Hcrc, Z.eqb_refl. cbn [negb andb firstn app].
    rewrite skipn_all2 by (rewrite repeat_length; lia).
    rewrite app_nil_r, Ho.
    destruct content as [|b content]; reflexivity.
Qed.

End ReadBack.

(* ------------------------------------------------------------------ *)
(** *** The entries and payloads [writeFiles] leaves *)

Section Written.
Context {codec : zlib.Codec}.

Lemma name_written_entry pos fs pe :
  name (written_entry pos fs pe) = name (snd pe).
Proof.
  unfold written_entry. destruct (fs (fst pe)); [|reflexivity].
  cbn [compressionMethod set_originalSize set_dataStart].
  destruct (Byte.eqb (compressionMethod (snd pe)) NONE); [reflexivity|].
  destruct (Byte.eqb (compressionMethod (snd pe)) ZLIB); reflexivity.
Qed.

Lemma method_written_entry pos fs pe :
  compressionMethod (written_entry pos fs pe) = compressionMethod (snd pe).
Proof.
  unfold written_entry. destruct (fs (fst pe)); [|reflexivity].
  cbn [compressionMethod set_originalSize set_dataStart].
  destruct (Byte.eqb (compressionMethod (snd pe)) NONE); [reflexivity|].
  destruct (Byte.eqb (compressionMethod (snd pe)) ZLIB); reflexivity.
Qed.

Lemma written_entries_names pos fs l :
  map (fun pe => name (snd pe)) (written_entries pos fs l)
  = map (fun pe => name (snd pe)) l.
Proof.
  revert pos. induction l as [|pe l IH]; intros pos;
    cbn [written_entries map]; [reflexivity|].
  cbn [snd]. rewrite name_written_entry, IH. reflexivity.
Qed.

Lemma written_entries_paths pos fs l :
  map fst (written_entries pos fs l) = map fst l.
Proof.
  revert pos. induction l as [|pe l IH]; intros pos;
    cbn [written_entries map]; [reflexivity|].
  cbn [fst]. rewrite IH. reflexivity.
Qed.

Lemma payloads_app fs l1 l2 :
  payloads fs (l1 ++ l2) = payloads fs l1 ++ payloads fs l2.
Proof. unfold payloads. rewrite map_app, concat_app. reflexivity. Qed.

Lemma payloads_cons fs pe l :
  payloads fs (pe :: l) = stored fs pe ++ payloads fs l.
Proof. reflexivity. Qed.

Lemma written_entries_app fs l1 :
  forall pos l2,
    written_entries pos fs (l1 ++ l2)
    = written_entries pos fs l1
      ++ written_entries (pos + Z.of_nat (List.length (payloads fs l1)))
           fs l2.
Proof.
  induction l1 as [|pe l1 IH]; intros pos l2.
  - cbn [written_entries app payloads map concat List.length].
    rewrite Z.add_0_r. reflexivity.
  - cbn [written_entries app]. rewrite IH. rewrite payloads_cons, length_app.
    rewrite Nat2Z.inj_add, Z.add_assoc. reflexivity.
Qed.

Lemma uint64_range x : 0 <= uint64 x < 2 ^ 64.
Proof. unfold uint64, wrap. apply Z.mod_pos_bound. reflexivity. Qed.

Lemma wf_written_entry pos fs pe :
  wf_entry (snd pe) -> wf_entry (written_entry pos fs pe).
Proof.
  intros (Hn & Hc & Ho & Hs & He). unfold written_entry.
  destruct (fs (fst pe)) as [content|]; [|unfold wf_entry; auto].
  cbn [compressionMethod set_originalSize set_dataStart].
  pose proof (uint64_range pos) as W1.
  pose proof (uint64_range (Z.of_nat (List.length content))) as W2.
  pose proof (uint64_range
                (pos + Z.of_nat (List.length (stored fs pe)))) as W3.
  assert (Z0 : 0 <= 0 < 2 ^ 32) by (split; [lia|reflexivity]).
  pose proof (crc32_bound 0 content Z0) as C1.
  pose proof (crc32_bound (crc32 (snd pe)) (stored fs pe) Hc) as C2.
  destruct (Byte.eqb (compressionMethod (snd pe)) NONE);
    [|destruct (Byte.eqb (compressionMethod (snd pe)) ZLIB)];
    unfold wf_entry;
    cbn [name crc32 originalSize dataStart dataEnd set_dataEnd set_crc32
         set_originalSize set_dataStart];
    auto.
Qed.

Lemma wf_written_entries fs l :
  forall pos,
    Forall (fun pe => wf_entry (snd pe)) l ->
    Forall wf_entry (map snd (written_entries pos fs l)).
Proof.
  induction l as [|pe l IH]; intros pos H; cbn [written_entries map].
  - constructor.
  - inversion H as [|? ? H1 H2]; subst. constructor.
    + cbn [snd]. apply wf_written_entry. exact H1.
    + apply IH. exact H2.
Qed.

(** Sources that are not the file being written are read as they were. *)
Lemma stored_fs_store fs q d pe :
  fst pe <> q -> stored (fs_store fs q d) pe = stored fs pe.
Proof.
  intros H. unfold stored, fs_store.
  destruct (String.eqb (fst pe) q) eqn:E;
    [apply String.eqb_eq in E; contradiction|reflexivity].
Qed.

End Written.

(* ------------------------------------------------------------------ *)
(** *** The file [writeArchive] leaves, and its reader *)

Section WholeArchive.
Context {codec : zlib.Codec} {laws : zlib.CodecLaws codec}.

Lemma writeArchive_stream_spec w fs destination :
  let fs1 := fs_store fs destination [] in
  let P := payloads fs1 (fileEntries w) in
  let es := written_entries 13 fs1 (fileEntries w) in
  Forall (fun pe => 0 <= crc32 (snd pe) < 2 ^ 32) (fileEntries w) ->
  13 + Z.of_nat (List.length P) < 2 ^ 63 ->
  writeArchive_stream w fs destination
  = Returns (mk_Writer es,
             fs_store fs1 destination
               (header_bytes (13 + Z.of_nat (List.length P))
                ++ P ++ table_bytes (map snd es)),
             true).
Proof.
  intros fs1 P es Hc HT. unfold writeArchive_stream, writeFiles.
  fold fs1.
  destruct (writeFiles_loop_spec fs1 (fileEntries w) _ _ _
              writeHeader_at_pos Hc) as (af & E & Hat).
  rewrite length_header_bytes in E. change (Z.of_nat 13) with 13 in E.
  rewrite E. cbn [bind]. fold es.
  fold P in Hat. rewrite skipn_nil in Hat.
  apply writeTableLocation_at_pos in Hat; [|exact HT].
  rewrite writeTable_as_entries. cbn [fileEntries].
  apply (writeTable_entries_at_pos (map snd es)) in Hat.
  destruct Hat as (Hd & _ & _). rewrite Hd.
  rewrite skipn_nil, app_nil_r, <- app_assoc. reflexivity.
Qed.

(** A file made of a header, a body and a well-formed table opens, and
    its index holds the table. *)
Lemma open_archive_table fs q D T body es :
  fs q = Some D ->
  D = header_bytes T ++ body ++ table_bytes es ->
  T = 13 + Z.of_nat (List.length body) ->
  T < 2 ^ 63 ->
  Forall wf_entry es ->
  DatArchiveReader_new fs q = loaded_reader q D T (emplace_all es []).
Proof.
  intros Hfs HD HT Hb Hwf. unfold DatArchiveReader_new.
  rewrite (openArchive_header fs q q D T (body ++ table_bytes es) Hfs HD)
    by lia.
  cbn [fst]. f_equal.
  assert (Hskip : skipn (Z.to_nat T) D = table_bytes es).
  { rewrite HD, app_assoc. apply skipn_app_exact.
    rewrite length_app, length_header_bytes. lia. }
  rewrite Hskip. apply parse_table_exact; [exact Hwf|].
  pose proof (length_table_bytes es Hwf) as Hl.
  rewrite HD, !length_app. lia.
Qed.

(** [getFile] on the entry of a queued file, in any file that holds the
    payloads of the queue after [pre0]. *)
Lemma getFile_written q D p0 ver T idx fs l1 p e l2 pre0 post0 content fuel :
  D = pre0 ++ payloads fs (l1 ++ (p, e) :: l2) ++ post0 ->
  Z.of_nat (List.length pre0
            + List.length (payloads fs (l1 ++ (p, e) :: l2))) < 2 ^ 63 ->
  fs p = Some content ->
  Z.of_nat (List.length content) < 2 ^ 32 ->
  crc32 e = 0 ->
  compressionMethod e = NONE \/ compressionMethod e = ZLIB ->
  map_find String.ltb (name e) idx
  = Some (written_entry
            (Z.of_nat (List.length pre0 + List.length (payloads fs l1)))
            fs (p, e)) ->
  (List.length D < fuel)%nat ->
  exists p1,
    getFile fuel (mk_Reader q (mk_clean D p0) ver T idx true false) (name e)
    = Returns (mk_Reader q (mk_clean D p1) ver T idx true false, content).
Proof.
  intros HD Hb Hfs Hc Hcrc Hm Hfind Hfuel.
  rewrite payloads_app, payloads_cons in HD, Hb.
  rewrite !length_app in Hb.
  set (z := stored fs (p, e)) in *.
  set (pre := pre0 ++ payloads fs l1).
  assert (HD' : D = pre ++ z ++ (payloads fs l2 ++ post0)).
  { rewrite HD. unfold pre. repeat rewrite <- app_assoc. reflexivity. }
  assert (Hpre : List.length pre
                 = (List.length pre0 + List.length (payloads fs l1))%nat)
    by (unfold pre; apply length_app).
  rewrite <- Hpre in Hfind.
  set (e' := written_entry (Z.of_nat (List.length pre)) fs (p, e)) in *.
  assert (He' : dataStart e' = Z.of_nat (List.length pre)
                /\ dataEnd e'
                   = Z.of_nat (List.length pre + List.length z)
                /\ originalSize e' = Z.of_nat (List.length content)
                /\ compressionMethod e' = compressionMethod e
                /\ crc32 e'
                   = (if Byte.eqb (compressionMethod e) NONE
                      then zlib.crc32 0 content
                      else if Byte.eqb (compressionMethod e) ZLIB
                           then zlib.crc32 0 z else crc32 e)).
  { unfold e', written_entry. cbn [fst snd]. rewrite Hfs. fold z.
    cbn [compressionMethod set_originalSize set_dataStart].
    rewrite !uint64_small by lia.
    destruct (Byte.eqb (compressionMethod e) NONE);
      [|destruct (Byte.eqb (compressionMethod e) ZLIB)];
      cbn [name crc32 originalSize dataStart dataEnd set_dataEnd set_crc32
           set_originalSize set_dataStart compressionMethod];
      rewrite ?Hcrc; repeat split; try lia; auto. }
  destruct He' as (Hs & He & Ho & Hme & Hce).
  exists (List.length pre + List.length z)%nat.
  apply (getFile_of_stored q D p0 ver T idx (name e) e' content pre z
           (payloads fs l2 ++ post0) fuel); auto; try lia.
  - destruct Hm as [Hm|Hm]; rewrite Hm in *.
    + left. change (Byte.eqb NONE NONE) with true in Hce.
      split; [exact Hme|]. split; [|exact Hce].
      unfold z, stored. cbn [fst snd]. rewrite Hfs, Hm. reflexivity.
    + right. change (Byte.eqb ZLIB NONE) with false in Hce.
      change (Byte.eqb ZLIB ZLIB) with true in Hce.
      split; [exact Hme|]. split; [|exact Hce].
      unfold z, stored. cbn [fst snd]. rewrite Hfs, Hm.
      change (Byte.eqb ZLIB NONE) with false.
      change (Byte.eqb ZLIB ZLIB) with true. cbn match.
      destruct (compressed_some content) as (z' & Hz' & _).
      rewrite Hz'. reflexivity.
  - rewrite HD', !length_app in Hfuel. lia.
Qed.

End WholeArchive.

Section WrittenFields.
Context {codec : zlib.Codec}.

(** The fields of the entry of a fresh queued file once written. *)
Lemma written_entry_fields fs p e content pos :
  fs p = Some content ->
  crc32 e = 0 ->
  compressionMethod e = NONE \/ compressionMethod e = ZLIB ->
  0 <= pos ->
  pos + Z.of_nat (List.length (stored fs (p, e))) < 2 ^ 64 ->
  Z.of_nat (List.length content) < 2 ^ 64 ->
  let e' := written_entry pos fs (p, e) in
  dataStart e' = pos
  /\ dataEnd e' = pos + Z.of_nat (List.length (stored fs (p, e)))
  /\ originalSize e' = Z.of_nat (List.length content)
  /\ crc32 e' = zlib.crc32 0 (stored fs (p, e)).
Proof.
  intros Hfs Hcrc Hm Hp Hb Hc. cbv zeta.
  assert (Hst : compressionMethod e = NONE -> stored fs (p, e) = content).
  { intros E. unfold stored. cbn [fst snd]. rewrite Hfs, E. reflexivity. }
  unfold written_entry. cbn [fst snd]. rewrite Hfs.
  cbn [compressionMethod set_originalSize set_dataStart].
  rewrite !uint64_small by lia.
  destruct Hm as [Hm|Hm]; rewrite Hm.
  - change (Byte.eqb NONE NONE) with true. cbn match.
    cbn [crc32 originalSize dataStart dataEnd set_dataEnd set_crc32
         set_originalSize set_dataStart].
    rewrite (Hst Hm). auto.
  - change (Byte.eqb ZLIB NONE) with false.
    change (Byte.eqb ZLIB ZLIB) with true. cbn match.
    cbn [crc32 originalSize dataStart dataEnd set_dataEnd set_crc32
         set_originalSize set_dataStart].
    rewrite Hcrc. auto.
Qed.

Lemma payloads_fs_store fs q d l :
  (forall pe, In pe l -> fst pe <> q) ->
  payloads (fs_store fs q d) l = payloads fs l.
Proof.
  intros H. unfold payloads. f_equal. apply map_ext_in.
  intros pe Hin. apply stored_fs_store. auto.
Qed.

End WrittenFields.

(* ------------------------------------------------------------------ *)
(** *** Extraction depends on the bytes of the entry only *)

Lemma window_skip d p E k :
  (p + k <= E)%nat ->
  skipn k (window d p E) = window d (p + k) E.
Proof.
  intros H. unfold window. rewrite skipn_firstn_comm, skipn_skipn.
  f_equal; [lia|]. f_equal. lia.
Qed.

Lemma window_inner (h b t : bytes) p E :
  (List.length h <= p)%nat -> (p <= E)%nat ->
  (E <= List.length h + List.length b)%nat ->
  window (h ++ b ++ t) p E
  = window b (p - List.length h) (E - List.length h).
Proof.
  intros H1 H2 H3. unfold window.
  replace p with (p - List.length h + List.length h)%nat at 2 by lia.
  rewrite <- skipn_skipn, skipn_app_length.
  rewrite skipn_app, firstn_app.
  rewrite length_skipn.
  replace (E - p - (List.length b - (p - List.length h)))%nat with 0%nat
    by lia.
  cbn [firstn]. rewrite app_nil_r. f_equal. lia.
Qed.

Section SameBytes.
Context {codec : zlib.Codec}.

Lemma extractFile_same r r' d d' p0 p0' entry buffer v S E :
  archive r = mk_clean d p0 ->
  archive r' = mk_clean d' p0' ->
  dataStart entry = Z.of_nat S ->
  dataEnd entry = Z.of_nat E ->
  (S <= E)%nat -> (E <= List.length d)%nat -> (E <= List.length d')%nat ->
  dataEnd entry < 2 ^ 63 ->
  window d S E = window d' S E ->
  run_map extracted (extractFile r entry buffer v)
  = run_map extracted (extractFile r' entry buffer v).
Proof.
  intros Ha Ha' Hs He HSE Hd Hd' Hb Hw.
  unfold extractFile, sizeInArchive. rewrite Ha, Ha', Hs, He.
  replace (Z.of_nat E - Z.of_nat S) with (Z.of_nat (E - S)) by lia.
  rewrite (uint64_small (Z.of_nat (E - S))) by lia.
  rewrite !int64_small by lia.
  rewrite !ifs_seekg_clean by lia.
  rewrite !ifs_read_clean_full by (rewrite ?length_skipn; lia).
  rewrite !Nat2Z.id.
  change (firstn (E - S) (skipn S d)) with (window d S E).
  change (firstn (E - S) (skipn S d')) with (window d' S E).
  rewrite <- Hw. rewrite !ifs_tellg_clean.
  destruct (buffer_store buffer 0 (window d S E)) as [buf|];
    [|reflexivity].
  destruct (List.length buf <? Z.to_nat (uint32 (Z.of_nat (E - S))))%nat;
    [reflexivity|].
  destruct (v && negb (uint32 (zlib.crc32 0
              (firstn (Z.to_nat (uint32 (Z.of_nat (E - S)))) buf))
              =? crc32 entry));
    reflexivity.
Qed.

Lemma zlibExtractFile_loop_same d d' entry v E :
  dataEnd entry = Z.of_nat E ->
  dataEnd entry < 2 ^ 63 ->
  (E <= List.length d)%nat -> (E <= List.length d')%nat ->
  forall fuel p r r' inb crc strm ao no buffer,
    (p <= E)%nat ->
    window d p E = window d' p E ->
    run_map (fun x => (fst x, extracted (snd x)))
      (zlibExtractFile_loop fuel entry v
         (mk_loop_state (set_archive r (mk_clean d p)) inb crc strm ao no
                        buffer))
    = run_map (fun x => (fst x, extracted (snd x)))
        (zlibExtractFile_loop fuel entry v
           (mk_loop_state (set_archive r' (mk_clean d' p)) inb crc strm ao no
                          buffer)).
Proof.
  intros HE Hb Hd Hd'.
  pose proof CHUNKSIZE_pos as Cp. pose proof CHUNKSIZE_small as Cs.
  induction fuel as [|fuel IH];
    intros p r r' inb crc strm ao no buffer Hp Hw; [reflexivity|].
  cbn [zlibExtractFile_loop ls_reader ls_in ls_crc ls_strm ls_avail_out
       ls_next_out ls_buffer].
  cbn [archive set_archive]. rewrite !ifs_tellg_clean.
  rewrite (uint64_small (Z.of_nat p)) by lia.
  rewrite (uint64_small (Z.of_nat p + CHUNKSIZE)) by lia.
  rewrite HE.
  assert (Hread : forall n,
            (p + n <= E)%nat ->
            firstn n (skipn p d') = firstn n (skipn p d)
            /\ (n <= List.length (skipn p d))%nat
            /\ (n <= List.length (skipn p d'))%nat
            /\ window d (p + n) E = window d' (p + n) E).
  { intros n Hn.
    destruct (window_read d p E p n) as [W1 L1]; try lia.
    destruct (window_read d' p E p n) as [W2 L2]; try lia.
    rewrite W1, W2, Hw. repeat split; try assumption.
    rewrite <- !window_skip by lia. rewrite Hw. reflexivity. }
  set (ab := if Z.of_nat p + CHUNKSIZE <? Z.of_nat E then CHUNKSIZE
             else uint64 (Z.of_nat E - Z.of_nat p)).
  assert (Hab : 0 <= ab < 2 ^ 32 /\ (p + Z.to_nat ab <= E)%nat).
  { unfold ab. destruct (Z.of_nat p + CHUNKSIZE <? Z.of_nat E) eqn:Ecmp.
    - apply Z.ltb_lt in Ecmp. lia.
    - apply Z.ltb_ge in Ecmp. rewrite uint64_small by lia. lia. }
  destruct Hab as [Hab1 Hab2]. clearbody ab.
  destruct (Hread (Z.to_nat ab) Hab2) as (Hg & Hl & Hl' & Hw').
  rewrite int64_small by lia.
  rewrite !ifs_read_clean_full by lia.
  rewrite Hg.
  set (got := firstn (Z.to_nat ab) (skipn p d)).
  destruct (CHUNKSIZE <? Z.of_nat (List.length got)); [reflexivity|].
  cbn [bad mk_clean badbit].
  destruct (List.length (overlay got inb) <? Z.to_nat (uint32 ab))%nat;
    [reflexivity|].
  destruct (zlib.inflate strm
              (firstn (Z.to_nat (uint32 ab)) (overlay got inb)) ao)
    as [[rc strm'] o].
  destruct (ao <? List.length o)%nat; [reflexivity|].
  destruct (buffer_store buffer no o) as [buf|]; [|reflexivity].
  destruct rc; try reflexivity;
    try (apply IH; [lia|exact Hw']).
  destruct (v && negb (uint32 (zlib.crc32 crc
              (firstn (Z.to_nat (uint32 ab)) (overlay got inb)))
              =? crc32 entry));
    reflexivity.
Qed.

Lemma bind_run_map {A B C} (f : A -> B) (c : run A) (k : B -> run C) :
  bind (run_map f c) k = bind c (fun x => k (f x)).
Proof. destruct c; reflexivity. Qed.

Lemma run_map_bind {A B C} (f : B -> C) (c : run A) (k : A -> run B) :
  run_map f (bind c k) = bind c (fun x => run_map f (k x)).
Proof. destruct c; reflexivity. Qed.

Lemma bind_ext {A B} (c : run A) (k k' : A -> run B) :
  (forall x, k x = k' x) -> bind c k = bind c k'.
Proof. intros H. destruct c; cbn; auto. Qed.

Lemma getFileFromEntry_same r r' d d' p0 p0' entry buffer v S E fuel :
  archive r = mk_clean d p0 ->
  archive r' = mk_clean d' p0' ->
  dataStart entry = Z.of_nat S ->
  dataEnd entry = Z.of_nat E ->
  (S <= E)%nat -> (E <= List.length d)%nat -> (E <= List.length d')%nat ->
  dataEnd entry < 2 ^ 63 ->
  window d S E = window d' S E ->
  run_map extracted (getFileFromEntry fuel r entry buffer v)
  = run_map extracted (getFileFromEntry fuel r' entry buffer v).
Proof.
  intros Ha Ha' Hs He HSE Hd Hd' Hb Hw. unfold getFileFromEntry.
  destruct (Byte.eqb (compressionMethod entry) NONE).
  { apply (extractFile_same r r' d d' p0 p0' entry buffer v S E);
      assumption. }
  destruct (Byte.eqb (compressionMethod entry) ZLIB); [|reflexivity].
  unfold zlibExtractFile, zlibExtractFile_from.
  rewrite Ha, Ha', Hs. rewrite !int64_small by lia.
  rewrite !ifs_seekg_clean by lia. rewrite Nat2Z.id.
  destruct zlib.inflateInit as [rc strm].
  destruct (negb (zlib.ret_code_eqb rc zlib.Z_OK)); [reflexivity|].
  rewrite !run_map_bind.
  pose proof (zlibExtractFile_loop_same d d' entry v E He Hb Hd Hd'
                fuel S r r' [] 0 strm
                (Z.to_nat (uint32 (originalSize entry))) 0%nat buffer
                HSE Hw) as Hsim.
  unfold run_map in Hsim.
  destruct (zlibExtractFile_loop fuel entry v
              (mk_loop_state (set_archive r (mk_clean d S)) [] 0 strm
                 (Z.to_nat (uint32 (originalSize entry))) 0 buffer))
    as [[s1 x1]| | | |];
    destruct (zlibExtractFile_loop fuel entry v
                (mk_loop_state (set_archive r' (mk_clean d' S)) [] 0 strm
                   (Z.to_nat (uint32 (originalSize entry))) 0 buffer))
      as [[s2 x2]| | | |];
    cbn [bind fst snd run_map] in Hsim |- *;
    try discriminate Hsim; try reflexivity.
  - injection Hsim as _ Hx Hn. unfold extracted. rewrite Hx, Hn.
    reflexivity.
  - injection Hsim as ->. reflexivity.
Qed.

(** [getFile] of a name gives the same bytes in two files that hold the
    same entry for it and the same bytes where the entry says. *)
Lemma getFile_same q q' D D' p0 p0' ver ver' T T' idx idx' n e S E fuel :
  map_find String.ltb n idx = Some e ->
  map_find String.ltb n idx' = Some e ->
  dataStart e = Z.of_nat S ->
  dataEnd e = Z.of_nat E ->
  (S <= E)%nat -> (E <= List.length D)%nat -> (E <= List.length D')%nat ->
  dataEnd e < 2 ^ 63 ->
  window D S E = window D' S E ->
  run_map snd
    (getFile fuel (mk_Reader q (mk_clean D p0) ver T idx true false) n)
  = run_map snd
      (getFile fuel (mk_Reader q' (mk_clean D' p0') ver' T' idx' true false)
               n).
Proof.
  intros Hf Hf' Hs He HSE Hd Hd' Hb Hw. unfold getFile.
  cbn [openFlag badFlag negb orb].
  set (r := mk_Reader q (mk_clean D p0) ver T idx true false).
  set (r' := mk_Reader q' (mk_clean D' p0') ver' T' idx' true false).
  assert (Hc : contains r n = true).
  { apply contains_find. unfold r. cbn [entries]. rewrite Hf. discriminate. }
  assert (Hc' : contains r' n = true).
  { apply contains_find. unfold r'. cbn [entries]. rewrite Hf'.
    discriminate. }
  rewrite Hc, Hc'. cbn [negb].
  unfold getFileEntry. cbn [openFlag badFlag negb orb entries r r'].
  rewrite Hf, Hf'. cbn [bind].
  set (K := fun x : bytes * Z =>
              Returns (if negb (snd x =? 0) then fst x else [])).
  fold r r'.
  rewrite !run_map_bind.
  rewrite (bind_ext _ _ (fun x => K (extracted x))).
  2:{ intros [[r1 dest] written]. unfold K, extracted. cbn [fst snd].
      destruct (negb (written =? 0)); reflexivity. }
  rewrite (bind_ext (getFileFromEntry fuel r' _ _ _) _
             (fun x => K (extracted x))).
  2:{ intros [[r1 dest] written]. unfold K, extracted. cbn [fst snd].
      destruct (negb (written =? 0)); reflexivity. }
  rewrite <- (bind_run_map extracted (getFileFromEntry fuel r e _ true) K).
  rewrite <- (bind_run_map extracted (getFileFromEntry fuel r' e _ true) K).
  rewrite (getFileFromEntry_same r r' D D' p0 p0' e _ true S E fuel
             eq_refl eq_refl Hs He HSE Hd Hd' Hb Hw).
  reflexivity.
Qed.

End SameBytes.

(* ================================================================== *)
(** ** closeArchive, and readers whose table did not load *)

Lemma closeArchive_open r :
  openFlag r = true -> closeArchive r = (r, false).
Proof. intros H. unfold closeArchive. rewrite H. reflexivity. Qed.

Lemma closeArchive_not_open r :
  openFlag r = false ->
  snd (closeArchive r) = true
  /\ is_open (archive (fst (closeArchive r))) = false.
Proof.
  intros H. unfold closeArchive. rewrite H. cbn.
  split; auto. unfold ifs_close. destruct (is_open (archive r)) eqn:E; auto.
Qed.

Lemma sample_empty_reader :
  DatArchiveReader_new sample_fs "empty.dat"
  = loaded_reader "empty.dat" empty_archive 13 [].
Proof.
  unfold DatArchiveReader_new.
  rewrite (openArchive_header sample_fs "empty.dat" "empty.dat"
             empty_archive 13 []); [reflexivity|reflexivity| |lia].
  unfold empty_archive. rewrite app_nil_r. reflexivity.
Qed.

(** C3.  On a reader that has just opened an archive, [closeArchive]
    reports failure and releases nothing: the reader stays open and so
    does its stream.  On a reader that is not open, the first and every
    later call report success.  The test of [openFlag] is the wrong way
    round. *)
Theorem closeArchive_on_open_reader :
  let r := DatArchiveReader_new sample_fs "empty.dat" in
  isOpen r = true
  /\ closeArchive r = (r, false)
  /\ is_open (archive (fst (closeArchive r))) = true
  /\ (let never := DatArchiveReader_initial "empty.dat" in
      isOpen never = false
      /\ snd (closeArchive never) = true
      /\ snd (closeArchive (fst (closeArchive never))) = true).
Proof.
  cbv zeta. rewrite sample_empty_reader. repeat split.
Qed.

(** A header whose table offset is zero: the table is not loaded, and
    the reader is left open and not bad. *)
Lemma openArchive_table_offset_zero fs p q rest :
  fs p = Some (header_bytes 0 ++ rest) ->
  openArchive (DatArchiveReader_initial q) fs p
  = (mk_Reader q (mk_clean (header_bytes 0 ++ rest) 0) DATFILEVERSION 0 []
       true false, false).
Proof.
  intros Hfs. unfold openArchive, exists_. rewrite Hfs.
  cbn [negb andb]. unfold DatArchiveReader_initial.
  cbn [set_openFlag set_badFlag set_archive archive archivePath
       archiveVersion tableOffset entries openFlag badFlag].
  unfold ifs_open. cbn [closed_ifstream is_open].
  reflexivity.
Qed.

(** C4.  Opening the 13 bytes that [writeHeader] writes (a valid
    signature and version, table offset zero) fails, and the reader is
    left open with an empty index and with [isBad()] false.  The queries
    that look at the index find nothing; [getFileEntry] throws. *)
Theorem open_header_only_is_not_bad :
  let opened := openArchive (DatArchiveReader_initial "header.dat")
                  sample_fs "header.dat" in
  let r := fst opened in
  snd opened = false
  /\ isOpen r = true
  /\ isBad r = false
  /\ size r = 0%nat
  /\ contains r "Test" = false
  /\ listFiles r = []
  /\ getFile (codec := toy_codec) 1 r "Test" = Returns (r, [])
  /\ getFileEntry r "Test" = Throws std_out_of_range.
Proof.
  cbv zeta.
  rewrite (openArchive_table_offset_zero sample_fs "header.dat" "header.dat" []).
  2:{ unfold sample_fs, header_only. rewrite app_nil_r. reflexivity. }
  repeat split.
Qed.

(* ================================================================== *)
(** ** Exceptions *)

Lemma never_throws_bind {A B} (c : run A) (k : A -> run B) :
  never_throws c -> (forall a, never_throws (k a)) ->
  never_throws (bind c k).
Proof.
  intros Hc Hk e. destruct c; cbn; try discriminate.
  - apply Hk.
  - intros _. apply (Hc e0). reflexivity.
Qed.

Lemma never_throws_Returns {A} (a : A) : never_throws (Returns a).
Proof. intros e; discriminate. Qed.

Lemma getFileEntry_missing r n :
  isOpen r = true -> isBad r = false -> contains r n = false ->
  getFileEntry r n = Throws std_out_of_range.
Proof.
  unfold isOpen, isBad. intros Ho Hb Hc. unfold getFileEntry.
  rewrite Ho, Hb. cbn [negb orb].
  apply contains_false_find in Hc. rewrite Hc. reflexivity.
Qed.


Ltac nt_step :=
  match goal with
  | |- never_throws (Returns _) => intros ?; discriminate
  | |- never_throws Aborts => intros ?; discriminate
  | |- never_throws Undefined => intros ?; discriminate
  | |- never_throws Unfinished => intros ?; discriminate
  | |- never_throws (bind _ _) => apply never_throws_bind; [|intros]
  | |- never_throws (let '(_, _) := ?x in _) => destruct x
  | |- never_throws (if ?b then _ else _) => destruct b
  | |- never_throws (match ?x with _ => _ end) => destruct x
  end.

Section NoExceptions.
Context {codec : zlib.Codec}.

Lemma extractFile_never_throws r entry buffer v :
  never_throws (extractFile r entry buffer v).
Proof. unfold extractFile. repeat nt_step. Qed.

Lemma zlibExtractFile_loop_never_throws fuel entry v st :
  never_throws (zlibExtractFile_loop fuel entry v st).
Proof.
  revert st. induction fuel as [|fuel IH]; intros st;
    cbn [zlibExtractFile_loop]; [nt_step|].
  repeat first [apply IH | nt_step].
Qed.

Lemma getFileFromEntry_never_throws fuel r entry buffer v :
  never_throws (getFileFromEntry fuel r entry buffer v).
Proof.
  unfold getFileFromEntry, zlibExtractFile, zlibExtractFile_from.
  repeat first [apply extractFile_never_throws
               | apply zlibExtractFile_loop_never_throws
               | nt_step].
Qed.

Lemma getFileEntry_present r n :
  isOpen r = true -> isBad r = false -> contains r n = true ->
  exists e, map_find String.ltb n (entries r) = Some e
            /\ getFileEntry r n = Returns e.
Proof.
  unfold isOpen, isBad. intros Ho Hb Hc. unfold getFileEntry.
  rewrite Ho, Hb. cbn [negb orb].
  apply contains_find in Hc.
  destruct (map_find String.ltb n (entries r)) as [e|]; [|congruence].
  exists e. auto.
Qed.

Lemma getFile_never_throws fuel r n : never_throws (getFile fuel r n).
Proof.
  unfold getFile.
  destruct (openFlag r) eqn:Ho; cbn [negb orb]; [|nt_step].
  destruct (badFlag r) eqn:Hb; [nt_step|].
  destruct (contains r n) eqn:Hc; cbn [negb]; [|nt_step].
  destruct (getFileEntry_present r n Ho Hb Hc) as (e & _ & ->).
  cbn [bind].
  repeat first [apply getFileFromEntry_never_throws | nt_step].
Qed.

Lemma getFileRaw_never_throws fuel r n buffer :
  never_throws (getFileRaw fuel r n buffer).
Proof.
  unfold getFileRaw.
  destruct (openFlag r) eqn:Ho; cbn [negb orb]; [|nt_step].
  destruct (badFlag r) eqn:Hb; [nt_step|].
  destruct (contains r n) eqn:Hc; cbn [negb]; [|nt_step].
  destruct (getFileEntry_present r n Ho Hb Hc) as (e & _ & ->).
  cbn [bind]. apply getFileFromEntry_never_throws.
Qed.

Lemma writeFileToArchive_loop_never_throws fuel file archiveFile crc :
  never_throws (writeFileToArchive_loop fuel file archiveFile crc).
Proof.
  revert file archiveFile crc.
  induction fuel as [|fuel IH]; intros; cbn [writeFileToArchive_loop];
    repeat first [apply IH | nt_step].
Qed.

Lemma zlibCompress_loop_never_throws fuel strm file archiveFile crc :
  never_throws (zlibCompress_loop fuel strm file archiveFile crc).
Proof.
  revert strm file archiveFile crc.
  induction fuel as [|fuel IH]; intros; cbn [zlibCompress_loop];
    repeat first [apply IH | nt_step].
Qed.

Lemma writeFiles_step_never_throws fs p entry archiveFile :
  never_throws (writeFiles_step fs p entry archiveFile).
Proof.
  unfold writeFiles_step, writeFileToArchive, zlibCompressFileToArchive.
  repeat first [apply writeFileToArchive_loop_never_throws
               | apply zlibCompress_loop_never_throws
               | nt_step].
Qed.

Lemma writeFiles_never_throws w fs archiveFile :
  never_throws (writeFiles w fs archiveFile).
Proof.
  unfold writeFiles. nt_step; [|repeat nt_step].
  generalize (fileEntries w) as l. intros l. revert archiveFile.
  induction l as [|[p e] l IH]; intros; cbn [writeFiles_loop].
  - nt_step.
  - repeat first [apply writeFiles_step_never_throws | apply IH | nt_step].
Qed.

Lemma writeArchive_never_throws path_ltb w fs destination overwrite :
  never_throws (writeArchive path_ltb w fs destination overwrite).
Proof.
  unfold writeArchive, writeArchive_stream.
  repeat first [apply writeFiles_never_throws | nt_step].
Qed.

Lemma appendArchive_never_throws w fs destination :
  never_throws (appendArchive w fs destination).
Proof.
  unfold appendArchive.
  repeat first [apply writeFiles_never_throws | nt_step].
Qed.

End NoExceptions.



(* ================================================================== *)
(** ** zlibExtractFile and the bad flag *)

Section ExtractSites.
Context {codec : zlib.Codec}.

Definition site_post (before : DatArchiveReader) (site : return_site)
  (r' : DatArchiveReader) (n : Z) : Prop :=
  match site with
  | after_inflate rc =>
      zlib.is_inflate_error rc = true /\ n = 0 /\ isBad r' = false
  | after_read => n = 0 /\ isBad r' = true /\ bad (archive r') = true
  | after_inflateInit => n = 0 /\ isBad r' = isBad before
  | after_loop _ => isBad r' = isBad before
  end.

Lemma zlibExtractFile_loop_sites fuel entry v st site r' buf n :
  zlibExtractFile_loop fuel entry v st = Returns (site, (r', buf, n)) ->
  site <> after_inflateInit /\ site_post (ls_reader st) site r' n.
Proof.
  revert st. induction fuel as [|fuel IH]; intros st H;
    cbn [zlibExtractFile_loop] in H; [discriminate H|].
  repeat break_match_hyp H; try discriminate H;
    lazymatch type of H with
    | Returns _ = Returns _ =>
        inversion H; subst; clear H;
        cbn [site_post isBad badFlag set_badFlag set_archive archive
             zlib.is_inflate_error];
        repeat split; auto; intros E; discriminate E
    | _ =>
        apply IH in H; cbn [ls_reader] in H;
        destruct H as [H1 H2]; split; [exact H1|];
        destruct site;
        cbn [site_post isBad badFlag set_badFlag set_archive archive] in *;
        auto
    end.
Qed.

End ExtractSites.



(* ================================================================== *)
(** ** getFile *)

Lemma buffer_store_length buf off bs buf' :
  buffer_store buf off bs = Some buf' -> List.length buf' = List.length buf.
Proof.
  unfold buffer_store.
  destruct (off + List.length bs <=? List.length buf)%nat eqn:E;
    [|discriminate].
  apply Nat.leb_le in E. intros H. inversion H; subst.
  rewrite !length_app, length_firstn, length_skipn. lia.
Qed.

Section GetFile.
Context {codec : zlib.Codec}.

Lemma extractFile_length r entry buffer v r' dest written :
  extractFile r entry buffer v = Returns (r', dest, written) ->
  List.length dest = List.length buffer.
Proof.
  unfold extractFile. intros H.
  repeat break_match_hyp H; try discriminate H;
    inversion H; subst; eapply buffer_store_length; eassumption.
Qed.

Lemma extractFile_crc r entry buffer r' dest written :
  extractFile r entry buffer true = Returns (r', dest, written) ->
  uint32 (zlib.crc32 0
            (firstn (Z.to_nat (uint32 (sizeInArchive entry))) dest))
  <> crc32 entry ->
  written = 0.
Proof.
  unfold extractFile. intros H Hc.
  repeat break_match_hyp H; try discriminate H; inversion H; subst; auto.
  cbn [andb] in *.
  apply negb_false_iff, Z.eqb_eq in Heqb0. contradiction.
Qed.

Lemma zlibExtractFile_loop_length fuel entry v st site r' dest written :
  zlibExtractFile_loop fuel entry v st = Returns (site, (r', dest, written)) ->
  List.length dest = List.length (ls_buffer st).
Proof.
  revert st. induction fuel as [|fuel IH]; intros st H;
    cbn [zlibExtractFile_loop] in H; [discriminate H|].
  repeat break_match_hyp H; try discriminate H;
    lazymatch type of H with
    | Returns _ = Returns _ =>
        inversion H; subst; clear H;
        first [reflexivity | eapply buffer_store_length; eassumption]
    | _ =>
        apply IH in H; cbn [ls_buffer] in H; rewrite H;
        eapply buffer_store_length; eassumption
    end.
Qed.

Lemma zlibExtractFile_loop_written fuel entry st site r' dest written :
  zlibExtractFile_loop fuel entry true st
  = Returns (site, (r', dest, written)) ->
  match site with
  | after_loop c =>
      (c <> crc32 entry -> written = 0)
      /\ (c = crc32 entry -> written = originalSize entry)
  | _ => written = 0
  end.
Proof.
  revert st. induction fuel as [|fuel IH]; intros st H;
    cbn [zlibExtractFile_loop] in H; [discriminate H|].
  repeat break_match_hyp H; try discriminate H;
    lazymatch type of H with
    | Returns _ = Returns _ =>
        inversion H; subst; clear H; cbn [andb] in *; auto;
        match goal with
        | E : negb (_ =? _) = true |- _ =>
            apply negb_true_iff, Z.eqb_neq in E; split; congruence
        | E : negb (_ =? _) = false |- _ =>
            apply negb_false_iff, Z.eqb_eq in E; split; congruence
        end
    | _ => apply IH in H; exact H
    end.
Qed.

Lemma getFileFromEntry_length fuel r entry buffer v r' dest written :
  getFileFromEntry fuel r entry buffer v = Returns (r', dest, written) ->
  List.length dest = List.length buffer.
Proof.
  unfold getFileFromEntry, zlibExtractFile, zlibExtractFile_from.
  intros H. repeat break_match_hyp H; try discriminate H.
  - eapply extractFile_length; eassumption.
  - inversion H; subst. reflexivity.
  - cbn [bind] in H.
    destruct (zlibExtractFile_loop _ _ _ _) as [[site [[r1 d1] w1]]| | | |]
      eqn:E; try discriminate.
    cbn in H. inversion H; subst.
    apply zlibExtractFile_loop_length in E. exact E.
  - inversion H; subst. reflexivity.
Qed.

End GetFile.



(* ================================================================== *)
(** ** A table that ends inside a record *)

Lemma skipn_nil_of_short {A} n (l : list A) :
  (List.length l <= n)%nat -> skipn n l = [].
Proof. intros H. apply skipn_all2. exact H. Qed.

(** The fields that lie wholly beyond the end of the bytes keep their
    initial values. *)
Lemma decode_entry_defaults L body :
  let n := Z.to_nat L in
  let e := decode_entry L body in
  ((List.length body <= n)%nat -> compressionMethod e = NONE)
  /\ ((List.length body <= n + 1)%nat -> fileFlags e = mk_Flags false)
  /\ ((List.length body <= n + 2)%nat -> crc32 e = 0)
  /\ ((List.length body <= n + 6)%nat -> originalSize e = 0)
  /\ ((List.length body <= n + 14)%nat -> dataStart e = 0)
  /\ ((List.length body <= n + 22)%nat -> dataEnd e = 0).
Proof.
  cbv zeta. unfold decode_entry.
  cbn [compressionMethod fileFlags crc32 originalSize dataStart dataEnd].
  repeat rewrite skipn_skipn.
  repeat split; intros H;
    rewrite skipn_nil_of_short by lia; reflexivity.
Qed.

Lemma parse_table_truncated fuel L rest idx :
  0 <= L < 2 ^ 16 ->
  (List.length rest < Z.to_nat L + 30)%nat ->
  parse_table (S (S fuel)) (le_encode 2 L ++ rest) idx
  = map_emplace String.ltb (name (decode_entry L rest))
      (decode_entry L rest) idx.
Proof.
  intros HL Hr. cbn [parse_table].
  replace (List.length (le_encode 2 L ++ rest) <? 2)%nat with false.
  2:{ symmetry. apply Nat.ltb_ge. rewrite length_app, length_le_encode. lia. }
  rewrite (firstn_app_exact _ _ _ (length_le_encode 2 L)).
  rewrite (skipn_app_exact _ _ _ (length_le_encode 2 L)).
  rewrite le_decode_encode. change (8 * Z.of_nat 2) with 16.
  rewrite Z.mod_small by lia.
  repeat rewrite skipn_skipn.
  rewrite skipn_nil_of_short by lia.
  reflexivity.
Qed.

(** C10.  Let the bytes from the table offset to the end of the file be
    the records of [es] followed by a name length [L] and fewer than the
    [L + 30] bytes that complete a record.  [loadTable] returns true, and
    the index it leaves is the index of [es] with the entry decoded from
    the bytes that are there passed to [emplace] under its name (so it is
    inserted unless that name is present already); the fields that lie
    beyond the end of the file have their default values. *)
Theorem loadTable_truncated_record :
  forall q d p v T idx o b es L rest,
    0 < T < 2 ^ 63 ->
    skipn (Z.to_nat T) d = table_bytes es ++ le_encode 2 L ++ rest ->
    Forall wf_entry es ->
    0 <= L < 2 ^ 16 ->
    (List.length rest < Z.to_nat L + 30)%nat ->
    let r := mk_Reader q (mk_clean d p) v T idx o b in
    let partial := decode_entry L rest in
    let n := Z.to_nat L in
    snd (loadTable r) = true
    /\ entries (fst (loadTable r))
       = map_emplace String.ltb (name partial) partial (emplace_all es idx)
    /\ (map_find String.ltb (name partial) (emplace_all es idx) = None ->
        map_find String.ltb (name partial) (entries (fst (loadTable r)))
        = Some partial)
    /\ ((List.length rest <= n)%nat -> compressionMethod partial = NONE)
    /\ ((List.length rest <= n + 1)%nat -> fileFlags partial = mk_Flags false)
    /\ ((List.length rest <= n + 2)%nat -> crc32 partial = 0)
    /\ ((List.length rest <= n + 6)%nat -> originalSize partial = 0)
    /\ ((List.length rest <= n + 14)%nat -> dataStart partial = 0)
    /\ ((List.length rest <= n + 22)%nat -> dataEnd partial = 0).
Proof.
  intros q d p v T idx o b es L rest HT Hd Hwf HL Hr. cbv zeta.
  rewrite loadTable_clean by assumption. cbn [fst snd entries].
  assert (Hp : parse_table (S (List.length d)) (skipn (Z.to_nat T) d) idx
               = map_emplace String.ltb (name (decode_entry L rest))
                   (decode_entry L rest) (emplace_all es idx)).
  { rewrite Hd.
    assert (Hlen : (List.length es + 2 <= S (List.length d))%nat).
    { pose proof (length_table_bytes es Hwf) as H1.
      assert (H2 : (List.length (skipn (Z.to_nat T) d) <= List.length d)%nat)
        by (rewrite length_skipn; lia).
      rewrite Hd, !length_app, length_le_encode in H2. lia. }
    replace (S (List.length d))
      with (List.length es + S (S (List.length d - List.length es - 1)))%nat
      by lia.
    rewrite parse_table_entries by assumption.
    apply parse_table_truncated; assumption. }
  rewrite Hp.
  split; [reflexivity|]. split; [reflexivity|]. split.
  - intros Hn. apply map_find_emplace_new; auto using string_equivb_refl.
  - apply (decode_entry_defaults L rest).
Qed.

(** The theorem at a table of four bytes: the entry is found under the
    name [ab] padded with two NUL characters, with every other field at
    its default. *)
Lemma loadTable_truncated_record_witness :
  let r := mk_Reader "t.dat" (mk_clean truncated_archive 0) 1 13 [] true
             false in
  snd (loadTable r) = true
  /\ map_find String.ltb
       (String "a" (String "b" (String "000" (String "000" EmptyString))))
       (entries (fst (loadTable r)))
     = Some (mk_TableEntry
               (String "a" (String "b" (String "000" (String "000"
                                                        EmptyString))))
               NONE (mk_Flags false) 0 0 0 0).
Proof.
  cbv zeta.
  pose proof (loadTable_truncated_record "t.dat" truncated_archive 0 1 13 []
                true false [] 4 [x61; x62]) as H.
  cbv zeta in H.
  destruct H as (H1 & _ & H3 & _).
  - lia.
  - reflexivity.
  - constructor.
  - lia.
  - cbn. lia.
  - split; [exact H1|]. apply H3. reflexivity.
Defined.

(* ================================================================== *)
(** ** writeArchive over an existing destination *)

Lemma filter_idempotent {A} (f : A -> bool) (l : list A) :
  filter f (filter f l) = filter f l.
Proof.
  induction l as [|x l IH]; cbn; auto.
  destruct (f x) eqn:E; cbn; rewrite ?E, IH; reflexivity.
Qed.

(** C9.  With [overwrite] true and an existing destination, [writeArchive]
    calls its own [removeFile] on the queue: the entries queued under the
    destination path leave the queue, every other entry stays as it is,
    and the archive is the one that would be written had they never been
    queued; the queue that remains afterwards has the other paths, in
    their order. *)
Theorem writeArchive_overwrite_unqueues_destination :
  forall (codec : zlib.Codec) (path_ltb : path -> path -> bool)
         (w : DatArchiveWriter) (fs : filesystem) (destination : path),
    (forall p, path_ltb p p = false) ->
    exists_ fs destination = true ->
    let kept :=
      mk_Writer
        (filter (fun pe => negb (equivb path_ltb destination (fst pe)))
                (fileEntries w)) in
    fst (removeFile path_ltb w destination) = kept
    /\ (forall entry, ~ In (destination, entry) (fileEntries kept))
    /\ (forall p entry,
          equivb path_ltb destination p = false ->
          In (p, entry) (fileEntries w) -> In (p, entry) (fileEntries kept))
    /\ writeArchive path_ltb w fs destination true
       = writeArchive_stream kept fs destination
    /\ writeArchive path_ltb w fs destination true
       = writeArchive path_ltb kept fs destination true
    /\ (forall w' fs' ok,
          writeArchive path_ltb w fs destination true
          = Returns (w', fs', ok) ->
          ok = true
          /\ map fst (fileEntries w') = map fst (fileEntries kept)).
Proof.
  intros codec path_ltb w fs destination Hirr Hex. cbv zeta.
  assert (Hrm : fst (removeFile path_ltb w destination)
                = mk_Writer
                    (filter (fun pe =>
                               negb (equivb path_ltb destination (fst pe)))
                            (fileEntries w)))
    by reflexivity.
  assert (Hw : writeArchive path_ltb w fs destination true
               = writeArchive_stream
                   (mk_Writer
                      (filter (fun pe =>
                                 negb (equivb path_ltb destination (fst pe)))
                              (fileEntries w))) fs destination).
  { unfold writeArchive. rewrite Hex, Hrm. reflexivity. }
  split; [exact Hrm|]. split; [|split; [|split; [exact Hw|split]]].
  - intros entry Hin. cbn [fileEntries] in Hin.
    apply filter_In in Hin. destruct Hin as [_ Hin]. cbn [fst] in Hin.
    unfold equivb in Hin. rewrite Hirr in Hin. discriminate Hin.
  - intros p entry Hne Hin. cbn [fileEntries].
    apply filter_In. split; [exact Hin|]. cbn [fst]. rewrite Hne. reflexivity.
  - rewrite Hw. unfold writeArchive. rewrite Hex.
    unfold removeFile, map_erase. cbn [fst fileEntries].
    rewrite filter_idempotent. reflexivity.
  - intros w' fs' ok H. rewrite Hw in H. unfold writeArchive_stream in H.
    bind_inv H. destruct a as [w1 s1]. inversion H; subst; clear H.
    split; [reflexivity|].
    unfold writeFiles in Ha. bind_inv Ha. destruct a as [l1 s2].
    inversion Ha; subst; clear Ha.
    apply writeFiles_loop_keeps in Ha0. destruct Ha0 as [P _].
    exact P.
Qed.

(** The theorem at a queue that holds the destination itself: the entry
    "Old" is not in the queue that is written. *)
Lemma writeArchive_overwrite_unqueues_destination_witness :
  exists_ overwrite_fs "out.dat" = true
  /\ writeArchive (codec := toy_codec) String.ltb overwrite_writer
       overwrite_fs "out.dat" true
     = writeArchive_stream (codec := toy_codec)
         (mk_Writer [("a.txt"%string, TableEntry_new "Test" NONE (mk_Flags false))])
         overwrite_fs "out.dat".
Proof.
  split; [reflexivity|].
  apply (writeArchive_overwrite_unqueues_destination toy_codec String.ltb
           overwrite_writer overwrite_fs "out.dat").
  - intros p. unfold String.ltb. rewrite string_compare_refl. reflexivity.
  - reflexivity.
Defined.

(* ================================================================== *)
(** ** Writing an archive and reading it back *)

Section RoundTrip.
Context {codec : zlib.Codec} {laws : zlib.CodecLaws codec}.
Variable path_ltb : path -> path -> bool.
Hypothesis path_equiv : forall a b, equivb path_ltb a b = true -> a = b.

Lemma not_queued_find (l : list (path * TableEntry)) q :
  (forall pe, In pe l -> fst pe <> q) -> map_find path_ltb q l = None.
Proof.
  induction l as [|[p e] l IH]; intros H; cbn [map_find]; [reflexivity|].
  destruct (equivb path_ltb q p) eqn:E.
  - apply path_equiv in E. exfalso. apply (H (p, e)); cbn; auto.
  - apply IH. intros pe Hin. apply H. right. exact Hin.
Qed.

(** [writeArchive] on a queue of fresh entries whose sources exist. *)
Lemma writeArchive_fresh fs queue destination overwrite :
  (forall pe, In pe queue -> fst pe <> destination) ->
  Forall (fun pe => 0 <= crc32 (snd pe) < 2 ^ 32) queue ->
  (exists_ fs destination = true -> overwrite = true) ->
  13 + Z.of_nat (List.length (payloads fs queue)) < 2 ^ 63 ->
  let fs1 := fs_store fs destination [] in
  let es := written_entries 13 fs1 queue in
  writeArchive path_ltb (mk_Writer queue) fs destination overwrite
  = Returns (mk_Writer es,
             fs_store fs1 destination
               (header_bytes (13 + Z.of_nat (List.length (payloads fs queue)))
                ++ payloads fs queue ++ table_bytes (map snd es)),
             true).
Proof.
  intros Hsrc Hcrc Hov Hb fs1 es.
  assert (HP : payloads fs1 queue = payloads fs queue)
    by (apply payloads_fs_store; exact Hsrc).
  assert (Hw : writeArchive path_ltb (mk_Writer queue) fs destination
                            overwrite
               = writeArchive_stream (mk_Writer queue) fs destination).
  { unfold writeArchive. destruct (exists_ fs destination); [|reflexivity].
    rewrite (Hov eq_refl). unfold removeFile. cbn [fst fileEntries].
    rewrite map_erase_absent; [reflexivity|].
    apply not_queued_find. exact Hsrc. }
  rewrite Hw.
  rewrite writeArchive_stream_spec; cbn [fileEntries]; fold fs1;
    rewrite ?HP; auto.
Qed.

End RoundTrip.

Section RoundTripEntries.
Context {codec : zlib.Codec} {laws : zlib.CodecLaws codec}.

(** What the reader of a file [header ++ payloads ++ table] gives for a
    queued file. *)
Lemma written_archive_entry q fs T idx l1 p e l2 tail content :
  let queue := l1 ++ (p, e) :: l2 in
  let D := header_bytes T ++ payloads fs queue ++ tail in
  let e' := written_entry (13 + Z.of_nat (List.length (payloads fs l1)))
                          fs (p, e) in
  let r := loaded_reader q D T idx in
  13 + Z.of_nat (List.length (payloads fs queue)) < 2 ^ 63 ->
  fs p = Some content ->
  Z.of_nat (List.length content) < 2 ^ 32 ->
  crc32 e = 0 ->
  compressionMethod e = NONE \/ compressionMethod e = ZLIB ->
  map_find String.ltb (name e) idx = Some e' ->
  (getFileEntry r (name e) = Returns e'
   /\ crc32 e'
      = zlib.crc32 0 (window D (Z.to_nat (dataStart e'))
                             (Z.to_nat (dataEnd e'))))
  /\ forall fuel p0,
       (List.length D < fuel)%nat ->
       exists p1,
         getFile fuel (reader_at r p0) (name e)
         = Returns (reader_at r p1, content).
Proof.
  intros queue D e' r Hb Hfs Hc Hcrc Hm Hfind.
  assert (Hq : payloads fs queue
               = payloads fs l1 ++ stored fs (p, e) ++ payloads fs l2).
  { unfold queue. rewrite payloads_app, payloads_cons. reflexivity. }
  assert (Hlen : List.length (payloads fs queue)
                 = (List.length (payloads fs l1)
                    + (List.length (stored fs (p, e))
                       + List.length (payloads fs l2)))%nat)
    by (rewrite Hq, !length_app; reflexivity).
  split.
  - split.
    + unfold getFileEntry, r, loaded_reader.
      cbn [openFlag badFlag negb orb entries]. rewrite Hfind. reflexivity.
    + destruct (written_entry_fields fs p e content
                  (13 + Z.of_nat (List.length (payloads fs l1)))
                  Hfs Hcrc Hm) as (Hs & He & _ & Hcr); try lia.
      fold e' in Hs, He, Hcr. rewrite Hs, He, Hcr. f_equal.
      set (pre := header_bytes T ++ payloads fs l1).
      assert (Hpre : Z.of_nat (List.length pre)
                     = 13 + Z.of_nat (List.length (payloads fs l1))).
      { unfold pre. rewrite length_app, length_header_bytes. lia. }
      rewrite <- Hpre, <- Nat2Z.inj_add, !Nat2Z.id.
      replace D with (pre ++ stored fs (p, e) ++ (payloads fs l2 ++ tail)).
      * symmetry. apply window_middle.
      * unfold D, pre. rewrite Hq. repeat rewrite <- app_assoc.
        reflexivity.
  - intros fuel p0 Hfuel.
    unfold reader_at, r, loaded_reader.
    cbn [set_archive archive contents mk_clean archivePath archiveVersion
         tableOffset entries openFlag badFlag].
    apply (getFile_written q D p0 DATFILEVERSION T idx fs l1 p e l2
             (header_bytes T) tail content fuel); auto.
    + rewrite length_header_bytes. fold queue. lia.
    + rewrite length_header_bytes.
      replace (Z.of_nat (13 + List.length (payloads fs l1)))
        with (13 + Z.of_nat (List.length (payloads fs l1))) by lia.
      exact Hfind.
Qed.

End RoundTripEntries.



(* ================================================================== *)
(** ** [appendArchive] *)

Lemma fs_seekp_at_pos d pos :
  0 <= pos -> (Z.to_nat pos <= List.length d)%nat ->
  at_pos (fs_seekp (mk_fstream d 0 false) pos)
         (firstn (Z.to_nat pos) d) (skipn (Z.to_nat pos) d).
Proof.
  intros H0 Hl. unfold fs_seekp, at_pos. cbn [ofailbit data ppos].
  replace (pos <? 0) with false by (symmetry; apply Z.ltb_ge; lia).
  cbn [ofailbit data ppos]. rewrite firstn_skipn, length_firstn.
  repeat split; lia.
Qed.

(** *** The sort of the old entries *)

Lemma sort_insert_perm e l : Permutation (sort_insert e l) (e :: l).
Proof.
  induction l as [|x l IH]; cbn [sort_insert]; [reflexivity|].
  destruct (dataStart e <? dataStart x); [reflexivity|].
  rewrite IH. apply perm_swap.
Qed.

Lemma sort_by_dataStart_perm l : Permutation (sort_by_dataStart l) l.
Proof.
  induction l as [|x l IH]; cbn [sort_by_dataStart fold_right];
    [reflexivity|].
  rewrite sort_insert_perm. constructor. exact IH.
Qed.

Lemma sort_insert_sorted e l :
  Sorted (fun a b => dataStart a <= dataStart b) l ->
  Sorted (fun a b => dataStart a <= dataStart b) (sort_insert e l).
Proof.
  induction l as [|x l IH]; intros Hs; cbn [sort_insert].
  - repeat constructor.
  - destruct (dataStart e <? dataStart x) eqn:E.
    + apply Z.ltb_lt in E. constructor; [exact Hs|]. constructor. lia.
    + apply Z.ltb_ge in E. inversion Hs as [|? ? Hs' Hhd]; subst.
      constructor; [apply IH; exact Hs'|].
      destruct l as [|y l]; cbn [sort_insert].
      * constructor. exact E.
      * destruct (dataStart e <? dataStart y).
        -- constructor. exact E.
        -- inversion Hhd; subst. constructor. assumption.
Qed.

Lemma sort_by_dataStart_sorted l :
  Sorted (fun a b => dataStart a <= dataStart b) (sort_by_dataStart l).
Proof.
  induction l as [|x l IH]; cbn [sort_by_dataStart fold_right].
  - constructor.
  - apply sort_insert_sorted. exact IH.
Qed.

(** *** Tables of the same entries have the same length *)

Lemma length_table_bytes_perm l l' :
  Permutation l l' ->
  List.length (table_bytes l) = List.length (table_bytes l').
Proof.
  unfold table_bytes.
  induction 1 as [|x l l' _ IH|x y l|l l' l'' _ IH1 _ IH2];
    cbn [map concat]; rewrite ?length_app; try lia.
Qed.

Lemma table_bytes_app l l' :
  table_bytes (l ++ l') = table_bytes l ++ table_bytes l'.
Proof. unfold table_bytes. rewrite map_app, concat_app. reflexivity. Qed.

(** *** The table a reader gives back *)

Lemma getTable_loaded q D T es :
  NoDup (map name es) ->
  Permutation (getTable (loaded_reader q D T (emplace_all es []))) es.
Proof.
  intros Hnd. unfold getTable, loaded_reader. cbn [entries].
  rewrite (Permutation_map snd
             (emplace_all_perm es [] Hnd (fun _ _ => eq_refl))).
  rewrite app_nil_r, map_map. cbn [snd]. rewrite map_id. reflexivity.
Qed.

(** *** The filter of the queue *)

Lemma named_nil_iff n l : named n l = [] <-> ~ In n (map name l).
Proof.
  unfold named. induction l as [|e l IH]; cbn [filter map In]; [tauto|].
  destruct (String.eqb (name e) n) eqn:E.
  - apply String.eqb_eq in E. split; [discriminate|]. intros H. tauto.
  - apply String.eqb_neq in E. rewrite IH. tauto.
Qed.

Lemma kept_queue_In old l pe :
  In pe (kept_queue old l)
  <-> In pe l /\ ~ In (name (snd pe)) (map name old).
Proof.
  unfold kept_queue. rewrite filter_In.
  rewrite <- named_nil_iff. unfold named.
  destruct (filter (fun entry => String.eqb (name entry) (name (snd pe)))
                   old); cbn; intuition discriminate.
Qed.

Lemma kept_queue_all old l :
  (forall pe, In pe l -> ~ In (name (snd pe)) (map name old)) ->
  kept_queue old l = l.
Proof.
  intros H. unfold kept_queue. induction l as [|pe l IH]; cbn [filter];
    [reflexivity|].
  assert (Hk : In pe (kept_queue old (pe :: l))).
  { apply kept_queue_In. split; [left; reflexivity|].
    apply H. left. reflexivity. }
  unfold kept_queue in Hk. cbn [filter] in Hk.
  destruct (List.length
              (filter (fun entry => String.eqb (name entry) (name (snd pe)))
                      old) =? 0)%nat eqn:E.
  - f_equal. apply IH. intros pe' Hin. apply H. right. exact Hin.
  - exfalso.
    assert (Hn : named (name (snd pe)) old = []).
    { apply named_nil_iff. apply H. left. reflexivity. }
    unfold named in Hn. rewrite Hn in E. discriminate E.
Qed.

Section AppendSpec.
Context {codec : zlib.Codec} {laws : zlib.CodecLaws codec}.

(** What [appendArchive] leaves in a well-formed archive: the payloads of
    the kept files over the old table, and then the old table, sorted,
    and the entries of the kept files. *)
Lemma appendArchive_spec fs queue destination T body es :
  fs destination = Some (header_bytes T ++ body ++ table_bytes es) ->
  T = 13 + Z.of_nat (List.length body) ->
  Forall wf_entry es ->
  NoDup (map name es) ->
  let old :=
    sort_by_dataStart
      (getTable (loaded_reader destination
                   (header_bytes T ++ body ++ table_bytes es) T
                   (emplace_all es []))) in
  let kept := kept_queue old queue in
  let P := payloads fs kept in
  let new := written_entries T fs kept in
  Forall (fun pe => 0 <= crc32 (snd pe) < 2 ^ 32) kept ->
  T + Z.of_nat (List.length P) < 2 ^ 63 ->
  appendArchive (mk_Writer queue) fs destination
  = Returns (mk_Writer new,
             fs_store fs destination
               (header_bytes (T + Z.of_nat (List.length P))
                ++ (body ++ P) ++ table_bytes (old ++ map snd new)),
             true).
Proof.
  intros Hfs HT Hwf Hnd old kept P new Hcrc Hb.
  set (D := header_bytes T ++ body ++ table_bytes es) in *.
  assert (Hr : DatArchiveReader_new fs destination
               = loaded_reader destination D T (emplace_all es [])).
  { apply (open_archive_table fs destination D T body es); auto. lia. }
  unfold appendArchive, exists_. rewrite Hfs, Hr. cbn [negb].
  unfold isBad, isOpen, getTableOffset.
  change (badFlag (loaded_reader destination D T (emplace_all es [])))
    with false.
  change (openFlag (loaded_reader destination D T (emplace_all es [])))
    with true.
  change (tableOffset (loaded_reader destination D T (emplace_all es [])))
    with T.
  cbn [negb orb]. cbv zeta. fold old. cbn [fileEntries].
  fold (kept_queue old queue). fold kept.
  rewrite int64_small by lia.
  (* the stream at the old table *)
  assert (Hpre : firstn (Z.to_nat T) D = header_bytes T ++ body).
  { unfold D. rewrite app_assoc. apply firstn_app_exact.
    rewrite length_app, length_header_bytes. lia. }
  assert (Hpost : skipn (Z.to_nat T) D = table_bytes es).
  { unfold D. rewrite app_assoc. apply skipn_app_exact.
    rewrite length_app, length_header_bytes. lia. }
  assert (Hat : at_pos (fs_seekp (mk_fstream D 0 false) T)
                       (header_bytes T ++ body) (table_bytes es)).
  { rewrite <- Hpre, <- Hpost. apply fs_seekp_at_pos; [lia|].
    unfold D. rewrite !length_app, length_header_bytes. lia. }
  unfold writeFiles. cbn [fileEntries].
  destruct (writeFiles_loop_spec fs kept _ _ _ Hat Hcrc)
    as (af & E & Hat1).
  replace (Z.of_nat (List.length (header_bytes T ++ body))) with T in E
    by (rewrite length_app, length_header_bytes; lia).
  rewrite E. cbn [bind]. fold new. fold P in Hat1.
  rewrite <- app_assoc in Hat1.
  apply writeTableLocation_at_pos in Hat1.
  2:{ rewrite length_app. lia. }
  replace (13 + Z.of_nat (List.length (body ++ P)))
    with (T + Z.of_nat (List.length P)) in Hat1
    by (rewrite length_app; lia).
  apply (writeTable_entries_at_pos old) in Hat1.
  rewrite writeTable_as_entries. cbn [fileEntries].
  apply (writeTable_entries_at_pos (map snd new)) in Hat1.
  destruct Hat1 as (Hd & _ & _). rewrite Hd.
  assert (Hlen : List.length (table_bytes old)
                 = List.length (table_bytes es)).
  { apply length_table_bytes_perm. unfold old.
    rewrite sort_by_dataStart_perm. apply getTable_loaded. exact Hnd. }
  rewrite !skipn_skipn.
  rewrite skipn_all2 by lia.
  rewrite app_nil_r, table_bytes_app. repeat rewrite <- app_assoc.
  reflexivity.
Qed.

End AppendSpec.

Lemma NoDup_map_filter {A B} (f : A -> B) (g : A -> bool) l :
  NoDup (map f l) -> NoDup (map f (filter g l)).
Proof.
  induction l as [|x l IH]; cbn [map filter]; intros H; [constructor|].
  inversion H as [|? ? Hx Hl]; subst.
  destruct (g x); cbn [map]; [|auto].
  constructor; [|auto].
  intros Hin. apply Hx. apply in_map_iff in Hin.
  destruct Hin as (y & Hy & Hyin). apply filter_In in Hyin.
  rewrite <- Hy. apply in_map. tauto.
Qed.

Lemma fresh_source_facts fs destination pe :
  fresh_source fs destination pe ->
  crc32 (snd pe) = 0 /\ wf_entry (snd pe)
  /\ (compressionMethod (snd pe) = NONE \/ compressionMethod (snd pe) = ZLIB).
Proof.
  intros (_ & (n & m & f & -> & Hm & Hn) & _).
  cbn [TableEntry_new crc32 compressionMethod].
  split; [reflexivity|]. split; [|exact Hm].
  unfold wf_entry. cbn [name crc32 originalSize dataStart dataEnd].
  repeat split; try lia; auto; reflexivity.
Qed.

Section Appended.
Context {codec : zlib.Codec} {laws : zlib.CodecLaws codec}.
Variables (fs : filesystem) (destination : path).
Variables (D : bytes) (T : Z) (body : bytes) (es : list TableEntry).
Variable kept : list (path * TableEntry).
Variable old : list TableEntry.

Hypothesis Hwfa : well_formed_archive D T body es.
Hypothesis Hold : Permutation old es.
Hypothesis Hfresh : Forall (fresh_source fs destination) kept.
Hypothesis Hnames : NoDup (queued_names kept).
Hypothesis Hdisj :
  forall pe, In pe kept -> ~ In (name (snd pe)) (map name es).
Hypothesis Hsize : T + Z.of_nat (List.length (payloads fs kept)) < 2 ^ 63.

Let T' := T + Z.of_nat (List.length (payloads fs kept)).
Let new := written_entries T fs kept.
Let D' := header_bytes T' ++ (body ++ payloads fs kept)
          ++ table_bytes (old ++ map snd new).
Let idx' := emplace_all (old ++ map snd new) [].

Lemma appended_names : NoDup (map name (old ++ map snd new)).
Proof.
  destruct Hwfa as (_ & _ & _ & Hnd & _).
  rewrite map_app. apply NoDup_app.
  - rewrite (Permutation_map name Hold). exact Hnd.
  - unfold new. rewrite map_map.
    rewrite (written_entries_names T fs kept). exact Hnames.
  - intros n Hin1 Hin2.
    unfold new in Hin2. rewrite map_map in Hin2.
    rewrite (written_entries_names T fs kept) in Hin2.
    apply in_map_iff in Hin2. destruct Hin2 as (pe & <- & Hpe).
    apply (Hdisj pe Hpe).
    rewrite <- (Permutation_map name Hold). exact Hin1.
Qed.

Lemma appended_wf : Forall wf_entry (old ++ map snd new).
Proof.
  destruct Hwfa as (_ & _ & Hwf & _).
  apply Forall_app. split.
  - rewrite Hold. exact Hwf.
  - apply wf_written_entries.
    eapply Forall_impl; [|exact Hfresh].
    intros pe H. apply (fresh_source_facts _ _ _ H).
Qed.

Lemma appended_reader fs' :
  fs' destination = Some D' ->
  DatArchiveReader_new fs' destination = loaded_reader destination D' T' idx'.
Proof.
  intros Hfs'. destruct Hwfa as (_ & HT & _).
  apply (open_archive_table fs' destination D' T'
           (body ++ payloads fs kept) (old ++ map snd new)); auto.
  - unfold T'. rewrite length_app. lia.
  - exact appended_wf.
Qed.

(** An old entry is found as it was, and gives the bytes it gave. *)
Lemma appended_old_entry e :
  In e es ->
  map_find String.ltb (name e) idx' = Some e
  /\ forall fuel p0 p0',
       run_map snd
         (getFile fuel (reader_at (loaded_reader destination D' T' idx') p0)
                  (name e))
       = run_map snd
           (getFile fuel
              (reader_at (loaded_reader destination D T (emplace_all es []))
                         p0')
              (name e)).
Proof.
  intros Hin.
  destruct Hwfa as (HD & HT & Hwf & Hnd & Hreg).
  assert (Hf' : map_find String.ltb (name e) idx' = Some e).
  { apply find_emplace_all; [exact appended_names|reflexivity|].
    apply in_or_app. left. rewrite Hold. exact Hin. }
  assert (Hf : map_find String.ltb (name e) (emplace_all es []) = Some e).
  { apply find_emplace_all; auto. }
  split; [exact Hf'|]. intros fuel p0 p0'.
  rewrite Forall_forall in Hreg. destruct (Hreg e Hin) as (Hse & HeT).
  unfold reader_at, loaded_reader.
  cbn [set_archive archive contents mk_clean archivePath archiveVersion
       tableOffset entries openFlag badFlag].
  assert (Hwin : window D' (Z.to_nat (dataStart e)) (Z.to_nat (dataEnd e))
                 = window D (Z.to_nat (dataStart e)) (Z.to_nat (dataEnd e))).
  { unfold D'. rewrite HD. rewrite <- (app_assoc body).
    rewrite !window_inner; rewrite ?length_header_bytes; try lia;
      reflexivity. }
  apply (getFile_same destination destination D' D p0 p0' _ _ T' T idx'
           (emplace_all es []) (name e) e
           (Z.to_nat (dataStart e)) (Z.to_nat (dataEnd e)) fuel);
    auto; try lia.
  - unfold D'. rewrite !length_app, length_header_bytes. lia.
  - rewrite HD, !length_app, length_header_bytes. lia.
Qed.

(** A kept file is found, and gives the bytes of its source. *)
Lemma appended_new_entry p e content :
  In (p, e) kept -> fs p = Some content ->
  forall fuel p0,
    (List.length D' < fuel)%nat ->
    exists p1,
      getFile fuel (reader_at (loaded_reader destination D' T' idx') p0)
              (name e)
      = Returns (reader_at (loaded_reader destination D' T' idx') p1,
                 content).
Proof.
  intros Hin Hfs fuel p0 Hfuel.
  destruct Hwfa as (HD & HT & Hwf & Hnd & Hreg).
  rewrite Forall_forall in Hfresh.
  pose proof (Hfresh (p, e) Hin) as Hfr.
  destruct (fresh_source_facts _ _ _ Hfr) as (Hc0 & _ & Hm).
  destruct Hfr as (_ & _ & (content' & Hfs2 & Hsz)).
  cbn [fst snd] in *. rewrite Hfs in Hfs2. injection Hfs2 as <-.
  destruct (in_split _ _ Hin) as (l1 & l2 & Hsplit).
  set (e' := written_entry (T + Z.of_nat (List.length (payloads fs l1)))
                           fs (p, e)).
  assert (Hes : In e' (old ++ map snd new)).
  { apply in_or_app. right. unfold new.
    rewrite Hsplit, written_entries_app, map_app.
    apply in_or_app. right. cbn [written_entries map snd fst]. left.
    reflexivity. }
  assert (Hfind : map_find String.ltb (name e) idx' = Some e').
  { replace (name e) with (name e')
      by (apply (name_written_entry _ fs (p, e))).
    apply find_emplace_all; [exact appended_names|reflexivity|exact Hes]. }
  unfold reader_at, loaded_reader.
  cbn [set_archive archive contents mk_clean archivePath archiveVersion
       tableOffset entries openFlag badFlag].
  assert (Hlen : List.length (header_bytes T' ++ body) = Z.to_nat T).
  { rewrite length_app, length_header_bytes. lia. }
  apply (getFile_written destination D' p0 DATFILEVERSION T' idx' fs
           l1 p e l2 (header_bytes T' ++ body)
           (table_bytes (old ++ map snd new)) content fuel); auto.
  - unfold D'. rewrite <- Hsplit. repeat rewrite <- app_assoc. reflexivity.
  - rewrite <- Hsplit, Hlen. lia.
  - rewrite Hlen.
    replace (Z.of_nat (Z.to_nat T + List.length (payloads fs l1)))
      with (T + Z.of_nat (List.length (payloads fs l1))) by lia.
    exact Hfind.
Qed.

End Appended.

Section AppendOutcome.
Context {codec : zlib.Codec} {laws : zlib.CodecLaws codec}.

(** [appendArchive] on a well-formed archive, and the reader of what it
    leaves. *)
Lemma appendArchive_outcome fs queue destination D T body es :
  fs destination = Some D ->
  well_formed_archive D T body es ->
  let r := DatArchiveReader_new fs destination in
  let old := sort_by_dataStart (getTable r) in
  let kept := kept_queue old queue in
  let T' := T + Z.of_nat (List.length (payloads fs kept)) in
  let new := written_entries T fs kept in
  Forall (fresh_source fs destination) kept ->
  NoDup (queued_names kept) ->
  T' < 2 ^ 63 ->
  exists D',
    appendArchive (mk_Writer queue) fs destination
    = Returns (mk_Writer new, fs_store fs destination D', true)
    /\ let r' := DatArchiveReader_new (fs_store fs destination D')
                                     destination in
       Permutation old es
       /\ r = loaded_reader destination D T (emplace_all es [])
       /\ r' = loaded_reader destination D' T'
                 (emplace_all (old ++ map snd new) [])
       /\ D' = header_bytes T' ++ (body ++ payloads fs kept)
               ++ table_bytes (old ++ map snd new)
       /\ NoDup (map name (old ++ map snd new))
       /\ (forall e, In e es ->
             map_find String.ltb (name e) (entries r') = Some e
             /\ forall fuel p0 p0',
                  run_map snd (getFile fuel (reader_at r' p0) (name e))
                  = run_map snd (getFile fuel (reader_at r p0') (name e)))
       /\ (forall p e content,
             In (p, e) kept -> fs p = Some content ->
             forall fuel p0,
               (List.length D' < fuel)%nat ->
               exists p1,
                 getFile fuel (reader_at r' p0) (name e)
                 = Returns (reader_at r' p1, content)).
Proof.
  intros Hfs Hwfa r old kept T' new Hfresh Hnames Hsize.
  pose proof Hwfa as (HD & HT & Hwf & Hnd & Hreg).
  assert (Hr : r = loaded_reader destination D T (emplace_all es [])).
  { unfold r. apply (open_archive_table fs destination D T body es); auto.
    unfold T' in Hsize. lia. }
  assert (Hold : Permutation old es).
  { unfold old. rewrite sort_by_dataStart_perm, Hr.
    apply getTable_loaded. exact Hnd. }
  assert (Hdisj : forall pe, In pe kept ->
                    ~ In (name (snd pe)) (map name es)).
  { intros pe Hin. apply kept_queue_In in Hin. destruct Hin as [_ Hn].
    rewrite <- (Permutation_map name Hold). exact Hn. }
  assert (Hcrc : Forall (fun pe => 0 <= crc32 (snd pe) < 2 ^ 32) kept).
  { eapply Forall_impl; [|exact Hfresh]. intros pe H.
    destruct (fresh_source_facts _ _ _ H) as (-> & _).
    split; [lia|reflexivity]. }
  set (D' := header_bytes T' ++ (body ++ payloads fs kept)
             ++ table_bytes (old ++ map snd new)).
  exists D'.
  assert (Hfs' : fs_store fs destination D' destination = Some D').
  { unfold fs_store. rewrite String.eqb_refl. reflexivity. }
  split.
  - rewrite HD in Hfs.
    pose proof (appendArchive_spec fs queue destination T body es
                  Hfs HT Hwf Hnd) as Hspec.
    cbv zeta in Hspec. rewrite <- HD in Hspec.
    unfold r in Hr. rewrite <- Hr in Hspec.
    apply Hspec; assumption.
  - cbv zeta.
    rewrite (appended_reader fs destination D T body es kept old
               Hwfa Hold Hfresh Hsize _ Hfs').
    split; [exact Hold|]. split; [exact Hr|]. split; [reflexivity|].
    split; [reflexivity|].
    split; [exact (appended_names fs D T body es kept old Hwfa Hold
                     Hnames Hdisj)|].
    split.
    + intros e Hin. rewrite Hr.
      exact (appended_old_entry fs destination D T body es kept old
               Hwfa Hold Hnames Hdisj Hsize e Hin).
    + intros p e content Hin Hc.
      exact (appended_new_entry fs destination D T body es kept old
               Hwfa Hold Hfresh Hnames Hdisj Hsize p e content Hin Hc).
Qed.

End AppendOutcome.

Lemma length_filter_perm {A} (f : A -> bool) l l' :
  Permutation l l' ->
  List.length (filter f l) = List.length (filter f l').
Proof.
  induction 1 as [|x l l' _ IH|x y l|l l' l'' _ IH1 _ IH2];
    cbn [filter]; try lia.
  - destruct (f x); cbn [List.length]; lia.
  - destruct (f x), (f y); reflexivity.
Qed.

Section PayloadBounds.
Context {codec : zlib.Codec}.

Lemma length_payloads_filter fs (g : path * TableEntry -> bool) l :
  (List.length (payloads fs (filter g l))
   <= List.length (payloads fs l))%nat.
Proof.
  induction l as [|pe l IH]; cbn [filter]; [lia|].
  destruct (g pe); rewrite ?payloads_cons, ?length_app; lia.
Qed.

End PayloadBounds.

Lemma old_archive_well_formed :
  well_formed_archive old_archive 15 [x68; x69] [old_entry].
Proof.
  unfold well_formed_archive. split; [reflexivity|].
  split; [reflexivity|]. split.
  - constructor; [|constructor]. unfold wf_entry, old_entry.
    cbn [name crc32 originalSize dataStart dataEnd].
    split; [cbn; lia|]. split; [apply crc32_bound; lia|]. lia.
  - split.
    + repeat constructor. intros [].
    + constructor; [|constructor]. unfold old_entry.
      cbn [dataStart dataEnd]. lia.
Qed.

(* ================================================================== *)
(** ** Further properties of the reader and the writer *)





(* ------------------------------------------------------------------ *)
(** *** Flags *)

(** X4.  The two conversions of [Flags]: a flag set converted to a byte
    and back is unchanged, and a byte converted to a flag set and back
    keeps its lowest bit and nothing else. *)
Theorem Flags_uint8_conversions :
  (forall f : Flags, Flags_of_uint8 (uint8_of_Flags f) = f)
  /\ (forall b : Z, uint8_of_Flags (Flags_of_uint8 b) = b mod 2).
Proof.
  split.
  - intros [[|]]; reflexivity.
  - intros b. unfold uint8_of_Flags, Flags_of_uint8. cbn [encrypted].
    rewrite <- Z.bit0_mod. destruct (Z.testbit b 0); reflexivity.
Qed.

(* ------------------------------------------------------------------ *)
(** *** The index of the reader *)

Lemma map_find_In (n : string) (m : list (string * TableEntry)) :
  map_find String.ltb n m <> None <-> In n (map fst m).
Proof.
  induction m as [|[k v] m IH]; cbn [map_find map In fst].
  - split; [intros H; apply H; reflexivity|intros []].
  - destruct (equivb String.ltb n k) eqn:E.
    + apply string_equivb_eq in E. subst k.
      split; [auto|discriminate].
    + rewrite IH. split; [auto|]. intros [H|H]; [|exact H].
      subst k. rewrite string_equivb_refl in E. discriminate E.
Qed.

(** X5.  [contains(name)] is true exactly for the names [listFiles]
    gives, and [size] is the number of those names and of the entries
    [getTable] gives, whatever the state of the reader. *)
Theorem contains_iff_listed :
  forall (r : DatArchiveReader) (n : string),
    (contains r n = true <-> In n (listFiles r))
    /\ size r = List.length (listFiles r)
    /\ size r = List.length (getTable r).
Proof.
  intros r n. split; [|split].
  - rewrite contains_find. apply map_find_In.
  - unfold size, listFiles. rewrite length_map. reflexivity.
  - unfold size, getTable. rewrite length_map. reflexivity.
Qed.

(* ------------------------------------------------------------------ *)
(** *** The queue of the writer *)

Section QueueFacts.
Variables (K V : Type) (ltb : K -> K -> bool).
Hypothesis ltb_irrefl : forall a, ltb a a = false.

Lemma equivb_refl a : equivb ltb a a = true.
Proof. unfold equivb. rewrite ltb_irrefl. reflexivity. Qed.

Lemma map_erase_emplace k v (m : list (K * V)) :
  map_find ltb k m = None ->
  map_erase ltb k (map_emplace ltb k v m) = m.
Proof.
  unfold map_erase.
  induction m as [|[k2 v2] m IH]; cbn [map_find map_emplace]; intros Hn.
  - cbn [filter fst]. rewrite equivb_refl. reflexivity.
  - destruct (equivb ltb k k2) eqn:E; [discriminate Hn|].
    assert (Hrest : filter (fun kv => negb (equivb ltb k (fst kv))) m = m).
    { apply (map_erase_absent K V ltb k m Hn). }
    destruct (ltb k k2) eqn:E1.
    + cbn [filter fst]. rewrite equivb_refl, E. cbn [negb].
      rewrite Hrest. reflexivity.
    + destruct (ltb k2 k) eqn:E2.
      * cbn [filter fst]. rewrite E. cbn [negb]. rewrite IH by exact Hn.
        reflexivity.
      * unfold equivb in E. rewrite E1, E2 in E. discriminate E.
Qed.

End QueueFacts.

(** X6.  [queueFile] succeeds exactly when the path is not queued and
    names an existing file, and leaves the queue as it was otherwise.
    After a success the path is queued with the entry given, queueing it
    again fails, and [removeFile] of the path succeeds and gives back the
    queue as it was; [removeFile] of a path that is not queued fails and
    changes nothing. *)
Theorem queueFile_removeFile :
  forall (path_ltb : path -> path -> bool) (w : DatArchiveWriter)
         (fs : filesystem) (p : path) (e e2 : TableEntry),
    (forall a, path_ltb a a = false) ->
    (snd (queueFile path_ltb w fs p e) = true
     <-> map_find path_ltb p (fileEntries w) = None
         /\ exists_ fs p = true)
    /\ (snd (queueFile path_ltb w fs p e) = false ->
        fst (queueFile path_ltb w fs p e) = w)
    /\ (snd (queueFile path_ltb w fs p e) = true ->
        let w' := fst (queueFile path_ltb w fs p e) in
        map_find path_ltb p (fileEntries w') = Some e
        /\ Permutation (fileEntries w') ((p, e) :: fileEntries w)
        /\ queueFile path_ltb w' fs p e2 = (w', false)
        /\ removeFile path_ltb w' p = (w, true))
    /\ (map_find path_ltb p (fileEntries w) = None ->
        removeFile path_ltb w p = (w, false)).
Proof.
  intros path_ltb w fs p e e2 Hirr.
  pose proof (map_count_find path TableEntry path_ltb p (fileEntries w)) as Hc.
  unfold queueFile.
  destruct (0 <? map_count path_ltb p (fileEntries w))%nat eqn:Ec.
  { cbn [fst snd]. split; [|split; [reflexivity|split]].
    - split; [discriminate|]. intros [Hn _]. apply Hc in Hn. discriminate Hn.
    - discriminate.
    - intros Hn. apply Hc in Hn. discriminate Hn. }
  assert (Hn : map_find path_ltb p (fileEntries w) = None)
    by (apply Hc; reflexivity).
  assert (Hrem : removeFile path_ltb w p = (w, false)).
  { unfold removeFile. rewrite Ec, map_erase_absent by exact Hn.
    destruct w; reflexivity. }
  destruct (exists_ fs p) eqn:Ex; cbn [negb fst snd].
  2:{ split; [|split; [reflexivity|split]].
      - split; [discriminate|]. intros [_ H]. discriminate H.
      - discriminate.
      - intros _. exact Hrem. }
  split; [tauto|]. split; [discriminate|]. split; [|intros _; exact Hrem].
  intros _. cbv zeta. cbn [fileEntries].
  assert (Hfind : map_find path_ltb p
                    (map_emplace path_ltb p e (fileEntries w)) = Some e).
  { apply map_find_emplace_new; [apply equivb_refl; exact Hirr|exact Hn]. }
  assert (Hcount : (0 <? map_count path_ltb p
                          (map_emplace path_ltb p e (fileEntries w)))%nat
                   = true).
  { apply map_count_find_true. rewrite Hfind. discriminate. }
  split; [exact Hfind|].
  split; [apply map_emplace_perm; exact Hn|].
  split.
  - rewrite Hcount. reflexivity.
  - unfold removeFile. cbn [fileEntries]. rewrite Hcount.
    rewrite map_erase_emplace by assumption.
    destruct w; reflexivity.
Qed.

(** The theorem at a queue of one file, with the order of strings. *)
Lemma queueFile_removeFile_witness :
  removeFile String.ltb
    (fst (queueFile String.ltb (mk_Writer []) roundtrip_fs "a.txt"
            (TableEntry_new "Test" NONE (mk_Flags false))))
    "a.txt"
  = (mk_Writer [], true).
Proof.
  apply (queueFile_removeFile String.ltb (mk_Writer []) roundtrip_fs "a.txt"
           (TableEntry_new "Test" NONE (mk_Flags false))
           (TableEntry_new "Test" NONE (mk_Flags false))).
  - intros a. unfold String.ltb. rewrite string_compare_refl. reflexivity.
  - reflexivity.
Defined.

(* ------------------------------------------------------------------ *)
(** *** What the writer leaves alone *)

Lemma fs_store_other fs q d p : p <> q -> fs_store fs q d p = fs p.
Proof.
  intros H. unfold fs_store.
  destruct (String.eqb p q) eqn:E;
    [apply String.eqb_eq in E; contradiction|reflexivity].
Qed.

Lemma fs_store_same fs q d : fs_store fs q d q = Some d.
Proof. unfold fs_store. rewrite String.eqb_refl. reflexivity. Qed.



(* ------------------------------------------------------------------ *)
(** *** Opening what is not an archive *)

Lemma Z_of_byte_inj a b : Z_of_byte a = Z_of_byte b -> a = b.
Proof.
  intros H. rewrite <- (byte_of_Z_of_byte a), <- (byte_of_Z_of_byte b), H.
  reflexivity.
Qed.

Lemma strncmp_step c1 c2 t1 t2 n :
  c1 <> x00 ->
  (strncmp (c1 :: t1) (c2 :: t2) (S n) =? 0)
  = Byte.eqb c1 c2 && (strncmp t1 t2 n =? 0).
Proof.
  intros Hc. cbn [strncmp].
  destruct (Byte.eqb c1 c2) eqn:E; cbn [negb andb].
  - destruct (Byte.eqb c1 x00) eqn:E0; [|reflexivity].
    apply Byte.byte_dec_bl in E0. contradiction.
  - apply Z.eqb_neq. intros H.
    assert (Heq : c1 = c2) by (apply Z_of_byte_inj; lia).
    subst c2. rewrite (Byte.byte_dec_lb (eq_refl c1)) in E. discriminate E.
Qed.

Lemma validateArchive_spec b0 b1 b2 b3 v :
  validateArchive [b0; b1; b2; b3] v = true
  <-> [b0; b1; b2; b3] = DATFILESIGNATURE /\ v = DATFILEVERSION.
Proof.
  unfold validateArchive, DATFILESIGNATURE, DATFILEVERSION.
  rewrite !strncmp_step by discriminate.
  cbn [strncmp]. change (0 =? 0) with true.
  rewrite !andb_true_iff, Z.eqb_eq. split.
  - intros ((H0 & H1 & H2 & H3 & _) & Hv).
    apply Byte.byte_dec_bl in H0, H1, H2, H3. subst. auto.
  - intros (Hs & ->). injection Hs as -> -> -> ->.
    repeat split; reflexivity.
Qed.

Lemma loadTable_flags r :
  badFlag (fst (loadTable r)) = badFlag r
  /\ openFlag (fst (loadTable r)) = openFlag r.
Proof.
  unfold loadTable.
  destruct (fail (ifs_seekg (archive r) (int64 (tableOffset r)))
            || (tableOffset r =? 0)); [split; reflexivity|].
  destruct (loadTable_loop _ _ _) as [a es]. split; reflexivity.
Qed.

Lemma openArchive_five_bytes fs p q b0 b1 b2 b3 b4 rest :
  fs p = Some (b0 :: b1 :: b2 :: b3 :: b4 :: rest) ->
  let d := b0 :: b1 :: b2 :: b3 :: b4 :: rest in
  let r1 := mk_Reader q (mk_clean d 5) (Z_of_byte b4) 0 [] true false in
  openArchive (DatArchiveReader_initial q) fs p
  = if negb (validateArchive [b0; b1; b2; b3] (Z_of_byte b4))
    then (set_badFlag r1 true, false)
    else
      let '(a, t) := read_uint (mk_clean d 5) 8 0 in
      loadTable (set_tableOffset (set_archive r1 a) t).
Proof.
  intros Hfs d r1. unfold openArchive, exists_. rewrite Hfs.
  cbn [negb andb]. unfold DatArchiveReader_initial.
  cbn [set_openFlag set_badFlag set_archive archive archivePath
       archiveVersion tableOffset entries openFlag badFlag].
  unfold ifs_open. cbn [closed_ifstream is_open].
  fold d.
  change (mk_ifstream d 0 true false false false None) with (mk_clean d 0).
  cbn [fail mk_clean failbit badbit orb].
  assert (S0 : skipn 0 d = [b0; b1; b2; b3] ++ [b4] ++ rest) by reflexivity.
  change 4 with (Z.of_nat (List.length [b0; b1; b2; b3])).
  rewrite (ifs_read_clean _ _ _ _ S0).
  apply skipn_step in S0.
  unfold read_uint at 1.
  change (Z.of_nat 1) with (Z.of_nat (List.length [b4])).
  rewrite (ifs_read_clean _ _ _ _ S0).
  cbn [set_openFlag set_badFlag set_archive set_archiveVersion archive
       archivePath archiveVersion tableOffset entries openFlag badFlag].
  replace (overlay [b0; b1; b2; b3] (repeat x00 4)) with [b0; b1; b2; b3]
    by reflexivity.
  replace (le_decode (overlay [b4] (le_encode 1 0))) with (Z_of_byte b4)
    by (unfold overlay; cbn [List.length skipn le_encode app le_decode];
        lia).
  change (0 + List.length [b0; b1; b2; b3] + List.length [b4])%nat
    with 5%nat.
  reflexivity.
Qed.

(** X8.  Opening fails without the bad flag when the file is missing:
    the reader is neither open nor bad.  On a file of five bytes or more
    the reader is open, and it is bad exactly when the file does not
    start with the signature and the version 1; a bad reader has no
    entries, reports a failed open, and gives the empty vector for every
    name. *)
Theorem openArchive_missing_or_foreign :
  forall (fs : filesystem) (p : path),
    let r := DatArchiveReader_new fs p in
    let ok := snd (openArchive (DatArchiveReader_initial p) fs p) in
    (fs p = None -> isOpen r = false /\ isBad r = false /\ ok = false)
    /\ (forall d,
          fs p = Some d -> (5 <= List.length d)%nat ->
          isOpen r = true
          /\ (isBad r = true
              <-> firstn 5 d <> DATFILESIGNATURE ++ [x01])
          /\ (isBad r = true ->
              ok = false /\ size r = 0%nat
              /\ forall (codec : zlib.Codec) fuel n,
                   getFile fuel r n = Returns (r, []))).
Proof.
  intros fs p r ok. split.
  - intros Hfs. unfold ok, r, DatArchiveReader_new, openArchive, exists_.
    rewrite Hfs. cbn. auto.
  - intros d Hfs Hlen.
    destruct d as [|b0 [|b1 [|b2 [|b3 [|b4 rest]]]]];
      cbn [List.length] in Hlen; try lia.
    pose proof (openArchive_five_bytes fs p p b0 b1 b2 b3 b4 rest Hfs)
      as Hopen.
    cbv zeta in Hopen.
    pose proof (validateArchive_spec b0 b1 b2 b3 (Z_of_byte b4)) as Hv.
    assert (Hhead : firstn 5 (b0 :: b1 :: b2 :: b3 :: b4 :: rest)
                    = DATFILESIGNATURE ++ [x01]
                    <-> [b0; b1; b2; b3] = DATFILESIGNATURE
                        /\ Z_of_byte b4 = DATFILEVERSION).
    { cbn [firstn]. unfold DATFILESIGNATURE, DATFILEVERSION. cbn [app].
      split.
      - intros H. injection H as -> -> -> -> ->. auto.
      - intros [H1 H2]. injection H1 as -> -> -> ->.
        f_equal. f_equal. f_equal. f_equal. f_equal.
        apply Z_of_byte_inj. exact H2. }
    unfold ok, r, DatArchiveReader_new. rewrite Hopen.
    destruct (validateArchive [b0; b1; b2; b3] (Z_of_byte b4)) eqn:Ev;
      cbn [negb].
    + (* the header is that of an archive *)
      destruct (read_uint _ 8 0) as [a t].
      set (r2 := set_tableOffset _ t).
      destruct (loadTable_flags r2) as [Hb Ho].
      unfold isOpen, isBad. rewrite Hb, Ho. unfold r2. cbn.
      split; [reflexivity|]. split; [|discriminate].
      split; [discriminate|]. intros Hne. exfalso. apply Hne.
      apply Hhead. apply Hv. reflexivity.
    + cbn [fst snd isOpen isBad set_badFlag openFlag badFlag].
      split; [reflexivity|]. split.
      * split; [|reflexivity]. intros _ Heq. apply Hhead in Heq.
        apply Hv in Heq. discriminate Heq.
      * intros _. split; [reflexivity|]. split; [reflexivity|].
        intros codec fuel n. reflexivity.
Qed.

(** The theorem at a file that starts with another signature. *)
Lemma openArchive_missing_or_foreign_witness :
  isOpen (DatArchiveReader_new foreign_fs "foreign.zip") = true
  /\ isBad (DatArchiveReader_new foreign_fs "foreign.zip") = true.
Proof.
  destruct (openArchive_missing_or_foreign foreign_fs "foreign.zip")
    as [_ H].
  destruct (H [x50; x4b; x03; x04; x14; x00] eq_refl) as (Ho & Hb & _).
  - cbn. lia.
  - split; [exact Ho|]. apply Hb. discriminate.
Defined.

(* ------------------------------------------------------------------ *)
(** *** The bytes [writeArchive] writes *)

Section Layout.
Context {codec : zlib.Codec}.

Lemma flags_written_entry pos fs pe :
  fileFlags (written_entry pos fs pe) = fileFlags (snd pe).
Proof.
  unfold written_entry. destruct (fs (fst pe)); [|reflexivity].
  cbn [compressionMethod set_originalSize set_dataStart].
  destruct (Byte.eqb (compressionMethod (snd pe)) NONE); [reflexivity|].
  destruct (Byte.eqb (compressionMethod (snd pe)) ZLIB); reflexivity.
Qed.

Lemma length_written_entries pos fs l :
  List.length (written_entries pos fs l) = List.length l.
Proof.
  rewrite <- (length_map fst (written_entries pos fs l)),
    written_entries_paths, length_map. reflexivity.
Qed.

Lemma nth_written_entries pos fs l1 p e l2 :
  nth_error (written_entries pos fs (l1 ++ (p, e) :: l2)) (List.length l1)
  = Some (p, written_entry (pos + Z.of_nat (List.length (payloads fs l1)))
                           fs (p, e)).
Proof.
  rewrite written_entries_app.
  rewrite nth_error_app2 by (rewrite length_written_entries; lia).
  rewrite length_written_entries, Nat.sub_diag. reflexivity.
Qed.

End Layout.



(* ------------------------------------------------------------------ *)
(** *** The table, written and read back *)

(** X10.  What [writeTable] writes, [loadTable] reads back: after the
    header, any bytes [body], the location of the table and the table of
    any entries [es] with distinct names of less than [2 ^ 16] bytes
    have been written, the reader of the file is open and not bad, gives
    the offset the writer stored, and holds the entries [es], each found
    under its name with every field as written. *)
Theorem table_roundtrip :
  forall (fs : filesystem) (p : path) (body : bytes)
         (es : list TableEntry),
    Forall wf_entry es ->
    NoDup (map name es) ->
    13 + Z.of_nat (List.length body) < 2 ^ 63 ->
    let s0 := fs_write (writeHeader (mk_fstream [] 0 false)) body in
    let s := writeTable_entries (writeTableLocation s0) es in
    let r := DatArchiveReader_new (fs_store fs p (data s)) p in
    isOpen r = true /\ isBad r = false
    /\ getTableOffset r = 13 + Z.of_nat (List.length body)
    /\ size r = List.length es
    /\ Permutation (getTable r) es
    /\ forall e, In e es -> getFileEntry r (name e) = Returns e.
Proof.
  intros fs p body es Hwf Hnd Hb s0 s r.
  assert (Hd : data s = header_bytes (13 + Z.of_nat (List.length body))
                        ++ body ++ table_bytes es).
  { pose proof writeHeader_at_pos as H.
    apply (fs_write_at_pos _ _ _ body) in H. fold s0 in H.
    apply writeTableLocation_at_pos in H; [|exact Hb].
    apply (writeTable_entries_at_pos es) in H. fold s in H.
    destruct H as (H & _ & _). rewrite H.
    rewrite !skipn_nil, app_nil_r, <- app_assoc. reflexivity. }
  assert (Hr : r = loaded_reader p (data s)
                     (13 + Z.of_nat (List.length body))
                     (emplace_all es [])).
  { unfold r.
    apply (open_archive_table _ p (data s) _ body es); auto.
    apply fs_store_same. }
  rewrite Hr. split; [reflexivity|]. split; [reflexivity|].
  split; [reflexivity|]. split.
  { unfold size, loaded_reader. cbn [entries].
    rewrite (Permutation_length
               (emplace_all_perm es [] Hnd (fun _ _ => eq_refl))).
    rewrite app_nil_r, length_map. reflexivity. }
  split; [apply getTable_loaded; exact Hnd|].
  intros e Hin. unfold getFileEntry, loaded_reader.
  cbn [openFlag badFlag negb orb entries].
  rewrite find_emplace_all; auto.
Qed.

(** The theorem at two entries that hold extreme values. *)
Lemma table_roundtrip_witness :
  Permutation
    (getTable
       (DatArchiveReader_new
          (fs_store sample_fs "t.dat"
             (data (writeTable_entries
                      (writeTableLocation
                         (fs_write (writeHeader (mk_fstream [] 0 false))
                                   [x01; x02; x03]))
                      table_sample)))
          "t.dat"))
    table_sample.
Proof.
  apply (table_roundtrip sample_fs "t.dat" [x01; x02; x03] table_sample).
  - repeat constructor; cbn; lia.
  - repeat constructor; cbn; intuition discriminate.
  - cbn. lia.
Defined.

(* ------------------------------------------------------------------ *)
(** *** Extraction into a buffer of the caller *)

Section RawExtraction.
Context {codec : zlib.Codec} {laws : zlib.CodecLaws codec}.

Lemma getFileRaw_of_stored q D p0 ver T idx n e content pre z post fuel
  buffer :
  map_find String.ltb n idx = Some e ->
  D = pre ++ z ++ post ->
  dataStart e = Z.of_nat (List.length pre) ->
  dataEnd e = Z.of_nat (List.length pre + List.length z) ->
  dataEnd e < 2 ^ 63 ->
  originalSize e = Z.of_nat (List.length content) ->
  Z.of_nat (List.length content) < 2 ^ 32 ->
  (compressionMethod e = NONE /\ z = content
   /\ crc32 e = zlib.crc32 0 content)
  \/ (compressionMethod e = ZLIB /\ compressed content = Some z
      /\ crc32 e = zlib.crc32 0 z) ->
  (List.length z < fuel)%nat ->
  (List.length content <= List.length buffer)%nat ->
  getFileRaw fuel (mk_Reader q (mk_clean D p0) ver T idx true false) n buffer
  = Returns (mk_Reader q (mk_clean D (List.length pre + List.length z))
                       ver T idx true false,
             content ++ skipn (List.length content) buffer,
             Z.of_nat (List.length content)).
Proof.
  intros Hfind HD Hs He Hb Ho Hc Hm Hf Hbuf.
  unfold getFileRaw. cbn [openFlag badFlag negb orb].
  assert (Hcon : contains (mk_Reader q (mk_clean D p0) ver T idx true false)
                          n = true).
  { apply contains_find. cbn [entries]. rewrite Hfind. discriminate. }
  rewrite Hcon. cbn [negb].
  unfold getFileEntry. cbn [openFlag badFlag negb orb entries].
  rewrite Hfind. cbn [bind].
  unfold getFileFromEntry.
  destruct Hm as [(Hm & Hz & Hcrc)|(Hm & Hz & Hcrc)]; rewrite Hm.
  - change (Byte.eqb NONE NONE) with true. cbn match. subst z.
    rewrite (extractFile_region _ D p0 e _ true pre content post);
      try assumption; try reflexivity.
    cbn [set_archive].
    rewrite Hcrc, Z.eqb_refl. cbn [negb andb]. reflexivity.
  - change (Byte.eqb ZLIB NONE) with false.
    change (Byte.eqb ZLIB ZLIB) with true. cbn match.
    unfold zlibExtractFile, zlibExtractFile_from.
    cbn [archive]. rewrite Hs.
    rewrite int64_small by lia. rewrite ifs_seekg_clean by lia.
    rewrite Nat2Z.id.
    pose proof zlib.inflateInit_ok as Hi.
    pose proof (inflate_compressed content z fuel Hz Hf) as Hrun.
    destruct zlib.inflateInit as [rc strm]. cbn [fst snd] in Hi, Hrun.
    subst rc. cbn [zlib.ret_code_eqb negb].
    rewrite Ho, (uint_small 32), Nat2Z.id by lia.
    set (r0 := mk_Reader q (mk_clean D p0) ver T idx true false).
    rewrite (zlibExtractFile_loop_run D e true
               (List.length pre + List.length z) He Hb
               ltac:(subst D; rewrite !length_app; lia)
               fuel (List.length pre) r0 [] 0 strm (List.length content) 0
               buffer content);
      try lia.
    2:{ subst D. rewrite window_middle. exact Hrun. }
    cbn [bind snd]. subst D. rewrite window_middle.
    rewrite Hcrc, Z.eqb_refl. cbn [negb andb firstn app].
    rewrite Ho. reflexivity.
Qed.

End RawExtraction.

Section WrittenReader.
Context {codec : zlib.Codec} {laws : zlib.CodecLaws codec}.

(** The reader of the file [writeArchive] leaves for a queue of fresh
    files: its file, its offset and its index. *)
Lemma written_archive_reader (path_ltb : path -> path -> bool)
  fs queue destination overwrite :
  (forall a b, equivb path_ltb a b = true -> a = b) ->
  Forall (fresh_source fs destination) queue ->
  NoDup (queued_names queue) ->
  (exists_ fs destination = true -> overwrite = true) ->
  13 + Z.of_nat (List.length (payloads fs queue)) < 2 ^ 63 ->
  let fs1 := fs_store fs destination [] in
  let T := 13 + Z.of_nat (List.length (payloads fs1 queue)) in
  let es := written_entries 13 fs1 queue in
  let D := header_bytes T ++ payloads fs1 queue ++ table_bytes (map snd es) in
  let idx := emplace_all (map snd es) [] in
  writeArchive path_ltb (mk_Writer queue) fs destination overwrite
  = Returns (mk_Writer es, fs_store fs1 destination D, true)
  /\ DatArchiveReader_new (fs_store fs1 destination D) destination
     = loaded_reader destination D T idx
  /\ T < 2 ^ 63
  /\ Forall wf_entry (map snd es)
  /\ NoDup (map name (map snd es))
  /\ map name (map snd es) = queued_names queue
  /\ (forall pe, In pe queue -> fs1 (fst pe) = fs (fst pe))
  /\ (forall l1 p e l2,
        queue = l1 ++ (p, e) :: l2 ->
        map_find String.ltb (name e) idx
        = Some (written_entry
                  (13 + Z.of_nat (List.length (payloads fs1 l1)))
                  fs1 (p, e)))
  /\ (forall n, ~ In n (queued_names queue) ->
        map_find String.ltb n idx = None).
Proof.
  intros Hord Hfresh Hnd Hov Hb fs1 T es D idx.
  rewrite Forall_forall in Hfresh.
  assert (Hsrc : forall pe, In pe queue -> fst pe <> destination).
  { intros pe Hin. apply (Hfresh pe Hin). }
  assert (Hcrc : Forall (fun pe => 0 <= crc32 (snd pe) < 2 ^ 32) queue).
  { apply Forall_forall. intros pe Hin.
    destruct (fresh_source_facts _ _ _ (Hfresh pe Hin)) as (-> & _).
    split; [lia|reflexivity]. }
  assert (Hwf : Forall (fun pe => wf_entry (snd pe)) queue).
  { apply Forall_forall. intros pe Hin.
    apply (fresh_source_facts _ _ _ (Hfresh pe Hin)). }
  pose proof (writeArchive_fresh path_ltb Hord fs queue destination
                overwrite Hsrc Hcrc Hov Hb) as Hw.
  cbv zeta in Hw. fold fs1 in Hw.
  assert (HP : payloads fs1 queue = payloads fs queue)
    by (apply payloads_fs_store; exact Hsrc).
  rewrite <- HP in Hw, Hb. fold es in Hw. fold T in Hw, Hb. fold D in Hw.
  assert (Hwfes : Forall wf_entry (map snd es))
    by (apply wf_written_entries; exact Hwf).
  assert (Hnames : map name (map snd es) = queued_names queue).
  { rewrite map_map. apply (written_entries_names 13 fs1 queue). }
  split; [exact Hw|]. split.
  { apply (open_archive_table _ destination D T (payloads fs1 queue)
             (map snd es)); auto.
    apply fs_store_same. }
  split; [exact Hb|]. split; [exact Hwfes|].
  split; [rewrite Hnames; exact Hnd|]. split; [exact Hnames|].
  split.
  { intros pe Hin. unfold fs1. apply fs_store_other. apply Hsrc. exact Hin. }
  split.
  - intros l1 p e l2 Hq.
    set (e' := written_entry (13 + Z.of_nat (List.length (payloads fs1 l1)))
                             fs1 (p, e)).
    replace (name e) with (name e')
      by (apply (name_written_entry _ fs1 (p, e))).
    apply find_emplace_all; [rewrite Hnames; exact Hnd|reflexivity|].
    unfold es. rewrite Hq, written_entries_app, map_app.
    apply in_or_app. right. cbn [written_entries map snd fst]. left.
    reflexivity.
  - intros n Hn. unfold idx. rewrite find_emplace_all_other; [reflexivity|].
    rewrite Hnames. exact Hn.
Qed.

End WrittenReader.

Section WrittenEntryReady.
Context {codec : zlib.Codec} {laws : zlib.CodecLaws codec}.

(** The entry of a fresh queued file, once written after [pre0], says
    where its payload is and what it is. *)
Lemma written_entry_ready fs l1 p e l2 (pre0 post0 : bytes) content :
  let z := stored fs (p, e) in
  let pre := pre0 ++ payloads fs l1 in
  let e' := written_entry
              (Z.of_nat (List.length pre0)
               + Z.of_nat (List.length (payloads fs l1))) fs (p, e) in
  Z.of_nat (List.length pre0
            + List.length (payloads fs (l1 ++ (p, e) :: l2))) < 2 ^ 63 ->
  fs p = Some content ->
  Z.of_nat (List.length content) < 2 ^ 32 ->
  crc32 e = 0 ->
  compressionMethod e = NONE \/ compressionMethod e = ZLIB ->
  pre0 ++ payloads fs (l1 ++ (p, e) :: l2) ++ post0
  = pre ++ z ++ (payloads fs l2 ++ post0)
  /\ dataStart e' = Z.of_nat (List.length pre)
  /\ dataEnd e' = Z.of_nat (List.length pre + List.length z)
  /\ dataEnd e' < 2 ^ 63
  /\ originalSize e' = Z.of_nat (List.length content)
  /\ ((compressionMethod e' = NONE /\ z = content
       /\ crc32 e' = zlib.crc32 0 content)
      \/ (compressionMethod e' = ZLIB /\ compressed content = Some z
          /\ crc32 e' = zlib.crc32 0 z)).
Proof.
  intros z pre e' Hb Hfs Hc Hcrc Hm.
  rewrite payloads_app, payloads_cons in Hb |- *.
  rewrite !length_app in Hb. fold z in Hb |- *.
  assert (Hpre : List.length pre
                 = (List.length pre0 + List.length (payloads fs l1))%nat)
    by (unfold pre; apply length_app).
  destruct (written_entry_fields fs p e content
              (Z.of_nat (List.length pre0)
               + Z.of_nat (List.length (payloads fs l1)))
              Hfs Hcrc Hm) as (Hs & He & Ho & Hcr); fold z; try lia.
  fold e' in Hs, He, Ho, Hcr. fold z in He, Hcr.
  split; [unfold pre; repeat rewrite <- app_assoc; reflexivity|].
  split; [rewrite Hs, Hpre; lia|].
  split; [rewrite He, Hpre; lia|].
  split; [rewrite He; lia|].
  split; [exact Ho|].
  assert (Hme : compressionMethod e' = compressionMethod e)
    by (apply (method_written_entry _ fs (p, e))).
  destruct Hm as [Hm|Hm]; rewrite Hm in Hme.
  - left. split; [exact Hme|].
    assert (Hz : z = content).
    { unfold z, stored. cbn [fst snd]. rewrite Hfs, Hm. reflexivity. }
    split; [exact Hz|]. rewrite Hcr, Hz. reflexivity.
  - right. split; [exact Hme|]. split; [|exact Hcr].
    unfold z, stored. cbn [fst snd]. rewrite Hfs, Hm.
    change (Byte.eqb ZLIB NONE) with false.
    change (Byte.eqb ZLIB ZLIB) with true. cbn match.
    destruct (compressed_some content) as (z' & Hz' & _).
    rewrite Hz'. reflexivity.
Qed.

End WrittenEntryReady.



(* ------------------------------------------------------------------ *)
(** *** Writing, then appending *)

Section WrittenRegions.
Context {codec : zlib.Codec}.

(** The payloads of the entries [writeFiles] leaves lie between the
    offset it started at and the offset it ended at. *)
Lemma written_entries_regions fs destination l :
  forall pos,
    Forall (fresh_source fs destination) l ->
    0 <= pos ->
    pos + Z.of_nat (List.length (payloads fs l)) < 2 ^ 63 ->
    Forall (fun e => pos <= dataStart e <= dataEnd e
                     /\ dataEnd e
                        <= pos + Z.of_nat (List.length (payloads fs l)))
           (map snd (written_entries pos fs l)).
Proof.
  induction l as [|[p e] l IH]; intros pos Hfr Hp Hb;
    cbn [written_entries map]; [constructor|].
  inversion Hfr as [|? ? Hpe Hl]; subst.
  rewrite payloads_cons, length_app in Hb |- *.
  destruct (fresh_source_facts _ _ _ Hpe) as (Hc0 & _ & Hm).
  destruct Hpe as (_ & _ & (content & Hfs & Hsz)). cbn [fst snd] in *.
  destruct (written_entry_fields fs p e content pos Hfs Hc0 Hm)
    as (Hs & He & _); try lia.
  constructor.
  - cbn [snd]. rewrite Hs, He. lia.
  - specialize (IH (pos + Z.of_nat (List.length (stored fs (p, e)))) Hl).
    eapply Forall_impl; [|apply IH; lia].
    intros x Hx. cbn beta in Hx. lia.
Qed.

End WrittenRegions.

Lemma fresh_source_fs_store fs destination d pe :
  fresh_source fs destination pe ->
  fresh_source (fs_store fs destination d) destination pe.
Proof.
  intros (Hp & He & Hc). split; [exact Hp|]. split; [exact He|].
  rewrite fs_store_other by exact Hp. exact Hc.
Qed.

Section WriteAppend.
Context {codec : zlib.Codec} {laws : zlib.CodecLaws codec}.

(** A queue written with [writeArchive] and a second queue appended
    with [appendArchive]. *)
Lemma write_append_outcome (path_ltb : path -> path -> bool)
  (fs : filesystem) (q1 q2 : list (path * TableEntry))
  (destination : path) (overwrite : bool) :
    (forall a b, equivb path_ltb a b = true -> a = b) ->
    Forall (fresh_source fs destination) (q1 ++ q2) ->
    NoDup (queued_names (q1 ++ q2)) ->
    (exists_ fs destination = true -> overwrite = true) ->
    13 + Z.of_nat (List.length (payloads fs (q1 ++ q2))) < 2 ^ 63 ->
    exists w1 fs1 w2 fs2,
      writeArchive path_ltb (mk_Writer q1) fs destination overwrite
      = Returns (w1, fs1, true)
      /\ appendArchive (mk_Writer q2) fs1 destination
         = Returns (w2, fs2, true)
      /\ (forall p, p <> destination -> fs1 p = fs p)
      /\ let r := DatArchiveReader_new fs2 destination in
         reader_at r 0 = r
         /\ isOpen r = true /\ isBad r = false
         /\ size r = (List.length q1 + List.length q2)%nat
         /\ forall p e content,
              In (p, e) (q1 ++ q2) -> fs p = Some content ->
              forall fuel p0,
                (List.length (contents (archive r)) < fuel)%nat ->
                exists p1,
                  getFile fuel (reader_at r p0) (name e)
                  = Returns (reader_at r p1, content).
Proof.
  intros Hord Hfresh Hnd Hov Hb.
  apply Forall_app in Hfresh. destruct Hfresh as [Hfr1 Hfr2].
  unfold queued_names in Hnd. rewrite map_app in Hnd.
  fold (queued_names q1) in Hnd. fold (queued_names q2) in Hnd.
  pose proof (NoDup_app_remove_r _ _ Hnd) as Hnd1.
  pose proof (NoDup_app_remove_l _ _ Hnd) as Hnd2.
  assert (Hdisj : forall n, In n (queued_names q2) ->
                    ~ In n (queued_names q1)).
  { intros n H2 H1. apply in_split in H1.
    destruct H1 as (a & b & E). rewrite E in Hnd.
    rewrite <- app_assoc in Hnd. cbn [app] in Hnd.
    apply NoDup_remove_2 in Hnd. apply Hnd.
    rewrite app_assoc. apply in_or_app. right. exact H2. }
  rewrite payloads_app, length_app in Hb.
  assert (Hb1 : 13 + Z.of_nat (List.length (payloads fs q1)) < 2 ^ 63)
    by lia.
  (* the first archive *)
  destruct (written_archive_reader path_ltb fs q1 destination overwrite
              Hord Hfr1 Hnd1 Hov Hb1)
    as (Hw & Hr & HT & Hwfes & Hndes & Hnames & Hfs1 & _ & _).
  set (fsE := fs_store fs destination []) in *.
  set (es := written_entries 13 fsE q1) in *.
  assert (HP1 : payloads fsE q1 = payloads fs q1).
  { apply payloads_fs_store. rewrite Forall_forall in Hfr1.
    intros pe Hin. apply (Hfr1 pe Hin). }
  rewrite HP1 in *.
  set (T := 13 + Z.of_nat (List.length (payloads fs q1))) in *.
  set (D := header_bytes T ++ payloads fs q1 ++ table_bytes (map snd es))
    in *.
  set (fsA := fs_store fsE destination D) in *.
  assert (HfrE : Forall (fresh_source fsE destination) q1).
  { eapply Forall_impl; [|exact Hfr1]. intros pe.
    apply fresh_source_fs_store. }
  assert (Hwfa : well_formed_archive D T (payloads fs q1) (map snd es)).
  { split; [reflexivity|]. split; [reflexivity|].
    split; [exact Hwfes|]. split; [exact Hndes|].
    assert (H13 : 0 <= 13) by lia.
    pose proof (written_entries_regions fsE destination q1 13 HfrE H13)
      as Hreg.
    rewrite HP1 in Hreg. fold es in Hreg. fold T in Hreg.
    eapply Forall_impl; [|apply Hreg; exact HT].
    intros x Hx. cbn beta in Hx. lia. }
  (* the queue of the append *)
  assert (HfrA : Forall (fresh_source fsA destination) q2).
  { eapply Forall_impl; [|exact Hfr2]. intros pe H.
    apply fresh_source_fs_store. apply fresh_source_fs_store. exact H. }
  assert (HP2 : payloads fsA q2 = payloads fs q2).
  { unfold fsA, fsE. rewrite Forall_forall in Hfr2.
    rewrite !payloads_fs_store; auto;
      intros pe Hin; apply (Hfr2 pe Hin). }
  assert (Holdp : Permutation
                    (sort_by_dataStart
                       (getTable (DatArchiveReader_new fsA destination)))
                    (map snd es)).
  { rewrite sort_by_dataStart_perm. rewrite Hr.
    apply getTable_loaded. exact Hndes. }
  assert (Hkept : kept_queue
                    (sort_by_dataStart
                       (getTable (DatArchiveReader_new fsA destination)))
                    q2 = q2).
  { apply kept_queue_all. intros pe Hin.
    rewrite (Permutation_map name Holdp), Hnames. apply Hdisj.
    apply in_map_iff. exists pe. auto. }
  destruct (appendArchive_outcome fsA q2 destination D T (payloads fs q1)
              (map snd es) (fs_store_same _ _ _) Hwfa)
    as (D' & Happ & Hres);
    rewrite ?Hkept, ?HP2; auto; [unfold T; lia|].
  rewrite Hkept in Happ, Hres. cbv zeta in Hres.
  rewrite HP2 in Hres.
  destruct Hres as (Hold & _ & Hr' & HD' & Hnd' & Hes & Hq).
  set (old := sort_by_dataStart
                (getTable (DatArchiveReader_new fsA destination))) in *.
  set (new := written_entries T fsA q2) in *.
  set (T' := T + Z.of_nat (List.length (payloads fs q2))) in *.
  exists (mk_Writer es), fsA, (mk_Writer new), (fs_store fsA destination D').
  split; [exact Hw|]. split; [exact Happ|].
  split.
  { intros p Hp. unfold fsA, fsE. rewrite !fs_store_other by exact Hp.
    reflexivity. }
  cbv zeta.
  set (r' := DatArchiveReader_new (fs_store fsA destination D') destination)
    in *.
  split; [rewrite Hr'; reflexivity|].
  split; [rewrite Hr'; reflexivity|].
  split; [rewrite Hr'; reflexivity|].
  split.
  { rewrite Hr'. unfold size, loaded_reader. cbn [entries].
    rewrite (Permutation_length
               (emplace_all_perm (old ++ map snd new) [] Hnd'
                  (fun _ _ => eq_refl))).
    rewrite app_nil_r, length_map, length_app, !length_map.
    rewrite (Permutation_length Hold), length_map.
    unfold es, new. rewrite !length_written_entries. reflexivity. }
  intros p e content Hin Hfs fuel p0 Hfuel.
  apply in_app_or in Hin. destruct Hin as [Hin|Hin].
  - (* a file of the first queue *)
    rewrite Forall_forall in Hfr1. pose proof (Hfr1 (p, e) Hin) as Hfr.
    destruct (fresh_source_facts _ _ _ Hfr) as (Hc0 & _ & Hm).
    destruct Hfr as (Hpd & _ & (content' & Hfs2 & Hsz)).
    cbn [fst snd] in *. rewrite Hfs in Hfs2. injection Hfs2 as <-.
    assert (HfsE : fsE p = Some content)
      by (unfold fsE; rewrite fs_store_other by exact Hpd; exact Hfs).
    destruct (in_split _ _ Hin) as (l1 & l2 & Hsplit).
    set (e1 := written_entry (13 + Z.of_nat (List.length (payloads fsE l1)))
                             fsE (p, e)).
    assert (Hin1 : In e1 (map snd es)).
    { unfold es. rewrite Hsplit, written_entries_app, map_app.
      apply in_or_app. right. left. reflexivity. }
    destruct (Hes e1 Hin1) as [Hf1 _].
    rewrite Hr' in Hf1. unfold loaded_reader in Hf1. cbn [entries] in Hf1.
    replace (name e1) with (name e) in Hf1
      by (symmetry; apply (name_written_entry _ fsE (p, e))).
    rewrite Hr' in Hfuel |- *.
    unfold loaded_reader in Hfuel. cbn [archive contents mk_clean] in Hfuel.
    assert (HDq : D' = header_bytes T' ++ payloads fsE (l1 ++ (p, e) :: l2)
                       ++ (payloads fs q2
                           ++ table_bytes (old ++ map snd new))).
    { rewrite HD', <- Hsplit, HP1. repeat rewrite <- app_assoc.
      reflexivity. }
    rewrite HDq in Hfuel |- *.
    apply (written_archive_entry destination fsE T' _ l1 p e l2
             (payloads fs q2 ++ table_bytes (old ++ map snd new)) content);
      auto.
    rewrite <- Hsplit, HP1. unfold T'. lia.
  - (* a file of the second queue *)
    apply (Hq p e content Hin); [|rewrite Hr' in Hfuel; exact Hfuel].
    rewrite Forall_forall in Hfr2.
    destruct (Hfr2 (p, e) Hin) as (Hpd & _). cbn [fst] in Hpd.
    unfold fsA, fsE. rewrite !fs_store_other by exact Hpd. exact Hfs.
Qed.

End WriteAppend.




(* ------------------------------------------------------------------ *)
(** *** The example program *)

Section ExampleProgram.
Context {codec : zlib.Codec} {laws : zlib.CodecLaws codec}.
Variable path_ltb : path -> path -> bool.
Hypothesis path_equiv : forall a b, equivb path_ltb a b = true -> a = b.

Lemma queueFile_adds w fs p e :
  exists_ fs p = true ->
  (forall pe, In pe (fileEntries w) -> fst pe <> p) ->
  exists q,
    queueFile path_ltb w fs p e = (mk_Writer q, true)
    /\ Permutation q ((p, e) :: fileEntries w).
Proof.
  intros Hex Hnew.
  assert (Hn : map_find path_ltb p (fileEntries w) = None)
    by (apply (not_queued_find path_ltb path_equiv); exact Hnew).
  unfold queueFile.
  replace (0 <? map_count path_ltb p (fileEntries w))%nat with false
    by (symmetry; apply map_count_find; exact Hn).
  rewrite Hex. cbn [negb].
  eexists. split; [reflexivity|]. apply map_emplace_perm. exact Hn.
Qed.

Lemma length_payloads_perm fs l l' :
  Permutation l l' ->
  List.length (payloads fs l) = List.length (payloads fs l').
Proof.
  induction 1 as [|x l l' _ IH|x y l|l l' l'' _ IH1 _ IH2];
    rewrite ?payloads_cons, ?length_app; try lia.
Qed.

End ExampleProgram.



(* ------------------------------------------------------------------ *)
(** *** Archives without entries, and files that are no archives *)



Lemma foreign_reader_is_bad fs p d :
  fs p = Some d -> (5 <= List.length d)%nat ->
  firstn 5 d <> DATFILESIGNATURE ++ [x01] ->
  isBad (DatArchiveReader_new fs p) = true.
Proof.
  intros Hfs Hlen Hne.
  destruct d as [|b0 [|b1 [|b2 [|b3 [|b4 rest]]]]];
    cbn [List.length] in Hlen; try lia.
  unfold DatArchiveReader_new.
  rewrite (openArchive_five_bytes fs p p b0 b1 b2 b3 b4 rest Hfs).
  cbv zeta.
  destruct (validateArchive [b0; b1; b2; b3] (Z_of_byte b4)) eqn:Ev;
    cbn [negb]; [|reflexivity].
  exfalso. apply Hne. apply validateArchive_spec in Ev.
  destruct Ev as [Hs Hv]. cbn [firstn].
  unfold DATFILESIGNATURE in *. injection Hs as -> -> -> ->.
  cbn [app]. do 4 f_equal. f_equal.
  apply Z_of_byte_inj. exact Hv.
Qed.

(** X15.  [appendArchive] refuses what is no archive: for a destination
    that is missing, or that has five bytes or more and does not start
    with the signature and the version 1, it returns [false] and changes
    neither the files nor the queue. *)
Theorem appendArchive_rejects_foreign :
  forall (codec : zlib.Codec) (w : DatArchiveWriter) (fs : filesystem)
         (destination : path),
    fs destination = None
    \/ (exists d,
          fs destination = Some d /\ (5 <= List.length d)%nat
          /\ firstn 5 d <> DATFILESIGNATURE ++ [x01]) ->
    appendArchive w fs destination = Returns (w, fs, false).
Proof.
  intros codec w fs destination [Hn|(d & Hfs & Hlen & Hne)];
    unfold appendArchive, exists_.
  - rewrite Hn. reflexivity.
  - rewrite Hfs. cbn [negb].
    rewrite (foreign_reader_is_bad fs destination d Hfs Hlen Hne).
    reflexivity.
Qed.

(** The theorem at a file that starts with another signature. *)
Lemma appendArchive_rejects_foreign_witness :
  appendArchive (codec := toy_codec) (mk_Writer roundtrip_queue) foreign_fs
                "foreign.zip"
  = Returns (mk_Writer roundtrip_queue, foreign_fs, false).
Proof.
  apply (appendArchive_rejects_foreign toy_codec (mk_Writer roundtrip_queue)
           foreign_fs "foreign.zip").
  right. exists [x50; x4b; x03; x04; x14; x00].
  split; [reflexivity|]. split; [cbn; lia|discriminate].
Defined.

(* ------------------------------------------------------------------ *)
(** *** Names of [2 ^ 16] bytes or more *)

Lemma length_string_of_list_byte l :
  String.length (string_of_list_byte l) = List.length l.
Proof.
  rewrite <- (length_list_byte_of_string (string_of_list_byte l)).
  rewrite list_byte_of_string_of_list_byte. reflexivity.
Qed.

Lemma length_clipped_name n :
  Z.of_nat (String.length (clipped_name n))
  = uint16 (Z.of_nat (String.length n)).
Proof.
  unfold clipped_name. rewrite length_string_of_list_byte, length_firstn.
  rewrite length_list_byte_of_string.
  assert (H : 0 <= uint16 (Z.of_nat (String.length n))
              <= Z.of_nat (String.length n)).
  { unfold uint16, wrap. split.
    - apply Z.mod_pos_bound. reflexivity.
    - apply Z.mod_le; [lia|reflexivity]. }
  lia.
Qed.

Lemma clipped_name_short n :
  Z.of_nat (String.length n) < 2 ^ 16 -> clipped_name n = n.
Proof.
  intros H. unfold clipped_name. rewrite (uint_small 16) by lia.
  rewrite Nat2Z.id, firstn_all2
    by (rewrite length_list_byte_of_string; lia).
  apply string_of_list_byte_of_string.
Qed.

Lemma entry_bytes_clip e : entry_bytes (clip_name e) = entry_bytes e.
Proof.
  unfold entry_bytes, clip_name.
  cbn [name set_name compressionMethod fileFlags crc32 originalSize
       dataStart dataEnd].
  rewrite length_clipped_name.
  assert (Hi : uint16 (uint16 (Z.of_nat (String.length (name e))))
               = uint16 (Z.of_nat (String.length (name e)))).
  { unfold uint16, wrap. apply Z.mod_mod. discriminate. }
  rewrite Hi. unfold clipped_name at 1.
  rewrite list_byte_of_string_of_list_byte, firstn_firstn, Nat.min_id.
  reflexivity.
Qed.

Lemma wf_clip_name e :
  0 <= crc32 e < 2 ^ 32 -> 0 <= originalSize e < 2 ^ 64 ->
  0 <= dataStart e < 2 ^ 64 -> 0 <= dataEnd e < 2 ^ 64 ->
  wf_entry (clip_name e).
Proof.
  intros H1 H2 H3 H4. unfold wf_entry, clip_name.
  cbn [name set_name crc32 originalSize dataStart dataEnd].
  rewrite length_clipped_name.
  pose proof (Z.mod_pos_bound (Z.of_nat (String.length (name e))) (2 ^ 16)
                eq_refl) as Hm.
  unfold uint16, wrap. repeat split; lia.
Qed.

(** X16.  Names are clipped to what two bytes can count: after the
    header, any payload bytes, the location of the table and the table
    of any entries have been written, the reader holds each entry under
    the first bytes of its name, as many as the length of the name
    modulo [2 ^ 16]; an entry whose name is shorter than [2 ^ 16] bytes
    is held as it is, and one whose name is not cannot be found under
    its name. *)
Theorem long_names_are_clipped :
  forall (fs : filesystem) (p : path) (body : bytes)
         (es : list TableEntry),
    Forall (fun e => wf_entry (clip_name e)) es ->
    NoDup (map (fun e => clipped_name (name e)) es) ->
    13 + Z.of_nat (List.length body) < 2 ^ 63 ->
    let s0 := fs_write (writeHeader (mk_fstream [] 0 false)) body in
    let s := writeTable_entries (writeTableLocation s0) es in
    let r := DatArchiveReader_new (fs_store fs p (data s)) p in
    isOpen r = true /\ isBad r = false
    /\ Permutation (getTable r) (map clip_name es)
    /\ forall e, In e es ->
         getFileEntry r (clipped_name (name e)) = Returns (clip_name e)
         /\ (Z.of_nat (String.length (name e)) < 2 ^ 16 -> clip_name e = e)
         /\ (2 ^ 16 <= Z.of_nat (String.length (name e)) ->
             contains r (name e) = false).
Proof.
  intros fs p body es Hwf Hnd Hb s0 s r.
  assert (Htb : table_bytes es = table_bytes (map clip_name es)).
  { unfold table_bytes. rewrite map_map. f_equal. apply map_ext.
    intros e. symmetry. apply entry_bytes_clip. }
  assert (Hd : data s = header_bytes (13 + Z.of_nat (List.length body))
                        ++ body ++ table_bytes (map clip_name es)).
  { pose proof writeHeader_at_pos as H.
    apply (fs_write_at_pos _ _ _ body) in H. fold s0 in H.
    apply writeTableLocation_at_pos in H; [|exact Hb].
    apply (writeTable_entries_at_pos es) in H. fold s in H.
    destruct H as (H & _ & _). rewrite H, Htb.
    rewrite !skipn_nil, app_nil_r, <- app_assoc. reflexivity. }
  assert (Hwf' : Forall wf_entry (map clip_name es)).
  { apply Forall_map. exact Hwf. }
  assert (Hnd' : NoDup (map name (map clip_name es))).
  { rewrite map_map. exact Hnd. }
  assert (Hr : r = loaded_reader p (data s)
                     (13 + Z.of_nat (List.length body))
                     (emplace_all (map clip_name es) [])).
  { unfold r.
    apply (open_archive_table _ p (data s) _ body (map clip_name es)); auto.
    apply fs_store_same. }
  rewrite Hr. split; [reflexivity|]. split; [reflexivity|].
  split; [apply getTable_loaded; exact Hnd'|].
  intros e Hin. split; [|split].
  - unfold getFileEntry, loaded_reader.
    cbn [openFlag badFlag negb orb entries].
    change (clipped_name (name e)) with (name (clip_name e)).
    rewrite find_emplace_all; auto. apply in_map. exact Hin.
  - intros Hs. unfold clip_name. rewrite clipped_name_short by exact Hs.
    destruct e; reflexivity.
  - intros Hl. apply contains_false_find. unfold loaded_reader.
    cbn [entries]. apply find_emplace_all_other.
    intros Hc. apply in_map_iff in Hc. destruct Hc as (x & Hx & Hxin).
    apply in_map_iff in Hxin. destruct Hxin as (y & <- & _).
    pose proof (length_clipped_name (name y)) as Hy.
    cbn [name clip_name set_name] in Hx. rewrite Hx in Hy.
    pose proof (Z.mod_pos_bound (Z.of_nat (String.length (name y)))
                  (2 ^ 16) eq_refl) as Hm.
    unfold uint16, wrap in Hy. lia.
Qed.

(** The theorem at an entry whose name has [2 ^ 16 + 1] bytes. *)
Lemma long_names_are_clipped_witness :
  contains
    (DatArchiveReader_new
       (fs_store sample_fs "t.dat"
          (data (writeTable_entries
                   (writeTableLocation
                      (fs_write (writeHeader (mk_fstream [] 0 false)) []))
                   [long_named])))
       "t.dat")
    (name long_named)
  = false.
Proof.
  destruct (long_names_are_clipped sample_fs "t.dat" [] [long_named])
    as (_ & _ & _ & H).
  - constructor; [|constructor]. apply wf_clip_name;
      unfold long_named, TableEntry_new;
      cbn [crc32 originalSize dataStart dataEnd]; lia.
  - constructor; [intros []|constructor].
  - cbn [List.length]. lia.
  - destruct (H long_named (or_introl eq_refl)) as (_ & _ & Hc).
    apply Hc. unfold long_named, TableEntry_new. cbn [name].
    rewrite length_string_of_list_byte. cbn [List.length].
    rewrite repeat_length. lia.
Defined.

(* ------------------------------------------------------------------ *)
(** *** Calls of [getFile] one after the other *)

Section MapFindEmplace.
Variables (K V : Type) (ltb : K -> K -> bool).

Lemma map_find_emplace_cases k k' v e (m : list (K * V)) :
  map_find ltb k (map_emplace ltb k' v m) = Some e ->
  map_find ltb k m = Some e \/ e = v.
Proof.
  induction m as [|[k2 v2] m IH]; cbn [map_emplace map_find].
  - destruct (equivb ltb k k'); intros H; [|discriminate H].
    injection H as <-. auto.
  - destruct (ltb k' k2).
    + cbn [map_find]. destruct (equivb ltb k k').
      * intros H. injection H as <-. auto.
      * auto.
    + destruct (ltb k2 k').
      * cbn [map_find]. destruct (equivb ltb k k2); auto.
      * cbn [map_find]. auto.
Qed.

End MapFindEmplace.

Lemma find_emplace_all_In k e es :
  forall idx,
    map_find String.ltb k (emplace_all es idx) = Some e ->
    map_find String.ltb k idx = Some e \/ In e es.
Proof.
  induction es as [|x es IH]; intros idx H; cbn [emplace_all fold_left] in H.
  - auto.
  - apply IH in H. destruct H as [H|H]; [|right; right; exact H].
    apply map_find_emplace_cases in H.
    destruct H as [H| ->]; [auto|right; left; reflexivity].
Qed.

Section ReaderAfterExtraction.
Context {codec : zlib.Codec}.

Lemma extractFile_reader r d p0 entry buffer v S E r1 buf n :
  archive r = mk_clean d p0 ->
  dataStart entry = Z.of_nat S ->
  dataEnd entry = Z.of_nat E ->
  (S <= E)%nat -> (E <= List.length d)%nat ->
  dataEnd entry < 2 ^ 63 ->
  extractFile r entry buffer v = Returns (r1, buf, n) ->
  r1 = set_archive r (mk_clean d E).
Proof.
  intros Ha Hs He HSE Hd Hb H.
  unfold extractFile, sizeInArchive in H. rewrite Ha, Hs, He in H.
  replace (Z.of_nat E - Z.of_nat S) with (Z.of_nat (E - S)) in H by lia.
  rewrite (uint64_small (Z.of_nat (E - S))) in H by lia.
  rewrite !int64_small in H by lia.
  rewrite ifs_seekg_clean in H by lia.
  rewrite ifs_read_clean_full in H by (rewrite ?length_skipn; lia).
  rewrite !Nat2Z.id in H.
  replace (S + (E - S))%nat with E in H by lia.
  destruct (buffer_store buffer 0 _) as [b|]; [|discriminate H].
  destruct (List.length b <? _)%nat; [discriminate H|].
  destruct (v && _); injection H as <- _ _; reflexivity.
Qed.

Lemma zlibExtractFile_loop_reader d entry v E :
  dataEnd entry = Z.of_nat E ->
  dataEnd entry < 2 ^ 63 ->
  (E <= List.length d)%nat ->
  forall fuel p r inb crc strm ao no buffer site r1 buf n,
    (p <= E)%nat ->
    badFlag r = false ->
    zlibExtractFile_loop fuel entry v
      (mk_loop_state (set_archive r (mk_clean d p)) inb crc strm ao no buffer)
    = Returns (site, (r1, buf, n)) ->
    exists p1, r1 = set_archive r (mk_clean d p1).
Proof.
  intros HE Hb Hd.
  pose proof CHUNKSIZE_pos as Cp. pose proof CHUNKSIZE_small as Cs.
  induction fuel as [|fuel IH];
    intros p r inb crc strm ao no buffer site r1 buf n Hp Hbf H;
    [discriminate H|].
  cbn [zlibExtractFile_loop ls_reader ls_in ls_crc ls_strm ls_avail_out
       ls_next_out ls_buffer] in H.
  cbn [archive set_archive] in H. rewrite !ifs_tellg_clean in H.
  rewrite (uint64_small (Z.of_nat p)) in H by lia.
  rewrite (uint64_small (Z.of_nat p + CHUNKSIZE)) in H by lia.
  rewrite HE in H.
  set (ab := if Z.of_nat p + CHUNKSIZE <? Z.of_nat E then CHUNKSIZE
             else uint64 (Z.of_nat E - Z.of_nat p)) in H.
  assert (Hab : 0 <= ab < 2 ^ 32 /\ (p + Z.to_nat ab <= E)%nat).
  { unfold ab. destruct (Z.of_nat p + CHUNKSIZE <? Z.of_nat E) eqn:Ecmp.
    - apply Z.ltb_lt in Ecmp. lia.
    - apply Z.ltb_ge in Ecmp. rewrite uint64_small by lia. lia. }
  destruct Hab as [Hab1 Hab2]. clearbody ab.
  rewrite int64_small in H by lia.
  rewrite ifs_read_clean_full in H by (rewrite ?length_skipn; lia).
  set (got := firstn (Z.to_nat ab) (skipn p d)) in H.
  destruct (CHUNKSIZE <? Z.of_nat (List.length got)); [discriminate H|].
  cbn [bad mk_clean badbit] in H.
  destruct (List.length (overlay got inb) <? Z.to_nat (uint32 ab))%nat;
    [discriminate H|].
  destruct (zlib.inflate strm
              (firstn (Z.to_nat (uint32 ab)) (overlay got inb)) ao)
    as [[rc strm'] o].
  destruct (ao <? List.length o)%nat; [discriminate H|].
  destruct (buffer_store buffer no o) as [b|]; [|discriminate H].
  assert (Hflag : set_badFlag (set_archive r (mk_clean d (p + Z.to_nat ab)))
                              false
                  = set_archive r (mk_clean d (p + Z.to_nat ab))).
  { unfold set_badFlag, set_archive.
    cbn [archivePath archive archiveVersion tableOffset entries openFlag
         badFlag]. rewrite <- Hbf. reflexivity. }
  destruct rc;
    try (apply (IH _ (set_archive r (mk_clean d p))) in H;
         [destruct H as [p1 ->]; exists p1; reflexivity|lia|exact Hbf]);
    try (injection H as _ <- _ _; exists (p + Z.to_nat ab)%nat;
         first [exact Hflag|reflexivity]).
  destruct (v && _); injection H as _ <- _ _;
    exists (p + Z.to_nat ab)%nat; reflexivity.
Qed.

End ReaderAfterExtraction.

(** X17.  Calls of [getFile] do not disturb one another: for the reader
    of a well-formed archive, a call that returns leaves the reader as
    it was but for the position of its stream, and what a call gives
    does not depend on that position; so every call on a name gives what
    the first call on a fresh reader gives. *)
Theorem getFile_repeatable :
  forall (codec : zlib.Codec) (fs : filesystem) (p : path) (D : bytes)
         (T : Z) (body : bytes) (es : list TableEntry),
    fs p = Some D ->
    well_formed_archive D T body es ->
    T < 2 ^ 63 ->
    let r := DatArchiveReader_new fs p in
    reader_at r 0 = r
    /\ forall n fuel p0,
         (forall p0',
            run_map snd (getFile fuel (reader_at r p0) n)
            = run_map snd (getFile fuel (reader_at r p0') n))
         /\ (forall r1 out,
               getFile fuel (reader_at r p0) n = Returns (r1, out) ->
               exists p1, r1 = reader_at r p1).
Proof.
  intros codec fs p D T body es Hfs Hwfa HT r.
  pose proof Hwfa as (HD & HTb & Hwf & Hnd & Hreg).
  assert (Hr : r = loaded_reader p D T (emplace_all es [])).
  { unfold r. apply (open_archive_table fs p D T body es); auto. }
  rewrite Hr. split; [reflexivity|].
  intros n fuel p0.
  set (idx := emplace_all es []).
  assert (Hat : forall q,
            reader_at (loaded_reader p D T idx) q
            = mk_Reader p (mk_clean D q) DATFILEVERSION T idx true false)
    by reflexivity.
  destruct (map_find String.ltb n idx) as [e|] eqn:Ef.
  - (* the name is in the index *)
    assert (Hin : In e es).
    { apply find_emplace_all_In in Ef. destruct Ef as [Ef|Ef];
        [discriminate Ef|exact Ef]. }
    rewrite Forall_forall in Hreg. destruct (Hreg e Hin) as (Hse & HeT).
    assert (HlenD : List.length D
                    = (13 + List.length body
                       + List.length (table_bytes es))%nat).
    { rewrite HD, !length_app, length_header_bytes. lia. }
    split.
    + intros p0'. rewrite !Hat.
      apply (getFile_same p p D D p0 p0' _ _ T T idx idx n e
               (Z.to_nat (dataStart e)) (Z.to_nat (dataEnd e)) fuel);
        auto; lia.
    + intros r1 out H. rewrite Hat in H. unfold getFile in H.
      cbn [openFlag badFlag negb orb] in H.
      assert (Hc : contains
                     (mk_Reader p (mk_clean D p0) DATFILEVERSION T idx true
                                false) n = true).
      { apply contains_find. cbn [entries]. rewrite Ef. discriminate. }
      rewrite Hc in H. cbn [negb] in H.
      unfold getFileEntry in H.
      cbn [openFlag badFlag negb orb entries] in H.
      rewrite Ef in H. cbn [bind] in H.
      bind_inv H. destruct a as [[r2 dest] written].
      assert (Hr2 : exists p1,
                r2 = set_archive
                       (mk_Reader p (mk_clean D p0) DATFILEVERSION T idx
                                  true false) (mk_clean D p1)).
      { unfold getFileFromEntry in Ha.
        destruct (Byte.eqb (compressionMethod e) NONE).
        - exists (Z.to_nat (dataEnd e)).
          refine (extractFile_reader
                    (mk_Reader p (mk_clean D p0) DATFILEVERSION T idx true
                               false)
                    D p0 e _ true
                    (Z.to_nat (dataStart e)) (Z.to_nat (dataEnd e))
                    _ dest written eq_refl _ _ _ _ _ Ha); lia.
        - destruct (Byte.eqb (compressionMethod e) ZLIB).
          + unfold zlibExtractFile, zlibExtractFile_from in Ha.
            cbn [archive] in Ha.
            rewrite int64_small in Ha by lia.
            rewrite ifs_seekg_clean in Ha by lia.
            destruct zlib.inflateInit as [rc strm].
            destruct (negb (zlib.ret_code_eqb rc zlib.Z_OK)).
            * cbn [bind snd] in Ha. injection Ha as <- _ _.
              eexists. reflexivity.
            * bind_inv Ha. destruct a as [site [[r3 b3] n3]].
              cbn [snd] in Ha. injection Ha as -> -> ->.
              apply (zlibExtractFile_loop_reader D e true
                       (Z.to_nat (dataEnd e))) in Ha0;
                auto; try lia.
          + injection Ha as <- _ _. exists p0. reflexivity. }
      destruct Hr2 as [p1 ->].
      exists p1. rewrite Hat.
      destruct (negb (written =? 0)); injection H as <- _; reflexivity.
  - (* the name is not in the index *)
    assert (Hc : forall q,
              contains (mk_Reader p (mk_clean D q) DATFILEVERSION T idx true
                                  false) n = false).
    { intros q. apply contains_false_find. cbn [entries]. exact Ef. }
    split.
    + intros p0'. rewrite !Hat. unfold getFile.
      cbn [openFlag badFlag negb orb]. rewrite !Hc. reflexivity.
    + intros r1 out H. rewrite Hat in H. unfold getFile in H.
      cbn [openFlag badFlag negb orb] in H. rewrite Hc in H.
      cbn [negb] in H. injection H as <- _. exists p0. rewrite Hat.
      reflexivity.
Qed.

(** The theorem at the archive of one file. *)
Lemma getFile_repeatable_witness :
  run_map snd
    (getFile (codec := toy_codec) 3
       (reader_at (DatArchiveReader_new append_fs "out.dat") 0) "Test")
  = run_map snd
      (getFile (codec := toy_codec) 3
         (reader_at (DatArchiveReader_new append_fs "out.dat") 15)
         "Test").
Proof.
  destruct (getFile_repeatable toy_codec append_fs "out.dat" old_archive 15
              [x68; x69] [old_entry] eq_refl old_archive_well_formed)
    as [_ H].
  - lia.
  - apply (H "Test"%string 3%nat 0%nat).
Defined.

(* ------------------------------------------------------------------ *)
(** *** The order of the index *)

Lemma ascii_compare_refl a : Ascii.compare a a = Eq.
Proof. unfold Ascii.compare. apply N.compare_refl. Qed.

Lemma ascii_compare_lt_trans a b c :
  Ascii.compare a b = Lt -> Ascii.compare b c = Lt ->
  Ascii.compare a c = Lt.
Proof.
  unfold Ascii.compare. rewrite !N.compare_lt_iff. apply N.lt_trans.
Qed.

Lemma string_compare_lt_trans :
  forall s1 s2 s3,
    String.compare s1 s2 = Lt -> String.compare s2 s3 = Lt ->
    String.compare s1 s3 = Lt.
Proof.
  induction s1 as [|a s1 IH]; intros [|b s2] [|c s3] H1 H2;
    cbn [String.compare] in *; try discriminate; try reflexivity.
  destruct (Ascii.compare a b) eqn:E1; try discriminate H1;
    destruct (Ascii.compare b c) eqn:E2; try discriminate H2.
  - apply Ascii.compare_eq_iff in E1, E2. subst.
    rewrite ascii_compare_refl. eapply IH; eassumption.
  - apply Ascii.compare_eq_iff in E1. subst. rewrite E2. reflexivity.
  - apply Ascii.compare_eq_iff in E2. subst. rewrite E1. reflexivity.
  - rewrite (ascii_compare_lt_trans _ _ _ E1 E2). reflexivity.
Qed.

Lemma string_ltb_trans a b c :
  String.ltb a b = true -> String.ltb b c = true -> String.ltb a c = true.
Proof.
  unfold String.ltb. intros H1 H2.
  destruct (String.compare a b) eqn:E1; try discriminate H1.
  destruct (String.compare b c) eqn:E2; try discriminate H2.
  rewrite (string_compare_lt_trans _ _ _ E1 E2). reflexivity.
Qed.

Lemma string_ltb_irrefl a : String.ltb a a = false.
Proof. unfold String.ltb. rewrite string_compare_refl. reflexivity. Qed.

Section SortedEmplace.
Variables (K V : Type) (ltb : K -> K -> bool).
Hypothesis ltb_trans :
  forall a b c, ltb a b = true -> ltb b c = true -> ltb a c = true.

Lemma map_emplace_In x k v (m : list (K * V)) :
  In x (map_emplace ltb k v m) -> x = (k, v) \/ In x m.
Proof.
  induction m as [|[k2 v2] m IH]; cbn [map_emplace].
  - intros [<-|[]]. auto.
  - destruct (ltb k k2).
    + intros [<-|H]; auto.
    + destruct (ltb k2 k); [|auto].
      intros [<-|H]; [right; left; reflexivity|].
      apply IH in H. destruct H; [auto|right; right; assumption].
Qed.

Lemma map_emplace_sorted k v (m : list (K * V)) :
  StronglySorted (fun a b => ltb a b = true) (map fst m) ->
  StronglySorted (fun a b => ltb a b = true)
                 (map fst (map_emplace ltb k v m)).
Proof.
  induction m as [|[k2 v2] m IH]; cbn [map_emplace map fst]; intros Hs.
  - repeat constructor.
  - inversion Hs as [|? ? Hs' Hall]; subst.
    destruct (ltb k k2) eqn:E1.
    + cbn [map fst]. constructor; [exact Hs|].
      constructor; [exact E1|].
      eapply Forall_impl; [|exact Hall].
      intros x Hx. cbn beta in Hx. eapply ltb_trans; eassumption.
    + destruct (ltb k2 k) eqn:E2; [|exact Hs].
      cbn [map fst]. constructor; [apply IH; exact Hs'|].
      apply Forall_forall. intros x Hx. apply in_map_iff in Hx.
      destruct Hx as (kv & <- & Hin). apply map_emplace_In in Hin.
      destruct Hin as [->|Hin]; [exact E2|].
      rewrite Forall_forall in Hall. apply Hall. apply in_map. exact Hin.
Qed.

End SortedEmplace.

Lemma sorted_names_NoDup (l : list string) :
  StronglySorted (fun a b => String.ltb a b = true) l -> NoDup l.
Proof.
  induction 1 as [|a l _ IH Hall]; constructor; [|exact IH].
  intros Hin. rewrite Forall_forall in Hall. apply Hall in Hin.
  rewrite string_ltb_irrefl in Hin. discriminate Hin.
Qed.

(** The two parts of [index_ok], for an index. *)
Definition index_in_order (m : list (string * TableEntry)) : Prop :=
  StronglySorted (fun a b => String.ltb a b = true) (map fst m)
  /\ Forall (fun kv => name (snd kv) = fst kv) m.

Lemma emplace_in_order e m :
  index_in_order m ->
  index_in_order (map_emplace String.ltb (name e) e m).
Proof.
  intros [Hs Hk]. split.
  - apply map_emplace_sorted; [exact string_ltb_trans|exact Hs].
  - apply Forall_forall. intros x Hx. apply map_emplace_In in Hx.
    destruct Hx as [->|Hx]; [reflexivity|].
    rewrite Forall_forall in Hk. apply Hk. exact Hx.
Qed.

Lemma loadTable_loop_in_order fuel :
  forall a es,
    index_in_order es -> index_in_order (snd (loadTable_loop fuel a es)).
Proof.
  induction fuel as [|fuel IH]; intros a es H; cbn [loadTable_loop].
  - exact H.
  - unfold read_uint.
    repeat match goal with
    | |- context [ifs_read ?s ?n] => destruct (ifs_read s n) as [? ?]
    | |- context [if fail ?s then _ else _] => destruct (fail s)
    end; cbn [fst snd].
    + exact H.
    + apply IH. apply emplace_in_order. exact H.
Qed.

Lemma loadTable_in_order r :
  index_in_order (entries r) ->
  index_in_order (entries (fst (loadTable r))).
Proof.
  intros H. unfold loadTable.
  destruct (fail _ || _); cbn [fst]; [exact H|].
  pose proof (loadTable_loop_in_order
                (S (List.length
                      (contents (ifs_seekg (archive r)
                                           (int64 (tableOffset r))))))
                (ifs_seekg (archive r) (int64 (tableOffset r)))
                (entries r) H) as Hl.
  destruct (loadTable_loop _ _ _) as [a es]. cbn [fst snd] in *.
  exact Hl.
Qed.

Lemma openArchive_in_order r fs p :
  index_in_order (entries r) ->
  index_in_order (entries (fst (openArchive r fs p))).
Proof.
  intros H. unfold openArchive.
  destruct (negb (exists_ fs p) && negb (is_directory fs p));
    [exact H|].
  cbv zeta.
  destruct (fail _); [exact H|].
  destruct (ifs_read _ 4) as [a0 got].
  destruct (read_uint a0 1 _) as [a1 v].
  destruct (negb (validateArchive _ _)); [exact H|].
  destruct (read_uint a1 8 _) as [a2 t].
  apply loadTable_in_order. exact H.
Qed.

(** X18.  The index of a reader is always in order.  A reader made by
    the constructor, and a reader after any further [openArchive] on any
    file whatever (valid archive or not), lists its names in strictly
    ascending byte order and holds each entry under the entry's own
    name; so [listFiles] has no name twice, and no two entries of
    [getTable] share a name. *)
Theorem reader_index_in_order :
  (forall (fs : filesystem) (p : path),
      index_ok (DatArchiveReader_new fs p))
  /\ (forall (r : DatArchiveReader) (fs : filesystem) (p : path),
         index_ok r -> index_ok (fst (openArchive r fs p)))
  /\ (forall r : DatArchiveReader,
         index_ok r ->
         NoDup (listFiles r)
         /\ map name (getTable r) = listFiles r
         /\ NoDup (map name (getTable r))).
Proof.
  split; [|split].
  - intros fs p. unfold DatArchiveReader_new.
    apply (openArchive_in_order (DatArchiveReader_initial p) fs p).
    split; constructor.
  - intros r fs p H. apply (openArchive_in_order r fs p H).
  - intros r [Hs Hk].
    assert (Hn : map name (getTable r) = listFiles r).
    { unfold getTable, listFiles. rewrite map_map.
      apply map_ext_in. intros kv Hin.
      rewrite Forall_forall in Hk. apply Hk. exact Hin. }
    split; [apply sorted_names_NoDup; exact Hs|].
    split; [exact Hn|].
    rewrite Hn. apply sorted_names_NoDup. exact Hs.
Qed.

(* ------------------------------------------------------------------ *)
(** *** A reader that holds an open stream *)

Lemma ifs_seekg_is_open s pos : is_open (ifs_seekg s pos) = is_open s.
Proof.
  unfold ifs_seekg. cbv zeta.
  destruct (fail _); [reflexivity|].
  destruct (_ || _); reflexivity.
Qed.

Lemma read_uint_is_open s w old :
  is_open (fst (read_uint s w old)) = is_open s.
Proof.
  unfold read_uint.
  pose proof (ifs_read_frame s (Z.of_nat w)) as (_ & F & _).
  destruct (ifs_read s (Z.of_nat w)) as [s' got]. exact F.
Qed.

Lemma loadTable_stream_open r :
  is_open (archive (fst (loadTable r))) = is_open (archive r)
  /\ openFlag (fst (loadTable r)) = openFlag r.
Proof.
  unfold loadTable.
  destruct (fail _ || _); cbn [fst].
  - destruct r; cbn. split; [apply ifs_seekg_is_open|reflexivity].
  - pose proof (loadTable_loop_frame
                  (S (List.length
                        (contents (ifs_seekg (archive r)
                                             (int64 (tableOffset r))))))
                  (ifs_seekg (archive r) (int64 (tableOffset r)))
                  (entries r)) as (_ & F & _).
    destruct (loadTable_loop _ _ _) as [a es]. cbn [fst] in *.
    destruct r as [ap a0 av t es0 o b].
    cbn [set_entries set_archive archive openFlag tableOffset] in *.
    rewrite ifs_seekg_is_open. unfold ifs_clear. cbn [is_open].
    rewrite F, ifs_seekg_is_open.
    split; reflexivity.
Qed.

Lemma constructed_reader_open fs p d :
  fs p = Some d ->
  openFlag (DatArchiveReader_new fs p) = true
  /\ is_open (archive (DatArchiveReader_new fs p)) = true.
Proof.
  intros Hfs. unfold DatArchiveReader_new, openArchive, exists_.
  rewrite Hfs. cbn [negb andb]. cbv zeta.
  unfold DatArchiveReader_initial, ifs_open.
  cbn [set_openFlag set_badFlag set_archive archive archivePath
       archiveVersion tableOffset entries openFlag badFlag
       closed_ifstream is_open fail failbit badbit orb].
  pose proof (ifs_read_frame (mk_ifstream d 0 true false false false None) 4)
    as (_ & F0 & _).
  destruct (ifs_read _ 4) as [a0 got]. cbn [fst] in F0. cbn [is_open] in F0.
  match goal with
  | |- context [read_uint a0 1 ?o] =>
      pose proof (read_uint_is_open a0 1 o) as F1;
      destruct (read_uint a0 1 o) as [a1 v]
  end.
  cbn [fst] in F1.
  destruct (negb (validateArchive _ _)).
  - cbn. rewrite F1, F0. auto.
  - match goal with
    | |- context [read_uint a1 8 ?o] =>
        pose proof (read_uint_is_open a1 8 o) as F2;
        destruct (read_uint a1 8 o) as [a2 t]
    end.
    cbn [fst] in F2.
    match goal with
    | |- context [loadTable ?r0] =>
        destruct (loadTable_stream_open r0) as [G1 G2];
        rewrite G1, G2
    end.
    cbn. rewrite F2, F1, F0. auto.
Qed.

(** X19.  A reader cannot be turned to another archive.  When the file
    exists at construction (archive or not), the reader is open;
    [closeArchive] then returns [false] and changes nothing, since it
    gives up whenever the reader is open; and [openArchive] on any path
    returns [false], because the stream is still open, leaving the
    reader not open, with its former table, and with [getFile] empty for
    every name. *)
Theorem open_reader_cannot_reopen :
  forall (fs : filesystem) (p : path) (d : bytes),
    fs p = Some d ->
    let r := DatArchiveReader_new fs p in
    isOpen r = true
    /\ closeArchive r = (r, false)
    /\ forall (fs' : filesystem) (q : path),
         let r' := fst (openArchive r fs' q) in
         snd (openArchive r fs' q) = false
         /\ isOpen r' = false
         /\ getTable r' = getTable r
         /\ forall (codec : zlib.Codec) fuel n,
              getFile fuel r' n = Returns (r', []).
Proof.
  intros fs p d Hfs r.
  destruct (constructed_reader_open fs p d Hfs) as [Ho Hs].
  fold r in Ho, Hs.
  split; [exact Ho|].
  split; [unfold closeArchive; rewrite Ho; reflexivity|].
  intros fs' q r'.
  assert (H : snd (openArchive r fs' q) = false
              /\ openFlag r' = false /\ entries r' = entries r).
  { unfold r'. clearbody r. unfold openArchive.
    destruct (negb (exists_ fs' q) && negb (is_directory fs' q)).
    - destruct r; cbn. auto.
    - cbv zeta. unfold ifs_open.
      destruct r as [ap a av t es o b]. cbn in Hs.
      cbn [set_openFlag set_badFlag set_archive archive]. rewrite Hs.
      unfold fail, ifs_setstate. cbn [failbit badbit].
      rewrite Bool.orb_true_r. cbn. auto. }
  destruct H as (H1 & H2 & H3).
  split; [exact H1|]. split; [exact H2|].
  split; [unfold getTable; rewrite H3; reflexivity|].
  intros codec fuel n. unfold getFile. rewrite H2. reflexivity.
Qed.

Lemma open_reader_cannot_reopen_witness :
  closeArchive (DatArchiveReader_new sample_fs "empty.dat"%string)
  = (DatArchiveReader_new sample_fs "empty.dat"%string, false)
  /\ snd (openArchive (DatArchiveReader_new sample_fs "empty.dat"%string)
                      sample_fs "empty.dat"%string) = false.
Proof.
  destruct (open_reader_cannot_reopen sample_fs "empty.dat"%string _ eq_refl)
    as (_ & Hc & Hr).
  split; [exact Hc|].
  destruct (Hr sample_fs "empty.dat"%string) as [H _]. exact H.
Defined.

(* ------------------------------------------------------------------ *)
(** *** Opening a second archive with the same reader *)

Lemma find_In_names (m : list (string * TableEntry)) k e :
  map_find String.ltb k m = Some e -> In k (map fst m).
Proof.
  induction m as [|[k2 v2] m IH]; cbn [map_find map fst]; [discriminate|].
  destruct (equivb String.ltb k k2) eqn:E.
  - intros _. apply string_equivb_eq in E. left. symmetry. exact E.
  - intros H. right. apply IH. exact H.
Qed.

Lemma emplace_present (m : list (string * TableEntry)) k v e :
  StronglySorted (fun a b => String.ltb a b = true) (map fst m) ->
  map_find String.ltb k m = Some e ->
  map_emplace String.ltb k v m = m.
Proof.
  induction m as [|[k2 v2] m IH]; cbn [map_find map_emplace map fst];
    [discriminate|].
  intros Hs Hf. inversion Hs as [|? ? Hs' Hall]; subst.
  destruct (equivb String.ltb k k2) eqn:E.
  - unfold equivb in E. apply andb_prop in E. destruct E as [E1 E2].
    apply Bool.negb_true_iff in E1, E2. rewrite E1, E2. reflexivity.
  - apply find_In_names in Hf as Hin.
    rewrite Forall_forall in Hall. pose proof (Hall k Hin) as Hlt.
    destruct (String.ltb k k2) eqn:E1.
    + pose proof (string_ltb_trans _ _ _ E1 Hlt) as Hkk.
      rewrite string_ltb_irrefl in Hkk. discriminate Hkk.
    + rewrite Hlt. rewrite (IH Hs' Hf). reflexivity.
Qed.

Lemma emplace_all_keeps es :
  forall idx k e,
    index_in_order idx ->
    map_find String.ltb k idx = Some e ->
    map_find String.ltb k (emplace_all es idx) = Some e.
Proof.
  induction es as [|x es IH]; intros idx k e Hi Hf;
    cbn [emplace_all fold_left]; [exact Hf|].
  apply IH; [apply emplace_in_order; exact Hi|].
  destruct (equivb String.ltb k (name x)) eqn:E.
  - apply string_equivb_eq in E. subst k.
    destruct Hi as [Hs _]. rewrite (emplace_present idx _ x e Hs Hf).
    exact Hf.
  - rewrite map_find_emplace_other by exact E. exact Hf.
Qed.

Lemma emplace_all_in_order es :
  forall idx, index_in_order idx -> index_in_order (emplace_all es idx).
Proof.
  induction es as [|x es IH]; intros idx H; cbn [emplace_all fold_left].
  - exact H.
  - apply IH. apply emplace_in_order. exact H.
Qed.

Lemma find_emplace_all_new e es :
  forall idx,
    NoDup (map name es) -> In e es ->
    map_find String.ltb (name e) idx = None ->
    map_find String.ltb (name e) (emplace_all es idx) = Some e.
Proof.
  induction es as [|x es IH]; intros idx Hnd Hin Hn;
    cbn [emplace_all fold_left]; [destruct Hin|].
  cbn [map] in Hnd. inversion Hnd as [|? ? Hx Hnd']; subst.
  destruct Hin as [->|Hin].
  - change (fold_left (fun m e0 => map_emplace String.ltb (name e0) e0 m) es
              (map_emplace String.ltb (name e) e idx))
      with (emplace_all es (map_emplace String.ltb (name e) e idx)).
    rewrite find_emplace_all_other by exact Hx.
    apply map_find_emplace_new; [apply string_equivb_refl|exact Hn].
  - apply IH; [exact Hnd'|exact Hin|].
    rewrite map_find_emplace_other; [exact Hn|].
    apply string_equivb_neq. intros E. apply Hx. rewrite <- E.
    apply in_map. exact Hin.
Qed.

(** Opening a file that starts with a valid header, with a reader whose
    stream is closed, whatever else the reader holds. *)
Lemma openArchive_header_closed fs q ap a av t idx o b d T rest :
  is_open a = false ->
  fs q = Some d ->
  d = header_bytes T ++ rest ->
  0 < T < 2 ^ 63 ->
  openArchive (mk_Reader ap a av t idx o b) fs q
  = (mk_Reader ap (mk_clean d 0) DATFILEVERSION T
       (parse_table (S (List.length d)) (skipn (Z.to_nat T) d) idx)
       true false, true).
Proof.
  intros Hc Hfs Hd HT. unfold openArchive, exists_. rewrite Hfs.
  cbn [negb andb].
  cbn [set_openFlag set_badFlag set_archive archive archivePath
       archiveVersion tableOffset entries openFlag badFlag].
  unfold ifs_open. rewrite Hc.
  change (mk_ifstream d 0 true false false false None) with (mk_clean d 0).
  cbn [fail mk_clean failbit badbit orb].
  assert (S0 : skipn 0 d = DATFILESIGNATURE
                 ++ le_encode 1 DATFILEVERSION ++ le_encode 8 T ++ rest).
  { cbn [skipn]. rewrite Hd. unfold header_bytes.
    repeat rewrite <- app_assoc. reflexivity. }
  change 4 with (Z.of_nat (List.length DATFILESIGNATURE)).
  rewrite (ifs_read_clean _ _ _ _ S0).
  apply skipn_step in S0.
  unfold read_uint.
  change (Z.of_nat 1) with (Z.of_nat (List.length (le_encode 1 DATFILEVERSION))).
  rewrite (ifs_read_clean _ _ _ _ S0).
  apply skipn_step in S0.
  cbn [set_openFlag set_badFlag set_archive set_archiveVersion archive
       archivePath archiveVersion tableOffset entries openFlag badFlag].
  rewrite (overlay_full (le_encode 1 DATFILEVERSION) (le_encode 1 av))
    by (rewrite !length_le_encode; reflexivity).
  replace (le_decode (le_encode 1 DATFILEVERSION))
    with DATFILEVERSION by reflexivity.
  replace (validateArchive _ _) with true by reflexivity.
  cbn [negb].
  replace (Z.of_nat 8) with (Z.of_nat (List.length (le_encode 8 T)))
    by (rewrite length_le_encode; reflexivity).
  rewrite (ifs_read_clean _ _ _ _ S0).
  rewrite overlay_full by (rewrite !length_le_encode; reflexivity).
  rewrite le_decode_encode. change (8 * Z.of_nat 8) with 64.
  rewrite Z.mod_small by lia.
  unfold set_tableOffset, set_archive, set_archiveVersion, set_openFlag,
    set_badFlag.
  cbn [archive archivePath archiveVersion tableOffset entries openFlag
       badFlag].
  rewrite loadTable_clean by assumption.
  reflexivity.
Qed.

(** X20.  [openArchive] never empties the index.  A reader of a first
    archive that is then given a second one (by a refused [openArchive],
    a [closeArchive], which now succeeds, and [openArchive] again) reads
    from the second file, and its index is the first table with the
    second table added to it: every name of the first archive is still
    found, with the entry of the first archive, also when the second
    archive has a file of that name; an entry of the second archive is
    found when its name is new. *)
Theorem reopened_reader_keeps_first_index :
  forall (fs : filesystem) (p : path) (D : bytes) (T : Z) (body : bytes)
         (es : list TableEntry)
         (fs' : filesystem) (q : path) (D' : bytes) (T' : Z) (body' : bytes)
         (es' : list TableEntry),
    fs p = Some D -> well_formed_archive D T body es -> T < 2 ^ 63 ->
    fs' q = Some D' -> well_formed_archive D' T' body' es' -> T' < 2 ^ 63 ->
    let r := DatArchiveReader_new fs p in
    let r1 := fst (openArchive r fs' q) in
    let r2 := fst (closeArchive r1) in
    let r3 := fst (openArchive r2 fs' q) in
    snd (openArchive r fs' q) = false
    /\ snd (closeArchive r1) = true
    /\ snd (openArchive r2 fs' q) = true
    /\ r3 = loaded_reader p D' T' (emplace_all es' (emplace_all es []))
    /\ (forall e, In e es -> getFileEntry r3 (name e) = Returns e)
    /\ (forall e, In e es' -> ~ In (name e) (map name es) ->
                  getFileEntry r3 (name e) = Returns e)
    /\ (forall n, contains r3 n = true
                  <-> In n (map name es) \/ In n (map name es')).
Proof.
  intros fs p D T body es fs' q D' T' body' es' Hfs Hwf HT Hfs' Hwf' HT'
         r r1 r2 r3.
  destruct Hwf as (HD & HTb & Hwfe & Hnd & _).
  destruct Hwf' as (HD' & HTb' & Hwfe' & Hnd' & _).
  assert (Hr : r = loaded_reader p D T (emplace_all es [])).
  { apply (open_archive_table fs p D T body es Hfs HD HTb HT Hwfe). }
  assert (H1 : openArchive r fs' q
               = (mk_Reader p (mk_ifstream D 0 true false true false None)
                    DATFILEVERSION T (emplace_all es []) false false, false)).
  { rewrite Hr. unfold openArchive, exists_, loaded_reader. rewrite Hfs'.
    cbn [negb andb].
    cbn [set_openFlag set_badFlag set_archive archive archivePath
         archiveVersion tableOffset entries openFlag badFlag].
    unfold ifs_open, mk_clean. cbn [is_open].
    unfold ifs_setstate, fail.
    cbn [contents gpos is_open eofbit failbit badbit fault orb].
    reflexivity. }
  assert (H2 : closeArchive r1
               = (mk_Reader p (mk_ifstream [] 0 false false true false None)
                    DATFILEVERSION T (emplace_all es []) false false, true)).
  { unfold r1. rewrite H1. reflexivity. }
  assert (H3 : openArchive r2 fs' q
               = (loaded_reader p D' T'
                    (emplace_all es' (emplace_all es [])), true)).
  { unfold r2. rewrite H2. cbn [fst].
    rewrite (openArchive_header_closed fs' q p
               (mk_ifstream [] 0 false false true false None)
               DATFILEVERSION T (emplace_all es []) false false D' T'
               (body' ++ table_bytes es') eq_refl Hfs' HD')
      by lia.
    unfold loaded_reader. do 2 f_equal.
    assert (Hskip : skipn (Z.to_nat T') D' = table_bytes es').
    { rewrite HD', app_assoc. apply skipn_app_exact.
      rewrite length_app, length_header_bytes. lia. }
    rewrite Hskip. apply parse_table_exact; [exact Hwfe'|].
    pose proof (length_table_bytes es' Hwfe') as Hl.
    rewrite HD', !length_app. lia. }
  assert (Hidx : index_in_order (emplace_all es [])).
  { apply emplace_all_in_order. split; constructor. }
  assert (Hold : forall e, In e es ->
             map_find String.ltb (name e)
               (emplace_all es' (emplace_all es [])) = Some e).
  { intros e Hin. apply emplace_all_keeps; [exact Hidx|].
    apply find_emplace_all; [exact Hnd| |exact Hin].
    intros x _. reflexivity. }
  assert (Hnew : forall e, In e es' -> ~ In (name e) (map name es) ->
             map_find String.ltb (name e)
               (emplace_all es' (emplace_all es [])) = Some e).
  { intros e Hin Hn. apply find_emplace_all_new; [exact Hnd'|exact Hin|].
    rewrite find_emplace_all_other by exact Hn. reflexivity. }
  split; [rewrite H1; reflexivity|].
  split; [rewrite H2; reflexivity|].
  split; [rewrite H3; reflexivity|].
  assert (Hr3 : r3 = loaded_reader p D' T'
                       (emplace_all es' (emplace_all es []))).
  { unfold r3. rewrite H3. reflexivity. }
  split; [exact Hr3|].
  rewrite Hr3. unfold getFileEntry, loaded_reader.
  cbn [openFlag badFlag entries negb orb].
  split; [intros e Hin; rewrite (Hold e Hin); reflexivity|].
  split; [intros e Hin Hn; rewrite (Hnew e Hin Hn); reflexivity|].
  intros n. rewrite contains_find. cbn [entries].
  split.
  - intros Hc.
    destruct (in_dec string_dec n (map name es)) as [Hi|Hi]; [auto|].
    destruct (in_dec string_dec n (map name es')) as [Hi'|Hi']; [auto|].
    exfalso. apply Hc.
    rewrite !find_emplace_all_other by assumption. reflexivity.
  - intros Hin Hc.
    destruct (in_dec string_dec n (map name es)) as [Hi|Hi].
    + apply in_map_iff in Hi. destruct Hi as (e & <- & He).
      rewrite (Hold e He) in Hc. discriminate Hc.
    + destruct Hin as [Hin|Hin]; [tauto|].
      apply in_map_iff in Hin. destruct Hin as (e & <- & He).
      rewrite (Hnew e He Hi) in Hc. discriminate Hc.
Qed.

Lemma other_archive_well_formed :
  well_formed_archive other_archive 14 [x63] [other_entry].
Proof.
  unfold well_formed_archive. split; [reflexivity|].
  split; [reflexivity|]. split.
  - constructor; [|constructor]. unfold wf_entry, other_entry.
    cbn [name crc32 originalSize dataStart dataEnd].
    split; [cbn; lia|]. split; [apply crc32_bound; lia|]. lia.
  - split.
    + repeat constructor. intros [].
    + constructor; [|constructor]. unfold other_entry.
      cbn [dataStart dataEnd]. lia.
Qed.

Lemma reopened_reader_keeps_first_index_witness :
  getFileEntry
    (fst (openArchive
            (fst (closeArchive
                    (fst (openArchive
                            (DatArchiveReader_new two_archives_fs "out.dat")
                            two_archives_fs "other.dat"))))
            two_archives_fs "other.dat"))
    "Test"
  = Returns old_entry.
Proof.
  destruct (reopened_reader_keeps_first_index
              two_archives_fs "out.dat" old_archive 15 [x68; x69] [old_entry]
              two_archives_fs "other.dat" other_archive 14 [x63] [other_entry]
              eq_refl old_archive_well_formed)
    as (_ & _ & _ & _ & H & _).
  - lia.
  - reflexivity.
  - exact other_archive_well_formed.
  - lia.
  - apply (H old_entry). left. reflexivity.
Defined.

(* ------------------------------------------------------------------ *)
(** *** A source that is gone when the archive is written *)



(* ------------------------------------------------------------------ *)
(** *** A writer used for a second archive *)

Section WriterReuse.
Context {codec : zlib.Codec} {laws : zlib.CodecLaws codec}.

Lemma stored_method fs fs' pe pe' :
  fs (fst pe) = fs' (fst pe') ->
  compressionMethod (snd pe) = compressionMethod (snd pe') ->
  stored fs pe = stored fs' pe'.
Proof. intros H1 H2. unfold stored. rewrite H1, H2. reflexivity. Qed.

Lemma payloads_written_entries fs fs' fs'' l :
  forall pos,
    (forall pe, In pe l -> fs' (fst pe) = fs (fst pe)) ->
    payloads fs' (written_entries pos fs'' l) = payloads fs l.
Proof.
  induction l as [|pe l IH]; intros pos H; cbn [written_entries];
    [reflexivity|].
  rewrite !payloads_cons. f_equal.
  - apply stored_method; cbn [fst snd].
    + apply H. left. reflexivity.
    + apply method_written_entry.
  - apply IH. intros x Hx. apply H. right. exact Hx.
Qed.

(** The fields of an entry once written, whatever it held before: the
    checksum of a compressed file goes on from the one the entry has. *)
Lemma written_entry_fields_any fs p e content pos :
  fs p = Some content ->
  compressionMethod e = NONE \/ compressionMethod e = ZLIB ->
  0 <= pos ->
  pos + Z.of_nat (List.length (stored fs (p, e))) < 2 ^ 64 ->
  Z.of_nat (List.length content) < 2 ^ 64 ->
  let e' := written_entry pos fs (p, e) in
  dataStart e' = pos
  /\ dataEnd e' = pos + Z.of_nat (List.length (stored fs (p, e)))
  /\ originalSize e' = Z.of_nat (List.length content)
  /\ (compressionMethod e = NONE -> crc32 e' = zlib.crc32 0 content)
  /\ (compressionMethod e = ZLIB ->
      crc32 e' = zlib.crc32 (crc32 e) (stored fs (p, e))).
Proof.
  intros Hfs Hm Hp Hb Hc. cbv zeta.
  unfold written_entry. cbn [fst snd]. rewrite Hfs.
  cbn [compressionMethod set_originalSize set_dataStart].
  rewrite !uint64_small by lia.
  destruct Hm as [Hm|Hm]; rewrite Hm.
  - change (Byte.eqb NONE NONE) with true. cbn match.
    cbn [crc32 originalSize dataStart dataEnd set_dataEnd set_crc32
         set_originalSize set_dataStart].
    repeat split; auto. intros H. discriminate H.
  - change (Byte.eqb ZLIB NONE) with false.
    change (Byte.eqb ZLIB ZLIB) with true. cbn match.
    cbn [crc32 originalSize dataStart dataEnd set_dataEnd set_crc32
         set_originalSize set_dataStart].
    repeat split; auto. intros H. discriminate H.
Qed.

(** [getFile] on a compressed entry whose checksum is not that of its
    payload. *)
Lemma getFile_of_stored_crc q D p0 ver T idx n e content pre z post fuel :
  map_find String.ltb n idx = Some e ->
  D = pre ++ z ++ post ->
  dataStart e = Z.of_nat (List.length pre) ->
  dataEnd e = Z.of_nat (List.length pre + List.length z) ->
  dataEnd e < 2 ^ 63 ->
  originalSize e = Z.of_nat (List.length content) ->
  Z.of_nat (List.length content) < 2 ^ 32 ->
  compressionMethod e = ZLIB ->
  compressed content = Some z ->
  crc32 e <> zlib.crc32 0 z ->
  (List.length z < fuel)%nat ->
  getFile fuel (mk_Reader q (mk_clean D p0) ver T idx true false) n
  = Returns (mk_Reader q (mk_clean D (List.length pre + List.length z))
                       ver T idx true false,
             []).
Proof.
  intros Hfind HD Hs He Hb Ho Hc Hm Hz Hcrc Hf.
  unfold getFile. cbn [openFlag badFlag negb orb].
  assert (Hcon : contains (mk_Reader q (mk_clean D p0) ver T idx true false)
                          n = true).
  { apply contains_find. cbn [entries]. rewrite Hfind. discriminate. }
  rewrite Hcon. cbn [negb].
  unfold getFileEntry. cbn [openFlag badFlag negb orb entries].
  rewrite Hfind. cbn [bind]. rewrite Ho, Nat2Z.id.
  unfold getFileFromEntry. rewrite Hm.
  change (Byte.eqb ZLIB NONE) with false.
  change (Byte.eqb ZLIB ZLIB) with true. cbn match.
  unfold zlibExtractFile, zlibExtractFile_from.
  cbn [archive]. rewrite Hs.
  rewrite int64_small by lia. rewrite ifs_seekg_clean by lia.
  rewrite Nat2Z.id.
  pose proof zlib.inflateInit_ok as Hi.
  pose proof (inflate_compressed content z fuel Hz Hf) as Hrun.
  destruct zlib.inflateInit as [rc strm]. cbn [fst snd] in Hi, Hrun.
  subst rc. cbn [zlib.ret_code_eqb negb].
  rewrite Ho, (uint_small 32), Nat2Z.id by lia.
  set (r0 := mk_Reader q (mk_clean D p0) ver T idx true false).
  rewrite (zlibExtractFile_loop_run D e true
             (List.length pre + List.length z) He Hb
             ltac:(subst D; rewrite !length_app; lia)
             fuel (List.length pre) r0 [] 0 strm (List.length content) 0
             (repeat x00 (List.length content)) content);
    try lia.
  2:{ rewrite repeat_length. lia. }
  2:{ subst D. rewrite window_middle. exact Hrun. }
  cbn [bind snd]. subst D. rewrite window_middle.
  replace (zlib.crc32 0 z =? crc32 e) with false
    by (symmetry; apply Z.eqb_neq; intros E; apply Hcrc; symmetry; exact E).
  cbn [negb andb]. reflexivity.
Qed.

End WriterReuse.


